(** * The vector-scatter interface (src/vec/vscat/interface/vscatfce.c)

    A shallow embedding of the functions of [vscatfce.c]:
    [VecScatterGetMerged], [VecScatterBegin], [VecScatterEnd],
    [VecScatterDestroy], [VecScatterRemap], [VecScatterIsSequential_Private]
    and [VecScatterInitializeForGPU], and the properties of the scatter
    context that follow from them.

    The C functions return a [PetscErrorCode] and mutate the context they are
    handed; here they are state transformers on a [State] made of the
    context and the list of calls made to code outside the file (the
    dispatch table [ctx->ops], the logging macros, the error handler, the
    memcpy-plan and device helpers).  An access outside an array, which C
    leaves undefined, is the result [None].  Contexts and vectors are
    records, not pointers: the handles a function receives are valid objects
    of their class, as [PetscValidHeaderSpecific] requires. *)

From Stdlib Require Import ZArith Lia Sorted.
From stdpp Require Import base numbers list strings.

Local Open Scope Z_scope.

(** ** Scalars, error codes and enumerations *)

(** [PetscInt] and [PetscErrorCode] are C integers; their values are kept
    in [Z]. *)
Abbreviation PetscInt := Z (only parsing).
Abbreviation PetscErrorCode := Z (only parsing).

(** The numeric values of petscerror.h (the header is not among the files
    read; the functions only compare a code against 0). *)
(** [PetscInt] is a 32-bit [int] in the default configuration. *)
Definition PETSC_MAX_INT : PetscInt := 2147483647.
Definition PETSC_MIN_INT : PetscInt := -2147483648.

Definition PETSC_ERR_SUP : PetscErrorCode := 56.
Definition PETSC_ERR_ARG_SIZ : PetscErrorCode := 60.
Definition PETSC_ERR_ARG_WRONGSTATE : PetscErrorCode := 73.

Inductive InsertMode := INSERT_VALUES | ADD_VALUES.

(** [ScatterMode] is a C enum tested with a bit mask ([mode & SCATTER_REVERSE]). *)
Abbreviation ScatterMode := Z (only parsing).
Definition SCATTER_FORWARD : ScatterMode := 0.
Definition SCATTER_REVERSE : ScatterMode := 1.
Definition SCATTER_FORWARD_LOCAL : ScatterMode := 2.
Definition SCATTER_REVERSE_LOCAL : ScatterMode := 3.

Definition is_reverse (mode : ScatterMode) : bool :=
  negb (Z.land mode SCATTER_REVERSE =? 0).

Inductive VecScatterFormat :=
| VEC_SCATTER_SEQ_GENERAL
| VEC_SCATTER_SEQ_STRIDE
| VEC_SCATTER_MPI_GENERAL
| VEC_SCATTER_MPI_TOALL
| VEC_SCATTER_MPI_TOONE.

Inductive PetscOffloadFlag :=
| PETSC_OFFLOAD_UNALLOCATED
| PETSC_OFFLOAD_GPU
| PETSC_OFFLOAD_CPU
| PETSC_OFFLOAD_BOTH.

Definition offload_unallocated (f : PetscOffloadFlag) : bool :=
  match f with PETSC_OFFLOAD_UNALLOCATED => true | _ => false end.

Inductive PetscLogEvent := VEC_ScatterBegin | VEC_ScatterEnd.

(** ** Data model *)

(** Modelled from the spec: the memcpy plan ([VecScatterMemcpyPlan], declared
    in vecscatterimpl.h, not among the files) is "a sequence of
    (destination-run, source-run, length) descriptors"; the empty sequence is
    the absent plan. *)
Record MemcpyRun := { run_dst : PetscInt; run_src : PetscInt; run_len : PetscInt }.
Definition VecScatterMemcpyPlan := list MemcpyRun.

(** The backend structures of vecscatterimpl.h, with the fields this file
    reads or writes. *)
Record VecScatter_Seq_General := {
  sg_n : PetscInt;
  sg_vslots : list PetscInt;
  sg_memcpy_plan : VecScatterMemcpyPlan
}.

Record VecScatter_Seq_Stride := {
  ss_n : PetscInt;
  ss_first : PetscInt;
  ss_step : PetscInt
}.

Record VecScatter_MPI_General := {
  mg_n : PetscInt;
  mg_starts : list PetscInt;
  mg_indices : list PetscInt;
  mg_local : VecScatter_Seq_General;
  mg_bs : PetscInt;
  mg_memcpy_plan : VecScatterMemcpyPlan
}.

Record VecScatter_MPI_ToAll := { ta_count : PetscInt }.

(** [scat->todata] and [scat->fromdata] are [void*] to one of the backend
    structures, each starting with its [format] tag. *)
Inductive ScatterData :=
| SeqGeneral (d : VecScatter_Seq_General)
| SeqStride (d : VecScatter_Seq_Stride)
| MPIGeneral (d : VecScatter_MPI_General)
| MPIToAll (d : VecScatter_MPI_ToAll)
| MPIToOne (d : VecScatter_MPI_ToAll).

Definition format (d : ScatterData) : VecScatterFormat :=
  match d with
  | SeqGeneral _ => VEC_SCATTER_SEQ_GENERAL
  | SeqStride _ => VEC_SCATTER_SEQ_STRIDE
  | MPIGeneral _ => VEC_SCATTER_MPI_GENERAL
  | MPIToAll _ => VEC_SCATTER_MPI_TOALL
  | MPIToOne _ => VEC_SCATTER_MPI_TOONE
  end.

(** Modelled from the spec: the device index mirror kept in [ctx->spptr]
    ([PetscCUDAIndices], declared in the CUDA vector headers, not among the
    files): the send and receive index buffers handed to the device layer. *)
Record PetscCUDAIndices := {
  ci_ns : PetscInt;
  ci_sendIndices : list PetscInt;
  ci_nr : PetscInt;
  ci_recvIndices : list PetscInt
}.

(** The fields of [struct _p_VecScatter] (and [refct] of its object header). *)
Record VecScatter := {
  to_n : PetscInt;
  from_n : PetscInt;
  inuse : bool;
  beginandendtogether : bool;
  refct : PetscInt;
  todata : ScatterData;
  fromdata : ScatterData;
  spptr : option PetscCUDAIndices
}.

(** Of a vector, the file reads its local size and its offload flag. *)
Record Vec := {
  local_size : PetscInt;
  valid_GPU_array : PetscOffloadFlag
}.

Definition set_inuse (b : bool) (c : VecScatter) : VecScatter :=
  {| to_n := to_n c; from_n := from_n c; inuse := b;
     beginandendtogether := beginandendtogether c; refct := refct c;
     todata := todata c; fromdata := fromdata c; spptr := spptr c |}.

Definition set_sizes (t f : PetscInt) (c : VecScatter) : VecScatter :=
  {| to_n := t; from_n := f; inuse := inuse c;
     beginandendtogether := beginandendtogether c; refct := refct c;
     todata := todata c; fromdata := fromdata c; spptr := spptr c |}.

Definition set_refct (r : PetscInt) (c : VecScatter) : VecScatter :=
  {| to_n := to_n c; from_n := from_n c; inuse := inuse c;
     beginandendtogether := beginandendtogether c; refct := r;
     todata := todata c; fromdata := fromdata c; spptr := spptr c |}.

Definition set_todata (d : ScatterData) (c : VecScatter) : VecScatter :=
  {| to_n := to_n c; from_n := from_n c; inuse := inuse c;
     beginandendtogether := beginandendtogether c; refct := refct c;
     todata := d; fromdata := fromdata c; spptr := spptr c |}.

Definition set_fromdata (d : ScatterData) (c : VecScatter) : VecScatter :=
  {| to_n := to_n c; from_n := from_n c; inuse := inuse c;
     beginandendtogether := beginandendtogether c; refct := refct c;
     todata := todata c; fromdata := d; spptr := spptr c |}.

Definition set_spptr (p : option PetscCUDAIndices) (c : VecScatter) : VecScatter :=
  {| to_n := to_n c; from_n := from_n c; inuse := inuse c;
     beginandendtogether := beginandendtogether c; refct := refct c;
     todata := todata c; fromdata := fromdata c; spptr := p |}.

(** ** The code outside the file *)

(** The operations of a backend ([ctx->ops]); [NULL] entries are [None].
    A backend phase receives the context and may update it.  The table is
    installed when the context is set up; no function of this file writes it. *)
Definition ScatterPhase :=
  VecScatter -> Vec -> Vec -> InsertMode -> ScatterMode -> PetscErrorCode * VecScatter.

Record VecScatterOps := {
  ops_begin : ScatterPhase;
  ops_end : option ScatterPhase;
  ops_destroy : option (VecScatter -> PetscErrorCode * VecScatter)
}.

(** The four plans [VecScatterMemcpyPlan{Destroy,Create}_PtoP] write. *)
Record PtoPPlans := {
  pp_to : VecScatterMemcpyPlan;
  pp_to_local : VecScatterMemcpyPlan;
  pp_from : VecScatterMemcpyPlan;
  pp_from_local : VecScatterMemcpyPlan
}.

(** The four work arrays of [VecScatterInitializeForGPU]. *)
Inductive Buffer := tindicesSends | tindicesRecvs | sindicesSends | sindicesRecvs.

(** Build configuration, dispatch table and the helpers the file calls but
    does not define.  The plan helpers compute plans from the index lists;
    they are given the backend data and return the plans they store. *)
Record Env := {
  PETSC_USE_DEBUG : bool;
  PETSC_HAVE_CUDA : bool;
  ops : VecScatterOps;
  PetscLogEventBegin : PetscLogEvent -> PetscErrorCode;
  PetscLogEventEnd : PetscLogEvent -> PetscErrorCode;
  PetscObjectSAWsViewOff : VecScatter -> PetscErrorCode;
  PetscHeaderDestroy : VecScatter -> PetscErrorCode;
  VecScatterCUDAIndicesDestroy :
    option PetscCUDAIndices -> PetscErrorCode * option PetscCUDAIndices;
  VecScatterCUDAIndicesCreate_PtoP :
    PetscInt -> list PetscInt -> PetscInt -> list PetscInt ->
    PetscErrorCode * option PetscCUDAIndices;
  VecScatterMemcpyPlanDestroy :
    VecScatterMemcpyPlan -> PetscErrorCode * VecScatterMemcpyPlan;
  VecScatterMemcpyPlanDestroy_PtoP :
    VecScatter_MPI_General -> VecScatter_MPI_General -> PetscErrorCode * PtoPPlans;
  VecScatterMemcpyPlanCreate_PtoP :
    VecScatter_MPI_General -> VecScatter_MPI_General -> PetscErrorCode * PtoPPlans;
  VecScatterMemcpyPlanCreate_Index :
    PetscInt -> list PetscInt -> list PetscInt -> PetscInt ->
    PetscErrorCode * VecScatterMemcpyPlan;
  VecScatterMemcpyPlanCreate_SGToSG :
    PetscInt -> VecScatter_Seq_General -> VecScatter_Seq_General ->
    PetscErrorCode * (VecScatterMemcpyPlan * VecScatterMemcpyPlan);
  (* the codes of the memory and sorting utilities, by the buffer they are
     called on: [PetscMalloc1(n,&b)], [PetscMemcpy(b,src,n*sizeof(PetscInt))],
     [PetscSortRemoveDupsInt(&n,b)] on the content [a] of [b], [PetscFree(b)] *)
  PetscMalloc1 : Buffer -> PetscInt -> PetscErrorCode;
  PetscMemcpy : Buffer -> PetscInt -> PetscErrorCode;
  PetscSortRemoveDupsInt_ierr : Buffer -> list PetscInt -> PetscErrorCode;
  PetscFree : Buffer -> PetscErrorCode
}.

(** ** Calls and the state monad *)

(** The error handler is entered in two ways: by [SETERRQ], with
    [PETSC_ERROR_INITIAL] and a message ([Call_PetscError]), and by [CHKERRQ]
    on a nonzero code, with [PETSC_ERROR_REPEAT] and the message [" "]
    ([Call_PetscErrorRepeat]). *)
Inductive Call :=
| Call_PetscError (code : PetscErrorCode) (mess : string) (args : list PetscInt)
| Call_PetscErrorRepeat (code : PetscErrorCode)
| Call_PetscLogEventBegin (e : PetscLogEvent)
| Call_PetscLogEventEnd (e : PetscLogEvent)
| Call_ops_begin
| Call_ops_end
| Call_ops_destroy
| Call_PetscObjectSAWsViewOff
| Call_VecScatterCUDAIndicesDestroy
| Call_PetscHeaderDestroy
| Call_VecScatterMemcpyPlanDestroy
| Call_VecScatterMemcpyPlanDestroy_PtoP
| Call_VecScatterMemcpyPlanCreate_PtoP
| Call_VecScatterMemcpyPlanCreate_Index
| Call_VecScatterMemcpyPlanCreate_SGToSG
| Call_VecScatterCUDAIndicesCreate_PtoP
    (ns : PetscInt) (sends : list PetscInt) (nr : PetscInt) (recvs : list PetscInt)
| Call_PetscMalloc1 (b : Buffer) (n : PetscInt)
| Call_PetscMemcpy (b : Buffer) (n : PetscInt)
| Call_PetscSortRemoveDupsInt (b : Buffer)
| Call_PetscFree (b : Buffer).

Record State := { ctx : VecScatter; calls : list Call }.

Definition Petsc := State -> option (PetscErrorCode * State).

Definition PetscFunctionReturn (e : PetscErrorCode) : Petsc :=
  fun s => Some (e, s).

Definition record (c : Call) (s : State) : State :=
  {| ctx := ctx s; calls := calls s ++ [c] |}.

(** A statement or block [m] of a function body followed by the rest [k] of
    the body: [k] runs unless [m] has returned from the function, which in
    this file a block does only with a nonzero code. *)
Definition andthen (m k : Petsc) : Petsc :=
  fun s =>
    match m s with
    | None => None
    | Some (e, s') => if e =? 0 then k s' else Some (e, s')
    end.

Notation "m >>> k" := (andthen m k) (at level 100, right associativity).

(** [ierr = m; CHKERRQ(ierr); k]: on a nonzero code the macro returns
    through the error handler, [return PetscError(...,ierr,PETSC_ERROR_REPEAT," ")],
    which hands the code back. *)
Definition CHKERRQ (m k : Petsc) : Petsc :=
  fun s =>
    match m s with
    | None => None
    | Some (e, s') =>
        if e =? 0 then k s' else Some (e, record (Call_PetscErrorRepeat e) s')
    end.

Notation "m ;;; k" := (CHKERRQ m k) (at level 100, right associativity).

Definition SETERRQ (code : PetscErrorCode) (mess : string) (args : list PetscInt) : Petsc :=
  fun s => Some (code, record (Call_PetscError code mess args) s).

Definition undefined : Petsc := fun _ => None.

(** A statement that updates the context and cannot fail. *)
Definition update (f : VecScatter -> VecScatter) : Petsc :=
  fun s => Some (0, {| ctx := f (ctx s); calls := calls s |}).

(** A call that returns an error code and leaves the context alone. *)
Definition call (c : Call) (e : PetscErrorCode) : Petsc :=
  fun s => Some (e, record c s).

(** A call through the dispatch table. *)
Definition call_op (c : Call) (f : VecScatter -> PetscErrorCode * VecScatter) : Petsc :=
  fun s => let r := f (ctx s) in
           Some (r.1, {| ctx := r.2; calls := calls s ++ [c] |}).

(** ** VecScatterGetMerged *)

Definition VecScatterGetMerged (c : VecScatter) : PetscErrorCode * bool :=
  (0, beginandendtogether c).

(** ** VecScatterBegin *)

(** [VecGetLocalSize] (vector interface, not in this file). *)
Definition VecGetLocalSize (x : Vec) : PetscInt := local_size x.

Definition wrong_size_rev_to : string :=
  "Vector wrong size %D for scatter %D (scatter reverse and vector to != ctx from size)".
Definition wrong_size_rev_from : string :=
  "Vector wrong size %D for scatter %D (scatter reverse and vector from != ctx to size)".
Definition wrong_size_fwd_to : string :=
  "Vector wrong size %D for scatter %D (scatter forward and vector to != ctx to size)".
Definition wrong_size_fwd_from : string :=
  "Vector wrong size %D for scatter %D (scatter forward and vector from != ctx from size)".

(** Lines 95-105, the block under [#if defined(PETSC_USE_DEBUG)]. *)
Definition check_sizes (x y : Vec) (mode : ScatterMode) : Petsc :=
  fun s =>
    let c := ctx s in
    if (0 <=? from_n c) && (0 <=? to_n c) then
      let from_n' := VecGetLocalSize x in
      let to_n' := VecGetLocalSize y in
      if is_reverse mode then
        if negb (to_n' =? from_n c) then
          SETERRQ PETSC_ERR_ARG_SIZ wrong_size_rev_to [to_n'; from_n c] s
        else if negb (from_n' =? to_n c) then
          SETERRQ PETSC_ERR_ARG_SIZ wrong_size_rev_from [from_n'; to_n c] s
        else PetscFunctionReturn 0 s
      else
        if negb (to_n' =? to_n c) then
          SETERRQ PETSC_ERR_ARG_SIZ wrong_size_fwd_to [to_n'; to_n c] s
        else if negb (from_n' =? from_n c) then
          SETERRQ PETSC_ERR_ARG_SIZ wrong_size_fwd_from [from_n'; from_n c] s
        else PetscFunctionReturn 0 s
    else PetscFunctionReturn 0 s.

(** Lines 108-116. *)
Definition begin_phase (E : Env) (x y : Vec) (addv : InsertMode) (mode : ScatterMode) : Petsc :=
  update (set_inuse true) >>>
  call (Call_PetscLogEventBegin VEC_ScatterBegin) (PetscLogEventBegin E VEC_ScatterBegin) ;;;
  call_op Call_ops_begin (fun c => ops_begin (ops E) c x y addv mode) ;;;
  (fun s =>
     if beginandendtogether (ctx s) then
       match ops_end (ops E) with
       | Some end_op =>
           (update (set_inuse false) >>>
            call_op Call_ops_end (fun c => end_op c x y addv mode) ;;;
            PetscFunctionReturn 0) s
       | None => PetscFunctionReturn 0 s
       end
     else PetscFunctionReturn 0 s) >>>
  call (Call_PetscLogEventEnd VEC_ScatterBegin) (PetscLogEventEnd E VEC_ScatterBegin) ;;;
  PetscFunctionReturn 0.

Definition VecScatterBegin (E : Env) (x y : Vec) (addv : InsertMode) (mode : ScatterMode) : Petsc :=
  fun s =>
    if inuse (ctx s) then
      SETERRQ PETSC_ERR_ARG_WRONGSTATE " Scatter ctx already in use" [] s
    else
      ((if PETSC_USE_DEBUG E then check_sizes x y mode else PetscFunctionReturn 0) >>>
       begin_phase E x y addv mode) s.

(** ** VecScatterEnd *)

Definition VecScatterEnd (E : Env) (x y : Vec) (addv : InsertMode) (mode : ScatterMode) : Petsc :=
  update (set_inuse false) >>>
  (fun s =>
     match ops_end (ops E) with
     | None => PetscFunctionReturn 0 s
     | Some end_op =>
         if negb (beginandendtogether (ctx s)) then
           (call (Call_PetscLogEventBegin VEC_ScatterEnd) (PetscLogEventBegin E VEC_ScatterEnd) ;;;
            call_op Call_ops_end (fun c => end_op c x y addv mode) ;;;
            call (Call_PetscLogEventEnd VEC_ScatterEnd) (PetscLogEventEnd E VEC_ScatterEnd) ;;;
            PetscFunctionReturn 0) s
         else PetscFunctionReturn 0 s
     end).

(** ** VecScatterDestroy *)

(** What the caller sees after [VecScatterDestroy(&ctx)]: the return code,
    whether its handle [*ctx] is now [NULL], the object the handle pointed to
    ([None] once its header is freed) and the calls made. *)
Record Destroyed := {
  d_code : PetscErrorCode;
  d_handle_null : bool;
  d_object : option VecScatter;
  d_calls : list Call
}.

(** [--refct] on a [PetscInt]: one less, except at the least value, where
    the compiled subtraction wraps around to the greatest. *)
Definition decrement (r : PetscInt) : PetscInt :=
  if r =? PETSC_MIN_INT then PETSC_MAX_INT else r - 1.

(** Lines 185-190, reached when the count has dropped to zero. *)
Definition release (E : Env) : Petsc :=
  (fun s => call Call_PetscObjectSAWsViewOff (PetscObjectSAWsViewOff E (ctx s)) s) ;;;
  (match ops_destroy (ops E) with
   | Some d => call_op Call_ops_destroy d
   | None => PetscFunctionReturn 0
   end) ;;;
  (if PETSC_HAVE_CUDA E then
     call_op Call_VecScatterCUDAIndicesDestroy
       (fun c => let r := VecScatterCUDAIndicesDestroy E (spptr c) in (r.1, set_spptr r.2 c))
   else PetscFunctionReturn 0) ;;;
  (fun s => call Call_PetscHeaderDestroy (PetscHeaderDestroy E (ctx s)) s) ;;;
  PetscFunctionReturn 0.

Definition VecScatterDestroy (E : Env) (h : option VecScatter) : Destroyed :=
  match h with
  | None => {| d_code := 0; d_handle_null := true; d_object := None; d_calls := [] |}
  | Some c =>
      if inuse c && (refct c =? 1) then
        {| d_code := PETSC_ERR_ARG_WRONGSTATE; d_handle_null := false; d_object := Some c;
           d_calls := [Call_PetscError PETSC_ERR_ARG_WRONGSTATE "Scatter context is in use" []] |}
      else
        let c1 := set_refct (decrement (refct c)) c in
        if 0 <? refct c1 then
          {| d_code := 0; d_handle_null := true; d_object := Some c1; d_calls := [] |}
        else
          match release E {| ctx := c1; calls := [] |} with
          | Some (e, s) =>
              if e =? 0 then
                {| d_code := 0; d_handle_null := true; d_object := None; d_calls := calls s |}
              else
                {| d_code := e; d_handle_null := false; d_object := Some (ctx s);
                   d_calls := calls s |}
          | None =>
              (* not reached: [release] reads no array *)
              {| d_code := 0; d_handle_null := false; d_object := Some c1; d_calls := [] |}
          end
  end.

(** ** VecScatterRemap *)

(** [a[i]] for a C array held in a list: undefined outside it. *)
Definition array_get (a : list PetscInt) (i : PetscInt) : option PetscInt :=
  if i <? 0 then None else a !! Z.to_nat i.

(** [cnt] rounds of [a[i] = tomap[a[i]]; i++], the body of the loops of
    lines 326, 329 and 338. *)
Fixpoint remap_loop (tomap : list PetscInt) (cnt i : nat) (a : list PetscInt)
  : option (list PetscInt) :=
  match cnt with
  | O => Some a
  | S cnt' =>
      match a !! i with
      | None => None
      | Some v =>
          match array_get tomap v with
          | None => None
          | Some w => remap_loop tomap cnt' (S i) (<[i:=w]> a)
          end
      end
  end.

(** [cnt] rounds of [if (tomap[i] != i) SETERRQ(...); i++] (lines 355-357):
    [Some true] when the loop runs to its end, [Some false] when it raises. *)
Fixpoint identity_loop (tomap : list PetscInt) (cnt i : nat) : option bool :=
  match cnt with
  | O => Some true
  | S cnt' =>
      match tomap !! i with
      | None => None
      | Some v => if negb (v =? Z.of_nat i) then Some false else identity_loop tomap cnt' (S i)
      end
  end.

Definition mg_with_indices (ind vs : list PetscInt) (g : VecScatter_MPI_General)
  : VecScatter_MPI_General :=
  {| mg_n := mg_n g; mg_starts := mg_starts g; mg_indices := ind;
     mg_local := {| sg_n := sg_n (mg_local g); sg_vslots := vs;
                    sg_memcpy_plan := sg_memcpy_plan (mg_local g) |};
     mg_bs := mg_bs g; mg_memcpy_plan := mg_memcpy_plan g |}.

Definition mg_with_plans (p pl : VecScatterMemcpyPlan) (g : VecScatter_MPI_General)
  : VecScatter_MPI_General :=
  {| mg_n := mg_n g; mg_starts := mg_starts g; mg_indices := mg_indices g;
     mg_local := {| sg_n := sg_n (mg_local g); sg_vslots := sg_vslots (mg_local g);
                    sg_memcpy_plan := pl |};
     mg_bs := mg_bs g; mg_memcpy_plan := p |}.

Definition sg_with_vslots (vs : list PetscInt) (g : VecScatter_Seq_General)
  : VecScatter_Seq_General :=
  {| sg_n := sg_n g; sg_vslots := vs; sg_memcpy_plan := sg_memcpy_plan g |}.

Definition sg_with_plan (p : VecScatterMemcpyPlan) (g : VecScatter_Seq_General)
  : VecScatter_Seq_General :=
  {| sg_n := sg_n g; sg_vslots := sg_vslots g; sg_memcpy_plan := p |}.

(** A call of [VecScatterMemcpyPlan{Destroy,Create}_PtoP(to,from)]: both
    arguments are read as [VecScatter_MPI_General]. *)
Definition ptop_plans (c : Call)
    (f : VecScatter_MPI_General -> VecScatter_MPI_General -> PetscErrorCode * PtoPPlans)
  : Petsc :=
  fun s =>
    match todata (ctx s), fromdata (ctx s) with
    | MPIGeneral to, MPIGeneral from =>
        let r := f to from in
        Some (r.1,
              {| ctx := set_fromdata
                          (MPIGeneral (mg_with_plans (pp_from r.2) (pp_from_local r.2) from))
                          (set_todata
                             (MPIGeneral (mg_with_plans (pp_to r.2) (pp_to_local r.2) to))
                             (ctx s));
                 calls := calls s ++ [c] |})
    | _, _ => None
    end.

(** [VecScatterMemcpyPlanDestroy(&sgfrom->memcpy_plan)] *)
Definition destroy_from_plan (E : Env) : Petsc :=
  fun s =>
    match fromdata (ctx s) with
    | SeqGeneral sgfrom =>
        let r := VecScatterMemcpyPlanDestroy E (sg_memcpy_plan sgfrom) in
        Some (r.1, {| ctx := set_fromdata (SeqGeneral (sg_with_plan r.2 sgfrom)) (ctx s);
                      calls := calls s ++ [Call_VecScatterMemcpyPlanDestroy] |})
    | _ => None
    end.

(** [VecScatterMemcpyPlanDestroy(&sgto->memcpy_plan)] *)
Definition destroy_to_plan (E : Env) : Petsc :=
  fun s =>
    match todata (ctx s) with
    | SeqGeneral sgto =>
        let r := VecScatterMemcpyPlanDestroy E (sg_memcpy_plan sgto) in
        Some (r.1, {| ctx := set_todata (SeqGeneral (sg_with_plan r.2 sgto)) (ctx s);
                      calls := calls s ++ [Call_VecScatterMemcpyPlanDestroy] |})
    | _ => None
    end.

(** [VecScatterMemcpyPlanCreate_Index(1,tmp,sgfrom->vslots,1,&sgfrom->memcpy_plan)]
    with [tmp = {0, sgfrom->n}]. *)
Definition create_index_plan (E : Env) : Petsc :=
  fun s =>
    match fromdata (ctx s) with
    | SeqGeneral sgfrom =>
        let r := VecScatterMemcpyPlanCreate_Index E 1 [0; sg_n sgfrom] (sg_vslots sgfrom) 1 in
        Some (r.1, {| ctx := set_fromdata (SeqGeneral (sg_with_plan r.2 sgfrom)) (ctx s);
                      calls := calls s ++ [Call_VecScatterMemcpyPlanCreate_Index] |})
    | _ => None
    end.

(** [VecScatterMemcpyPlanCreate_SGToSG(1,sgto,sgfrom)] *)
Definition create_sgtosg_plan (E : Env) : Petsc :=
  fun s =>
    match todata (ctx s), fromdata (ctx s) with
    | SeqGeneral sgto, SeqGeneral sgfrom =>
        let r := VecScatterMemcpyPlanCreate_SGToSG E 1 sgto sgfrom in
        Some (r.1, {| ctx := set_fromdata (SeqGeneral (sg_with_plan r.2.2 sgfrom))
                               (set_todata (SeqGeneral (sg_with_plan r.2.1 sgto)) (ctx s));
                      calls := calls s ++ [Call_VecScatterMemcpyPlanCreate_SGToSG] |})
    | _, _ => None
    end.

Definition unable_to_remap : Petsc :=
  SETERRQ PETSC_ERR_ARG_SIZ "Unable to remap such scatters" [].

(** Lines 321-360, the body of [if (tomap)]. *)
Definition remap_to (E : Env) (tomap : list PetscInt) : Petsc :=
  fun s =>
    match todata (ctx s) with
    | MPIToAll _ => SETERRQ PETSC_ERR_ARG_SIZ "Not for to all scatter" [] s
    | MPIGeneral to =>
        match array_get (mg_starts to) (mg_n to) with
        | None => None
        | Some bound =>
            match remap_loop tomap (Z.to_nat bound) 0 (mg_indices to) with
            | None => None
            | Some ind =>
                match remap_loop tomap (Z.to_nat (sg_n (mg_local to))) 0
                        (sg_vslots (mg_local to)) with
                | None => None
                | Some vs =>
                    (update (set_todata (MPIGeneral (mg_with_indices ind vs to))) >>>
                     ptop_plans Call_VecScatterMemcpyPlanDestroy_PtoP
                       (VecScatterMemcpyPlanDestroy_PtoP E) ;;;
                     ptop_plans Call_VecScatterMemcpyPlanCreate_PtoP
                       (VecScatterMemcpyPlanCreate_PtoP E) ;;;
                     PetscFunctionReturn 0) s
                end
            end
        end
    | to =>
        match fromdata (ctx s) with
        | SeqGeneral sgfrom =>
            match remap_loop tomap (Z.to_nat (sg_n sgfrom)) 0 (sg_vslots sgfrom) with
            | None => None
            | Some vs =>
                (update (set_fromdata (SeqGeneral (sg_with_vslots vs sgfrom))) >>>
                 match to with
                 | SeqStride ssto =>
                     if ss_step ssto =? 1 then
                       destroy_from_plan E ;;; create_index_plan E ;;; PetscFunctionReturn 0
                     else PetscFunctionReturn 0
                 | SeqGeneral _ =>
                     destroy_to_plan E ;;; destroy_from_plan E ;;; create_sgtosg_plan E ;;;
                     PetscFunctionReturn 0
                 | _ => PetscFunctionReturn 0
                 end) s
            end
        | SeqStride ssto =>
            if (ss_step ssto =? 1) && (ss_first ssto =? 0) then
              match identity_loop tomap (Z.to_nat (ss_n ssto)) 0 with
              | None => None
              | Some true => PetscFunctionReturn 0 s
              | Some false => unable_to_remap s
              end
            else unable_to_remap s
        | _ => unable_to_remap s
        end
    end.

(** [tomap] and [frommap] are pointers: [None] is [NULL]. *)
Definition if_tomap (E : Env) (tomap : option (list PetscInt)) : Petsc :=
  match tomap with
  | Some tm => remap_to E tm
  | None => PetscFunctionReturn 0
  end.

Definition from_unsupported : Call :=
  Call_PetscError PETSC_ERR_SUP "Unable to remap the FROM in scatters yet" [].

Definition VecScatterRemap (E : Env) (tomap frommap : option (list PetscInt)) : Petsc :=
  if_tomap E tomap >>>
  (match frommap with
   | Some _ => SETERRQ PETSC_ERR_SUP "Unable to remap the FROM in scatters yet" []
   | None => PetscFunctionReturn 0
   end) >>>
  update (set_sizes (-1) (-1)) >>>
  PetscFunctionReturn 0.

(** ** VecScatterGetTypes_Private, VecScatterIsSequential_Private *)

Definition VecScatterGetTypes_Private (scatter : VecScatter)
  : PetscErrorCode * (VecScatterFormat * VecScatterFormat) :=
  (0, (format (fromdata scatter), format (todata scatter))).

Definition VecScatterIsSequential_Private (scatter : ScatterData) : PetscErrorCode * bool :=
  (0, match format scatter with
      | VEC_SCATTER_SEQ_GENERAL | VEC_SCATTER_SEQ_STRIDE => true
      | _ => false
      end).

(** ** VecScatterInitializeForGPU (compiled under PETSC_HAVE_CUDA) *)

(** What [PetscMemcpy(t,a,n*sizeof(PetscInt))] leaves in [t]: the first [n]
    entries of [a]; undefined when [a] has fewer, or [n] is negative. *)
Definition copy_prefix (a : list PetscInt) (n : PetscInt) : option (list PetscInt) :=
  if (n <? 0) || (Z.of_nat (length a) <? n) then None else Some (take (Z.to_nat n) a).

Fixpoint insert_unique (v : PetscInt) (l : list PetscInt) : list PetscInt :=
  match l with
  | [] => [v]
  | h :: t =>
      if v <? h then v :: l
      else if v =? h then l
      else h :: insert_unique v t
  end.

(** Modelled from the spec: [PetscSortRemoveDupsInt] (sys/utils/sorti.c, not
    among the files) "deduplicate[s] each index set"; as its name says it
    sorts the array in increasing order and keeps one copy of each entry.
    The new length is the length of the result. *)
Definition PetscSortRemoveDupsInt (a : list PetscInt) : list PetscInt :=
  foldr insert_unique [] a.

(** [for (i=0;i<ns;i++) for (k=0;k<bs;k++) s[i*bs+k] = t[i]+k;] *)
Definition block_of (bs : PetscInt) (v : PetscInt) : list PetscInt :=
  map (fun k => v + Z.of_nat k) (seq 0 (Z.to_nat bs)).

Definition block_expand (bs : PetscInt) (t : list PetscInt) : list PetscInt :=
  flat_map (block_of bs) t.

(** [VecScatterCUDAIndicesCreate_PtoP(ns,sends,nr,recvs,&inctx->spptr)] *)
Definition create_mirror (E : Env) (ns : PetscInt) (sends : list PetscInt)
           (nr : PetscInt) (recvs : list PetscInt) : Petsc :=
  fun s =>
    let r := VecScatterCUDAIndicesCreate_PtoP E ns sends nr recvs in
    Some (r.1, {| ctx := set_spptr r.2 (ctx s);
                  calls := calls s ++ [Call_VecScatterCUDAIndicesCreate_PtoP ns sends nr recvs] |}).

(** A value read from memory, undefined when the read is out of range. *)
Definition defined {A} (o : option A) (k : A -> Petsc) : Petsc :=
  match o with
  | Some a => k a
  | None => undefined
  end.

(** Lines 468-497: the two index buffers and the call that stores the
    mirror.  [tS] and [tR] are what [tindicesSends] and [tindicesRecvs] hold
    after the sort, and their lengths the new [ns] and [nr]; [sS] and [sR]
    are what the two pairs of loops leave in [sindicesSends] and
    [sindicesRecvs]. *)
Definition create_indices (E : Env) (to from : VecScatter_MPI_General) : Petsc :=
  defined (array_get (mg_starts to) (mg_n to)) (fun ns =>
  defined (array_get (mg_starts from) (mg_n from)) (fun nr =>
  call (Call_PetscMalloc1 tindicesSends ns) (PetscMalloc1 E tindicesSends ns) ;;;
  call (Call_PetscMalloc1 tindicesRecvs nr) (PetscMalloc1 E tindicesRecvs nr) ;;;
  defined (copy_prefix (mg_indices to) ns) (fun tS0 =>
  call (Call_PetscMemcpy tindicesSends ns) (PetscMemcpy E tindicesSends ns) ;;;
  defined (copy_prefix (mg_indices from) nr) (fun tR0 =>
  call (Call_PetscMemcpy tindicesRecvs nr) (PetscMemcpy E tindicesRecvs nr) ;;;
  call (Call_PetscSortRemoveDupsInt tindicesSends)
       (PetscSortRemoveDupsInt_ierr E tindicesSends tS0) ;;;
  call (Call_PetscSortRemoveDupsInt tindicesRecvs)
       (PetscSortRemoveDupsInt_ierr E tindicesRecvs tR0) ;;;
  let tS := PetscSortRemoveDupsInt tS0 in
  let tR := PetscSortRemoveDupsInt tR0 in
  let ns' := Z.of_nat (length tS) in
  let nr' := Z.of_nat (length tR) in
  call (Call_PetscMalloc1 sindicesSends (mg_bs to * ns'))
       (PetscMalloc1 E sindicesSends (mg_bs to * ns')) ;;;
  call (Call_PetscMalloc1 sindicesRecvs (mg_bs from * nr'))
       (PetscMalloc1 E sindicesRecvs (mg_bs from * nr')) ;;;
  let sS := block_expand (mg_bs to) tS in
  call (Call_PetscFree tindicesSends) (PetscFree E tindicesSends) ;;;
  let sR := block_expand (mg_bs from) tR in
  call (Call_PetscFree tindicesRecvs) (PetscFree E tindicesRecvs) ;;;
  create_mirror E (ns' * mg_bs to) sS (nr' * mg_bs from) sR ;;;
  call (Call_PetscFree sindicesSends) (PetscFree E sindicesSends) ;;;
  call (Call_PetscFree sindicesRecvs) (PetscFree E sindicesRecvs) ;;;
  PetscFunctionReturn 0)))).

(** Past the sequential test both sides are read as [VecScatter_MPI_General]
    (lines 452-464); on another distributed format those reads are
    undefined. *)
Definition VecScatterInitializeForGPU (E : Env) (x : Vec) (mode : ScatterMode) : Petsc :=
  fun s =>
    let inctx := ctx s in
    let isSeq1 := (VecScatterIsSequential_Private (fromdata inctx)).2 in
    let isSeq2 := (VecScatterIsSequential_Private (todata inctx)).2 in
    if isSeq1 || isSeq2 then PetscFunctionReturn 0 s
    else
      let to_ := if is_reverse mode then fromdata inctx else todata inctx in
      let from_ := if is_reverse mode then todata inctx else fromdata inctx in
      match to_, from_ with
      | MPIGeneral to, MPIGeneral from =>
          let nrecvs := mg_n from in
          let nsends := mg_n to in
          if negb (offload_unallocated (valid_GPU_array x)) && ((0 <? nsends) || (0 <? nrecvs))
          then
            match spptr inctx with
            | None => create_indices E to from s
            | Some _ => PetscFunctionReturn 0 s
            end
          else PetscFunctionReturn 0 s
      | _, _ => None
      end.

Definition VecScatterFinalizeForGPU : Petsc := PetscFunctionReturn 0.

(** The send buffer handed to the device layer by the calls of a run. *)
Definition send_buffers (cs : list Call) : list (list PetscInt) :=
  flat_map (fun c => match c with
                     | Call_VecScatterCUDAIndicesCreate_PtoP _ sends _ _ => [sends]
                     | _ => []
                     end) cs.

(** ** A concrete backend, for running the definitions *)

Module Example.

(** A phase that succeeds and leaves the context as it is. *)
Definition phase_ok : ScatterPhase := fun c _ _ _ _ => (0, c).

Definition plans_none : PtoPPlans :=
  {| pp_to := []; pp_to_local := []; pp_from := []; pp_from_local := [] |}.

Definition one_run (n : PetscInt) : VecScatterMemcpyPlan :=
  [{| run_dst := 0; run_src := 0; run_len := n |}].

Definition env (debug cuda : bool) (end_op : option ScatterPhase) : Env :=
  {| PETSC_USE_DEBUG := debug;
     PETSC_HAVE_CUDA := cuda;
     ops := {| ops_begin := phase_ok; ops_end := end_op;
               ops_destroy := Some (fun c => (0, c)) |};
     PetscLogEventBegin := fun _ => 0;
     PetscLogEventEnd := fun _ => 0;
     PetscObjectSAWsViewOff := fun _ => 0;
     PetscHeaderDestroy := fun _ => 0;
     VecScatterCUDAIndicesDestroy := fun _ => (0, None);
     VecScatterCUDAIndicesCreate_PtoP := fun ns sends nr recvs =>
       (0, Some {| ci_ns := ns; ci_sendIndices := sends;
                   ci_nr := nr; ci_recvIndices := recvs |});
     VecScatterMemcpyPlanDestroy := fun _ => (0, []);
     VecScatterMemcpyPlanDestroy_PtoP := fun _ _ => (0, plans_none);
     VecScatterMemcpyPlanCreate_PtoP := fun to from =>
       (0, {| pp_to := one_run (Z.of_nat (length (mg_indices to)));
              pp_to_local := one_run (sg_n (mg_local to));
              pp_from := one_run (Z.of_nat (length (mg_indices from)));
              pp_from_local := one_run (sg_n (mg_local from)) |});
     VecScatterMemcpyPlanCreate_Index := fun _ _ vslots _ =>
       (0, one_run (Z.of_nat (length vslots)));
     VecScatterMemcpyPlanCreate_SGToSG := fun _ sgto sgfrom =>
       (0, (one_run (sg_n sgto), one_run (sg_n sgfrom)));
     PetscMalloc1 := fun _ _ => 0;
     PetscMemcpy := fun _ _ => 0;
     PetscSortRemoveDupsInt_ierr := fun _ _ => 0;
     PetscFree := fun _ => 0 |}.

Definition stride (n first step : PetscInt) : ScatterData :=
  SeqStride {| ss_n := n; ss_first := first; ss_step := step |}.

Definition general (vslots : list PetscInt) : ScatterData :=
  SeqGeneral {| sg_n := Z.of_nat (length vslots); sg_vslots := vslots;
                sg_memcpy_plan := [] |}.

Definition mpi (n : PetscInt) (starts indices vslots : list PetscInt) (bs : PetscInt)
  : VecScatter_MPI_General :=
  {| mg_n := n; mg_starts := starts; mg_indices := indices;
     mg_local := {| sg_n := Z.of_nat (length vslots); sg_vslots := vslots;
                    sg_memcpy_plan := [] |};
     mg_bs := bs; mg_memcpy_plan := [] |}.

Definition context (tn fn : PetscInt) (used merged : bool) (r : PetscInt)
           (to from : ScatterData) : VecScatter :=
  {| to_n := tn; from_n := fn; inuse := used; beginandendtogether := merged;
     refct := r; todata := to; fromdata := from; spptr := None |}.

Definition start (c : VecScatter) : State := {| ctx := c; calls := [] |}.

Definition vec (n : PetscInt) : Vec :=
  {| local_size := n; valid_GPU_array := PETSC_OFFLOAD_UNALLOCATED |}.

Definition gpu_vec (n : PetscInt) : Vec :=
  {| local_size := n; valid_GPU_array := PETSC_OFFLOAD_GPU |}.

(** A stride-to-general pair with matching sizes 3 and 3. *)
Definition seq_ctx (used merged : bool) : VecScatter :=
  context 3 3 used merged 1 (stride 3 0 1) (general [0; 1; 2]).

(** Two peers, starts = [0,2,5]: peer 0 owns slots 0-1, peer 1 slots 2-4. *)
Definition two_peers : VecScatter_MPI_General :=
  mpi 2 [0; 2; 5] [4; 2; 4; 7; 2] [9] 1.

Definition recv_side : VecScatter_MPI_General :=
  mpi 1 [0; 2] [1; 0] [3] 1.

Definition mpi_ctx : VecScatter :=
  context 10 10 false false 1 (MPIGeneral two_peers) (MPIGeneral recv_side).

Definition toall_ctx : VecScatter :=
  context 3 3 false false 1 (MPIToAll {| ta_count := 3 |}) (MPIToAll {| ta_count := 3 |}).

(** A general-to-stride pair: the strided side is [fromdata]. *)
Definition stride_from_ctx (first step : PetscInt) : VecScatter :=
  context 3 3 false false 1 (general [0; 1; 2]) (stride 3 first step).

(** A stride-to-general pair whose stride (on [todata]) is 5, 7, 9. *)
Definition stride_to_ctx : VecScatter :=
  context 10 3 false false 1 (stride 3 5 2) (general [0; 1; 2]).

Definition general_pair_ctx : VecScatter :=
  context 3 3 false false 1 (general [0; 1; 2]) (general [0; 1; 2]).

(** [mpi_ctx] after its to-side is remapped through [9,8,...,0]. *)
Definition remapped_mpi : State :=
  {| ctx := context 10 10 false false 1
              (MPIGeneral
                 {| mg_n := 2; mg_starts := [0; 2; 5]; mg_indices := [5; 7; 5; 2; 7];
                    mg_local := {| sg_n := 1; sg_vslots := [0];
                                   sg_memcpy_plan := one_run 1 |};
                    mg_bs := 1; mg_memcpy_plan := one_run 5 |})
              (MPIGeneral
                 {| mg_n := 1; mg_starts := [0; 2]; mg_indices := [1; 0];
                    mg_local := {| sg_n := 1; sg_vslots := [3];
                                   sg_memcpy_plan := one_run 1 |};
                    mg_bs := 1; mg_memcpy_plan := one_run 2 |});
     calls := [Call_VecScatterMemcpyPlanDestroy_PtoP;
               Call_VecScatterMemcpyPlanCreate_PtoP] |}.

(** [seq_ctx false false] after a remap of its slots through [2,0,1]. *)
Definition remapped_seq : State :=
  {| ctx := context (-1) (-1) false false 1 (stride 3 0 1)
              (SeqGeneral {| sg_n := 3; sg_vslots := [2; 0; 1];
                             sg_memcpy_plan := one_run 3 |});
     calls := [Call_VecScatterMemcpyPlanDestroy; Call_VecScatterMemcpyPlanCreate_Index] |}.

(** [seq_ctx false true] after a Begin that folded the end-phase in. *)
Definition merged_begin_done : State :=
  {| ctx := seq_ctx false true;
     calls := [Call_PetscLogEventBegin VEC_ScatterBegin; Call_ops_begin;
               Call_ops_end; Call_PetscLogEventEnd VEC_ScatterBegin] |}.

End Example.

(** ** Assumptions on the backend *)

(** A backend phase works on the backend data and the vectors: it leaves the
    in-use and merge flags of the context alone. *)
Definition keeps_flags (p : ScatterPhase) : Prop :=
  forall c x y addv mode,
    inuse (p c x y addv mode).2 = inuse c /\
    beginandendtogether (p c x y addv mode).2 = beginandendtogether c.

Definition backend_keeps_flags (E : Env) : Prop :=
  keeps_flags (ops_begin (ops E)) /\
  forall end_op, ops_end (ops E) = Some end_op -> keeps_flags end_op.

(** The logging macros and the backend phases report no error. *)
Definition phases_succeed (E : Env) : Prop :=
  (forall ev, PetscLogEventBegin E ev = 0) /\
  (forall ev, PetscLogEventEnd E ev = 0) /\
  (forall c x y addv mode, (ops_begin (ops E) c x y addv mode).1 = 0) /\
  (forall end_op, ops_end (ops E) = Some end_op ->
                  forall c x y addv mode, (end_op c x y addv mode).1 = 0).


(** The effect of the remapping loop on an array: the first [cnt] entries
    are sent through [tomap], the others stay. *)
Definition remapped_prefix (tomap : list PetscInt) (cnt : nat) (a a' : list PetscInt) : Prop :=
  length a' = length a /\
  (cnt <= length a)%nat /\
  (forall j, (cnt <= j)%nat -> a' !! j = a !! j) /\
  (forall j v, (j < cnt)%nat -> a !! j = Some v -> a' !! j = array_get tomap v).

(** The only remap a strided index set accepts: identity stride and a
    [tomap] that fixes every position below the count. *)
Definition identity_remap (ss : VecScatter_Seq_Stride) (tomap : list PetscInt) : Prop :=
  ss_step ss = 1 /\ ss_first ss = 0 /\
  forall i, 0 <= i < ss_n ss -> array_get tomap i = Some i.

(** The part of the context that is not backend data. *)
Definition header (c : VecScatter) :=
  (to_n c, from_n c, inuse c, beginandendtogether c, refct c, spptr c).

Definition keeps_header (m : Petsc) : Prop :=
  forall s e s', m s = Some (e, s') -> header (ctx s') = header (ctx s).

(** Backend data without its memcpy plans, which are derived state. *)
Definition erase_plans (d : ScatterData) : ScatterData :=
  match d with
  | SeqGeneral g => SeqGeneral (sg_with_plan [] g)
  | MPIGeneral g => MPIGeneral (mg_with_plans [] [] g)
  | d => d
  end.

Definition keeps_data (m : Petsc) : Prop :=
  forall s e s', m s = Some (e, s') ->
    erase_plans (todata (ctx s')) = erase_plans (todata (ctx s)) /\
    erase_plans (fromdata (ctx s')) = erase_plans (fromdata (ctx s)).

(** A step that, when it completes, has made exactly the calls [cs]. *)
Definition logs (cs : list Call) (m : Petsc) : Prop :=
  forall s s', m s = Some (0, s') -> calls s' = calls s ++ cs.

(** The plan calls of the sequential branch (lines 340-349), by the format
    of [todata]. *)
Definition seq_plan_calls (to : ScatterData) : list Call :=
  match to with
  | SeqStride ssto =>
      if ss_step ssto =? 1 then
        [Call_VecScatterMemcpyPlanDestroy; Call_VecScatterMemcpyPlanCreate_Index]
      else []
  | SeqGeneral _ =>
      [Call_VecScatterMemcpyPlanDestroy; Call_VecScatterMemcpyPlanDestroy;
       Call_VecScatterMemcpyPlanCreate_SGToSG]
  | _ => []
  end.

(** Some entry among the first [cnt] of [a] is changed by [tomap]. *)
Definition moves (tomap : list PetscInt) (cnt : nat) (a : list PetscInt) : Prop :=
  exists j v, (j < cnt)%nat /\ a !! j = Some v /\ array_get tomap v <> Some v.

(** The helpers called when the last reference goes report no error. *)
Definition release_succeeds (E : Env) : Prop :=
  (forall c, PetscObjectSAWsViewOff E c = 0) /\
  (forall d, ops_destroy (ops E) = Some d -> forall c, (d c).1 = 0) /\
  (forall p, (VecScatterCUDAIndicesDestroy E p).1 = 0) /\
  (forall c, PetscHeaderDestroy E c = 0).

(** The memory and sorting utilities of the device preparation report no
    error. *)
Definition buffers_succeed (E : Env) : Prop :=
  (forall b n, PetscMalloc1 E b n = 0) /\
  (forall b n, PetscMemcpy E b n = 0) /\
  (forall b a, PetscSortRemoveDupsInt_ierr E b a = 0) /\
  (forall b, PetscFree E b = 0).

(** The calls of lines 470-492, which come before the call of the device
    layer: [ns] and [nr] are the counts read from the starts arrays, [ms] and
    [mr] the sizes asked for the two expanded buffers. *)
Definition buffer_calls (ns nr ms mr : PetscInt) : list Call :=
  [Call_PetscMalloc1 tindicesSends ns; Call_PetscMalloc1 tindicesRecvs nr;
   Call_PetscMemcpy tindicesSends ns; Call_PetscMemcpy tindicesRecvs nr;
   Call_PetscSortRemoveDupsInt tindicesSends; Call_PetscSortRemoveDupsInt tindicesRecvs;
   Call_PetscMalloc1 sindicesSends ms; Call_PetscMalloc1 sindicesRecvs mr;
   Call_PetscFree tindicesSends; Call_PetscFree tindicesRecvs].

(** The calls of lines 496-497 when the device layer returned [e]; on a
    nonzero code [CHKERRQ] returns through the error handler instead. *)
Definition after_mirror (e : PetscErrorCode) : list Call :=
  if e =? 0 then [Call_PetscFree sindicesSends; Call_PetscFree sindicesRecvs]
  else [Call_PetscErrorRepeat e].

Definition is_mirror_call (c : Call) : bool :=
  match c with Call_VecScatterCUDAIndicesCreate_PtoP _ _ _ _ => true | _ => false end.

(** From [s] to [s'] nothing of the context but the mirror can have changed,
    calls were only added, and the mirror is the same unless the device layer
    was called. *)
Definition only_mirror (s s' : State) : Prop :=
  todata (ctx s') = todata (ctx s) /\
  fromdata (ctx s') = fromdata (ctx s) /\
  to_n (ctx s') = to_n (ctx s) /\
  from_n (ctx s') = from_n (ctx s) /\
  inuse (ctx s') = inuse (ctx s) /\
  beginandendtogether (ctx s') = beginandendtogether (ctx s) /\
  refct (ctx s') = refct (ctx s) /\
  exists l,
    calls s' = calls s ++ l /\
    (existsb is_mirror_call l = false -> spptr (ctx s') = spptr (ctx s)).

Definition touches_only_mirror (m : Petsc) : Prop :=
  forall s e s', m s = Some (e, s') -> only_mirror s s'.

(** The calls of lines 185-190, in order. *)
Definition release_calls (E : Env) : list Call :=
  [Call_PetscObjectSAWsViewOff] ++
  (match ops_destroy (ops E) with Some _ => [Call_ops_destroy] | None => [] end) ++
  (if PETSC_HAVE_CUDA E then [Call_VecScatterCUDAIndicesDestroy] else []) ++
  [Call_PetscHeaderDestroy].

(** ** The caller's sequence *)

(** The way the scatter is used: [ierr = VecScatterBegin(...);CHKERRQ(ierr);
    ierr = VecScatterEnd(...);CHKERRQ(ierr);] with the same arguments. *)
Definition scatter (E : Env) (x y : Vec) (addv : InsertMode) (mode : ScatterMode) : Petsc :=
  VecScatterBegin E x y addv mode ;;; VecScatterEnd E x y addv mode ;;;
  PetscFunctionReturn 0.

Definition is_ops_end (c : Call) : bool :=
  match c with Call_ops_end => true | _ => false end.

(** How many times the backend's end-phase was entered. *)
Definition end_phase_runs (cs : list Call) : nat := length (List.filter is_ops_end cs).

(** The owners of a context release it one after the other, each through its
    own handle to the same object. *)
Fixpoint destroy_owners (E : Env) (k : nat) (o : option VecScatter) : list Destroyed :=
  match k with
  | O => []
  | S k' => let r := VecScatterDestroy E o in r :: destroy_owners E k' (d_object r)
  end.

(** The outcome of a release by an owner that is not the last one. *)
Definition released_share (c : VecScatter) (i : nat) : Destroyed :=
  {| d_code := 0; d_handle_null := true;
     d_object := Some (set_refct (refct c - Z.of_nat i) c); d_calls := [] |}.

(** The plan helpers of the remapping step report no error. *)
Definition plans_succeed (E : Env) : Prop :=
  (forall p, (VecScatterMemcpyPlanDestroy E p).1 = 0) /\
  (forall t f, (VecScatterMemcpyPlanDestroy_PtoP E t f).1 = 0) /\
  (forall t f, (VecScatterMemcpyPlanCreate_PtoP E t f).1 = 0) /\
  (forall n st ix bs, (VecScatterMemcpyPlanCreate_Index E n st ix bs).1 = 0) /\
  (forall bs t f, (VecScatterMemcpyPlanCreate_SGToSG E bs t f).1 = 0).

(** [tomap] leaves the first [cnt] entries of [a] where they are. *)
Definition fixes (tomap : list PetscInt) (cnt : nat) (a : list PetscInt) : Prop :=
  (cnt <= length a)%nat /\
  forall j v, (j < cnt)%nat -> a !! j = Some v -> array_get tomap v = Some v.

(** The map that does in one remap what [tm1] then [tm2] do in two. *)
Definition compose_maps (tm1 tm2 : list PetscInt) : list PetscInt :=
  map (fun w => default w (array_get tm2 w)) tm1.

Module Scenario.

(** A backend whose begin-phase fails with code 77. *)
Definition begin_fails : ScatterPhase := fun c _ _ _ _ => (77, c).

Definition failing_env : Env :=
  {| PETSC_USE_DEBUG := true;
     PETSC_HAVE_CUDA := false;
     ops := {| ops_begin := begin_fails; ops_end := Some Example.phase_ok;
               ops_destroy := None |};
     PetscLogEventBegin := fun _ => 0;
     PetscLogEventEnd := fun _ => 0;
     PetscObjectSAWsViewOff := fun _ => 0;
     PetscHeaderDestroy := fun _ => 0;
     VecScatterCUDAIndicesDestroy := fun _ => (0, None);
     VecScatterCUDAIndicesCreate_PtoP := fun _ _ _ _ => (0, None);
     VecScatterMemcpyPlanDestroy := fun _ => (0, []);
     VecScatterMemcpyPlanDestroy_PtoP := fun _ _ => (0, Example.plans_none);
     VecScatterMemcpyPlanCreate_PtoP := fun _ _ => (0, Example.plans_none);
     VecScatterMemcpyPlanCreate_Index := fun _ _ _ _ => (0, []);
     VecScatterMemcpyPlanCreate_SGToSG := fun _ _ _ => (0, ([], []));
     PetscMalloc1 := fun _ _ => 0;
     PetscMemcpy := fun _ _ => 0;
     PetscSortRemoveDupsInt_ierr := fun _ _ => 0;
     PetscFree := fun _ => 0 |}.

(** A context shared by three owners. *)
Definition shared_ctx (used : bool) : VecScatter :=
  Example.context 3 3 used false 3 (Example.stride 3 0 1) (Example.general [0; 1; 2]).

(** [Example.mpi_ctx] after one remap through [9,8,...,0], and after two. *)
Definition once_remapped : State :=
  {| ctx := set_sizes (-1) (-1) (ctx Example.remapped_mpi);
     calls := calls Example.remapped_mpi |}.

Definition twice_remapped : State :=
  {| ctx := Example.context (-1) (-1) false false 1
              (MPIGeneral
                 {| mg_n := 2; mg_starts := [0; 2; 5]; mg_indices := [4; 2; 4; 7; 2];
                    mg_local := {| sg_n := 1; sg_vslots := [9];
                                   sg_memcpy_plan := Example.one_run 1 |};
                    mg_bs := 1; mg_memcpy_plan := Example.one_run 5 |})
              (fromdata (ctx Example.remapped_mpi));
     calls := [Call_VecScatterMemcpyPlanDestroy_PtoP; Call_VecScatterMemcpyPlanCreate_PtoP;
               Call_VecScatterMemcpyPlanDestroy_PtoP; Call_VecScatterMemcpyPlanCreate_PtoP] |}.

(** The mirror of [Example.mpi_ctx], and that context with its mirror before
    and after a remap through [9,8,...,0]. *)
Definition mirror : PetscCUDAIndices :=
  {| ci_ns := 3; ci_sendIndices := [2; 4; 7]; ci_nr := 2; ci_recvIndices := [0; 1] |}.

Definition prepared : State :=
  {| ctx := set_spptr (Some mirror) Example.mpi_ctx;
     calls := buffer_calls 5 2 3 2 ++
              [Call_VecScatterCUDAIndicesCreate_PtoP 3 [2; 4; 7] 2 [0; 1]] ++
              after_mirror 0 |}.

(** A build in which the second allocation of the device preparation fails
    with code 55, and one in which the device layer fails with code 66 after
    it has stored a mirror. *)
Definition no_memory_env : Env :=
  {| PETSC_USE_DEBUG := true;
     PETSC_HAVE_CUDA := true;
     ops := ops (Example.env true true None);
     PetscLogEventBegin := fun _ => 0;
     PetscLogEventEnd := fun _ => 0;
     PetscObjectSAWsViewOff := fun _ => 0;
     PetscHeaderDestroy := fun _ => 0;
     VecScatterCUDAIndicesDestroy := fun _ => (0, None);
     VecScatterCUDAIndicesCreate_PtoP :=
       VecScatterCUDAIndicesCreate_PtoP (Example.env true true None);
     VecScatterMemcpyPlanDestroy := fun _ => (0, []);
     VecScatterMemcpyPlanDestroy_PtoP := fun _ _ => (0, Example.plans_none);
     VecScatterMemcpyPlanCreate_PtoP := fun _ _ => (0, Example.plans_none);
     VecScatterMemcpyPlanCreate_Index := fun _ _ _ _ => (0, []);
     VecScatterMemcpyPlanCreate_SGToSG := fun _ _ _ => (0, ([], []));
     PetscMalloc1 := fun b _ => match b with tindicesRecvs => 55 | _ => 0 end;
     PetscMemcpy := fun _ _ => 0;
     PetscSortRemoveDupsInt_ierr := fun _ _ => 0;
     PetscFree := fun _ => 0 |}.

Definition device_fails_env : Env :=
  {| PETSC_USE_DEBUG := true;
     PETSC_HAVE_CUDA := true;
     ops := ops (Example.env true true None);
     PetscLogEventBegin := fun _ => 0;
     PetscLogEventEnd := fun _ => 0;
     PetscObjectSAWsViewOff := fun _ => 0;
     PetscHeaderDestroy := fun _ => 0;
     VecScatterCUDAIndicesDestroy := fun _ => (0, None);
     VecScatterCUDAIndicesCreate_PtoP := fun ns sends nr recvs =>
       (66, Some {| ci_ns := ns; ci_sendIndices := sends;
                    ci_nr := nr; ci_recvIndices := recvs |});
     VecScatterMemcpyPlanDestroy := fun _ => (0, []);
     VecScatterMemcpyPlanDestroy_PtoP := fun _ _ => (0, Example.plans_none);
     VecScatterMemcpyPlanCreate_PtoP := fun _ _ => (0, Example.plans_none);
     VecScatterMemcpyPlanCreate_Index := fun _ _ _ _ => (0, []);
     VecScatterMemcpyPlanCreate_SGToSG := fun _ _ _ => (0, ([], []));
     PetscMalloc1 := fun _ _ => 0;
     PetscMemcpy := fun _ _ => 0;
     PetscSortRemoveDupsInt_ierr := fun _ _ => 0;
     PetscFree := fun _ => 0 |}.

Definition prepared_then_remapped : State :=
  {| ctx := set_sizes (-1) (-1) (set_spptr (Some mirror) (ctx Example.remapped_mpi));
     calls := calls prepared ++ calls Example.remapped_mpi |}.

End Scenario.

(** ** VecScatterCopy *)

(** The copy rule of the backend ([sctx->ops->copy], [NULL] is [None]) and the
    object helpers [VecScatterCopy] calls; [PetscHeaderCreate] hands back the
    new, empty context. *)
Record CopyEnv := {
  ops_copy : option (VecScatter -> VecScatter -> PetscErrorCode * VecScatter);
  PetscHeaderCreate : PetscErrorCode * VecScatter;
  VecScatterGetType : VecScatter -> PetscErrorCode * string;
  PetscObjectChangeTypeName : VecScatter -> string -> PetscErrorCode
}.

Inductive CopyCall :=
| CopyCall_PetscError (code : PetscErrorCode) (mess : string)
| CopyCall_PetscHeaderCreate
| CopyCall_ops_copy
| CopyCall_VecScatterGetType
| CopyCall_PetscObjectChangeTypeName (type : string).

(** After [VecScatterCopy(sctx,&ctx)]: the return code, the context [*ctx]
    points to ([None] when [*ctx] was not assigned) and the calls made. *)
Record Copied := {
  c_code : PetscErrorCode;
  c_ctx : option VecScatter;
  c_calls : list CopyCall
}.

Definition VecScatterCopy (K : CopyEnv) (sctx : VecScatter) : Copied :=
  match ops_copy K with
  | None =>
      {| c_code := PETSC_ERR_SUP; c_ctx := None;
         c_calls := [CopyCall_PetscError PETSC_ERR_SUP "Cannot copy this type"] |}
  | Some copy =>
      let created := PetscHeaderCreate K in
      if negb (created.1 =? 0) then
        {| c_code := created.1; c_ctx := None; c_calls := [CopyCall_PetscHeaderCreate] |}
      else
        let c1 := set_sizes (to_n sctx) (from_n sctx) created.2 in
        let copied := copy sctx c1 in
        if negb (copied.1 =? 0) then
          {| c_code := copied.1; c_ctx := Some copied.2;
             c_calls := [CopyCall_PetscHeaderCreate; CopyCall_ops_copy] |}
        else
          let type := VecScatterGetType K sctx in
          if negb (type.1 =? 0) then
            {| c_code := type.1; c_ctx := Some copied.2;
               c_calls := [CopyCall_PetscHeaderCreate; CopyCall_ops_copy;
                           CopyCall_VecScatterGetType] |}
          else
            {| c_code := PetscObjectChangeTypeName K copied.2 type.2;
               c_ctx := Some copied.2;
               c_calls := [CopyCall_PetscHeaderCreate; CopyCall_ops_copy;
                           CopyCall_VecScatterGetType;
                           CopyCall_PetscObjectChangeTypeName type.2] |}
  end.

(** The backend's copy rule fills in the backend data of the new context and
    leaves the declared sizes it finds there. *)
Definition copy_keeps_sizes (K : CopyEnv) : Prop :=
  forall copy, ops_copy K = Some copy ->
    forall a b, to_n (copy a b).2 = to_n b /\ from_n (copy a b).2 = from_n b.

(** A backend with a copy rule that duplicates the backend data. *)
Definition example_copy_env : CopyEnv :=
  {| ops_copy := Some (fun a b => (0, set_fromdata (fromdata a) (set_todata (todata a) b)));
     PetscHeaderCreate :=
       (0, Example.context 0 0 false false 1 (MPIToAll {| ta_count := 0 |})
             (MPIToAll {| ta_count := 0 |}));
     VecScatterGetType := fun _ => (0, "seq");
     PetscObjectChangeTypeName := fun _ _ => 0 |}.

(** ** The error-handler test (src/sys/examples/tests/ex1.c) *)

(** A call of the error handler, by [SETERRQ(n,p,s)] or by [CHKERRQ(n)], which
    is [if (n) SETERRQ(n,0,0)]. *)
Inductive HandlerCall := Handler (code : Z) (mess : option string).

(** [CreateError(n)]; [handler] is what [PetscError] returns for a code (the
    macros and the handler are not in the file).  The recursion is bounded by
    [fuel]: [None] when it is used up. *)
Fixpoint CreateError (handler : Z -> Z) (fuel : nat) (n : Z)
  : option (Z * list HandlerCall) :=
  match fuel with
  | O => None
  | S fuel' =>
      if n =? 0 then Some (handler 1, [Handler 1 (Some "Error Created")])
      else
        match CreateError handler fuel' (n - 1) with
        | None => None
        | Some (ierr, cs) =>
            if ierr =? 0 then Some (0, cs)
            else Some (handler ierr, cs ++ [Handler ierr None])
        end
  end.

(** ** The Jacobi preconditioner (src/sles/pc/impls/jacobi/jacobi.c) *)

Module Jacobi.

(** The entries of a vector are floating-point numbers; they are kept
    abstract, with the three things the file does to them: the test
    [x == 0.0], the constant [1.0] and [1.0/sqrt(PetscAbsScalar(x))]. *)
Record ScalarOps := {
  Scalar : Type;
  is_zero : Scalar -> bool;
  one : Scalar;
  inv_sqrt_abs : Scalar -> Scalar
}.

(** A vector is the array [VecGetArray] gives access to; its local size is
    the length of the array. *)
Definition Vector (K : ScalarOps) := list (Scalar K).

(** [PC_Jacobi]: two vector handles, [0] is [None]. *)
Record PC_Jacobi (K : ScalarOps) := {
  diag : option (Vector K);
  diagsqrt : option (Vector K)
}.
Arguments diag {K}.
Arguments diagsqrt {K}.

(** The matrix and vector routines the file calls.  [MatGetDiagonal v] is
    [MatGetDiagonal(pc->pmat,v)] and [VecDuplicate] is
    [VecDuplicate(pc->vec,&v)] for the matrix and the vector of the context,
    which the file never writes; each returns its error code and the content
    of the vector it fills.  [VecPointwiseMult x d] is given the handle [d]
    as it is. *)
Record Env (K : ScalarOps) := {
  MatGetDiagonal : Vector K -> Z * Vector K;
  VecReciprocal : Vector K -> Z * Vector K;
  VecGetLocalSize : Vector K -> Z;
  VecGetArray : Vector K -> Z;
  VecRestoreArray : Vector K -> Z;
  VecDuplicate : Z * Vector K;
  VecPointwiseMult : Vector K -> option (Vector K) -> Z * Vector K;
  VecDestroy : Vector K -> Z
}.
Arguments MatGetDiagonal {K}.
Arguments VecReciprocal {K}.
Arguments VecGetLocalSize {K}.
Arguments VecGetArray {K}.
Arguments VecRestoreArray {K}.
Arguments VecDuplicate {K}.
Arguments VecPointwiseMult {K}.
Arguments VecDestroy {K}.

Inductive Call :=
| Call_MatGetDiagonal
| Call_VecReciprocal
| Call_VecGetLocalSize
| Call_VecGetArray
| Call_VecRestoreArray
| Call_VecDuplicate
| Call_VecPointwiseMult
| Call_VecDestroy
| Call_PLogObjectParent
| Call_PLogInfo
| Call_PetscFree.

(** The private data of the preconditioner and the calls made so far. *)
Record State (K : ScalarOps) := {
  jac : PC_Jacobi K;
  calls : list Call
}.
Arguments jac {K}.
Arguments calls {K}.

(** [for (i=0;i<n;i++) if (x[i] == 0.0) {x[i] = 1.0; zeroflag = 1;}] *)
Fixpoint diag_loop (K : ScalarOps) (x : Vector K) (zeroflag : bool) : Vector K * bool :=
  match x with
  | [] => ([], zeroflag)
  | e :: t =>
      if is_zero K e then
        let r := diag_loop K t true in (one K :: r.1, r.2)
      else
        let r := diag_loop K t zeroflag in (e :: r.1, r.2)
  end.

(** [for (i=0;i<n;i++) if (x[i] != 0.0) x[i] = 1.0/sqrt(PetscAbsScalar(x[i]));
    else {x[i] = 1.0; zeroflag = 1;}] *)
Fixpoint diagsqrt_loop (K : ScalarOps) (x : Vector K) (zeroflag : bool) : Vector K * bool :=
  match x with
  | [] => ([], zeroflag)
  | e :: t =>
      if negb (is_zero K e) then
        let r := diagsqrt_loop K t zeroflag in (inv_sqrt_abs K e :: r.1, r.2)
      else
        let r := diagsqrt_loop K t true in (one K :: r.1, r.2)
  end.

(** What a block of [PCSetUp_Jacobi] leaves: its error code, the content of
    the vector, the calls made and the zero flag. *)
Record Block (K : ScalarOps) := {
  b_code : Z;
  b_vec : Vector K;
  b_calls : list Call;
  b_zero : bool
}.
Arguments b_code {K}.
Arguments b_vec {K}.
Arguments b_calls {K}.
Arguments b_zero {K}.

(** The body of [if (diag) {...}]. *)
Definition diag_block {K} (E : Env K) (d : Vector K) (zeroflag : bool) : Block K :=
  let r1 := MatGetDiagonal E d in
  if negb (r1.1 =? 0) then
    {| b_code := r1.1; b_vec := r1.2; b_calls := [Call_MatGetDiagonal]; b_zero := zeroflag |}
  else
    let r2 := VecReciprocal E r1.2 in
    if negb (r2.1 =? 0) then
      {| b_code := r2.1; b_vec := r2.2; b_calls := [Call_MatGetDiagonal; Call_VecReciprocal];
         b_zero := zeroflag |}
    else if negb (VecGetLocalSize E r2.2 =? 0) then
      {| b_code := VecGetLocalSize E r2.2; b_vec := r2.2;
         b_calls := [Call_MatGetDiagonal; Call_VecReciprocal; Call_VecGetLocalSize];
         b_zero := zeroflag |}
    else if negb (VecGetArray E r2.2 =? 0) then
      {| b_code := VecGetArray E r2.2; b_vec := r2.2;
         b_calls := [Call_MatGetDiagonal; Call_VecReciprocal; Call_VecGetLocalSize;
                     Call_VecGetArray];
         b_zero := zeroflag |}
    else
      let r := diag_loop K r2.2 zeroflag in
      {| b_code := VecRestoreArray E r.1; b_vec := r.1;
         b_calls := [Call_MatGetDiagonal; Call_VecReciprocal; Call_VecGetLocalSize;
                     Call_VecGetArray; Call_VecRestoreArray];
         b_zero := r.2 |}.

(** The body of [if (diagsqrt) {...}]. *)
Definition diagsqrt_block {K} (E : Env K) (d : Vector K) (zeroflag : bool) : Block K :=
  let r1 := MatGetDiagonal E d in
  if negb (r1.1 =? 0) then
    {| b_code := r1.1; b_vec := r1.2; b_calls := [Call_MatGetDiagonal]; b_zero := zeroflag |}
  else if negb (VecGetLocalSize E r1.2 =? 0) then
    {| b_code := VecGetLocalSize E r1.2; b_vec := r1.2;
       b_calls := [Call_MatGetDiagonal; Call_VecGetLocalSize]; b_zero := zeroflag |}
  else if negb (VecGetArray E r1.2 =? 0) then
    {| b_code := VecGetArray E r1.2; b_vec := r1.2;
       b_calls := [Call_MatGetDiagonal; Call_VecGetLocalSize; Call_VecGetArray];
       b_zero := zeroflag |}
  else
    let r := diagsqrt_loop K r1.2 zeroflag in
    {| b_code := VecRestoreArray E r.1; b_vec := r.1;
       b_calls := [Call_MatGetDiagonal; Call_VecGetLocalSize; Call_VecGetArray;
                   Call_VecRestoreArray];
       b_zero := r.2 |}.

Definition PCSetUp_Jacobi {K} (E : Env K) (s : State K) : Z * State K :=
  let b1 :=
    match diag (jac s) with
    | Some d => diag_block E d false
    | None => {| b_code := 0; b_vec := []; b_calls := []; b_zero := false |}
    end in
  let diag1 := match diag (jac s) with Some _ => Some (b_vec b1) | None => None end in
  if negb (b_code b1 =? 0) then
    (b_code b1, {| jac := {| diag := diag1; diagsqrt := diagsqrt (jac s) |};
                   calls := calls s ++ b_calls b1 |})
  else
    let b2 :=
      match diagsqrt (jac s) with
      | Some d => diagsqrt_block E d (b_zero b1)
      | None => {| b_code := 0; b_vec := []; b_calls := []; b_zero := b_zero b1 |}
      end in
    let diagsqrt2 :=
      match diagsqrt (jac s) with Some _ => Some (b_vec b2) | None => None end in
    if negb (b_code b2 =? 0) then
      (b_code b2, {| jac := {| diag := diag1; diagsqrt := diagsqrt2 |};
                     calls := calls s ++ b_calls b1 ++ b_calls b2 |})
    else
      (0, {| jac := {| diag := diag1; diagsqrt := diagsqrt2 |};
             calls := calls s ++ b_calls b1 ++ b_calls b2 ++
                      (if b_zero b2 then [Call_PLogInfo] else []) |}).

Definition PCSetUp_Jacobi_Symmetric {K} (E : Env K) (s : State K) : Z * State K :=
  let r := VecDuplicate E in
  if negb (r.1 =? 0) then
    (r.1, {| jac := jac s; calls := calls s ++ [Call_VecDuplicate] |})
  else
    PCSetUp_Jacobi E
      {| jac := {| diag := diag (jac s); diagsqrt := Some r.2 |};
         calls := calls s ++ [Call_VecDuplicate; Call_PLogObjectParent] |}.

Definition PCSetUp_Jacobi_NonSymmetric {K} (E : Env K) (s : State K) : Z * State K :=
  let r := VecDuplicate E in
  if negb (r.1 =? 0) then
    (r.1, {| jac := jac s; calls := calls s ++ [Call_VecDuplicate] |})
  else
    PCSetUp_Jacobi E
      {| jac := {| diag := Some r.2; diagsqrt := diagsqrt (jac s) |};
         calls := calls s ++ [Call_VecDuplicate; Call_PLogObjectParent] |}.

(** [PCApply_Jacobi(pc,x,y)]: the code, the state and what was written to
    [y] ([None] when [y] was not touched). *)
Definition PCApply_Jacobi {K} (E : Env K) (x : Vector K) (s : State K)
  : Z * State K * option (Vector K) :=
  let r :=
    match diag (jac s) with
    | None => PCSetUp_Jacobi_NonSymmetric E s
    | Some _ => (0, s)
    end in
  if negb (r.1 =? 0) then (r.1, r.2, None)
  else
    let m := VecPointwiseMult E x (diag (jac r.2)) in
    (m.1, {| jac := jac r.2; calls := calls r.2 ++ [Call_VecPointwiseMult] |}, Some m.2).

(** [PCApplySymmetricLeftOrRight_Jacobi(pc,x,y)]; the code of
    [VecPointwiseMult] is not looked at. *)
Definition PCApplySymmetricLeftOrRight_Jacobi {K} (E : Env K) (x : Vector K) (s : State K)
  : Z * State K * option (Vector K) :=
  let r :=
    match diagsqrt (jac s) with
    | None => PCSetUp_Jacobi_Symmetric E s
    | Some _ => (0, s)
    end in
  if negb (r.1 =? 0) then (r.1, r.2, None)
  else
    let m := VecPointwiseMult E x (diagsqrt (jac r.2)) in
    (0, {| jac := jac r.2; calls := calls r.2 ++ [Call_VecPointwiseMult] |}, Some m.2).

(** [PCDestroy_Jacobi]: the code and the calls it makes. *)
Definition PCDestroy_Jacobi {K} (E : Env K) (s : State K) : Z * list Call :=
  let e1 := match diag (jac s) with Some d => VecDestroy E d | None => 0 end in
  let c1 := match diag (jac s) with Some _ => [Call_VecDestroy] | None => [] end in
  if negb (e1 =? 0) then (e1, calls s ++ c1)
  else
    let e2 := match diagsqrt (jac s) with Some d => VecDestroy E d | None => 0 end in
    let c2 := match diagsqrt (jac s) with Some _ => [Call_VecDestroy] | None => [] end in
    if negb (e2 =? 0) then (e2, calls s ++ c1 ++ c2)
    else (0, calls s ++ c1 ++ c2 ++ [Call_PetscFree]).

(** The private data [PCCreate_Jacobi] attaches to a new context. *)
Definition created (K : ScalarOps) : State K :=
  {| jac := {| diag := None; diagsqrt := None |}; calls := [] |}.

(** The value the diagonal loop stores for an entry. *)
Definition unzero (K : ScalarOps) (e : Scalar K) : Scalar K :=
  if is_zero K e then one K else e.

(** Every routine the set-up calls reports no error. *)
Definition setup_succeeds {K} (E : Env K) : Prop :=
  (forall v, (MatGetDiagonal E v).1 = 0) /\
  (forall v, (VecReciprocal E v).1 = 0) /\
  (forall v, VecGetLocalSize E v = 0) /\
  (forall v, VecGetArray E v = 0) /\
  (forall v, VecRestoreArray E v = 0) /\
  (VecDuplicate E).1 = 0.

(** The value the square-root loop stores for an entry. *)
Definition unzero_sqrt (K : ScalarOps) (e : Scalar K) : Scalar K :=
  if is_zero K e then one K else inv_sqrt_abs K e.

(** The two vectors after a set-up in which every call succeeded. *)
Definition refreshed {K} (E : Env K) (j : PC_Jacobi K) : PC_Jacobi K :=
  {| diag :=
       option_map (fun d => map (unzero K) (VecReciprocal E (MatGetDiagonal E d).2).2)
                  (diag j);
     diagsqrt :=
       option_map (fun d => map (unzero_sqrt K) (MatGetDiagonal E d).2) (diagsqrt j) |}.

(** Some entry the set-up looked at compared equal to zero. *)
Definition zero_found {K} (E : Env K) (j : PC_Jacobi K) : bool :=
  match diag j with
  | Some d => existsb (is_zero K) (VecReciprocal E (MatGetDiagonal E d).2).2
  | None => false
  end ||
  match diagsqrt j with
  | Some d => existsb (is_zero K) (MatGetDiagonal E d).2
  | None => false
  end.

(** The number of vectors the context holds. *)
Definition vectors {K} (j : PC_Jacobi K) : nat :=
  (match diag j with Some _ => 1 | None => 0 end +
   match diagsqrt j with Some _ => 1 | None => 0 end)%nat.

(** The calls of a set-up in which every call succeeded, the report of a
    zero apart. *)
Definition setup_calls {K} (j : PC_Jacobi K) : list Call :=
  match diag j with
  | Some _ => [Call_MatGetDiagonal; Call_VecReciprocal; Call_VecGetLocalSize;
               Call_VecGetArray; Call_VecRestoreArray]
  | None => []
  end ++
  match diagsqrt j with
  | Some _ => [Call_MatGetDiagonal; Call_VecGetLocalSize; Call_VecGetArray;
               Call_VecRestoreArray]
  | None => []
  end.

(** Integers for scalars, to run the definitions: the "matrix" has the
    diagonal 4, 0, 9 and the reciprocal is left to the vector routine. *)
Definition example_scalars : ScalarOps :=
  {| Scalar := Z; is_zero := fun x => x =? 0; one := 1; inv_sqrt_abs := fun x => x |}.

Definition example_env (diag_code mult_code : Z) : Env example_scalars :=
  {| MatGetDiagonal := fun _ => (diag_code, [4; 0; 9] : Vector example_scalars);
     VecReciprocal := fun v => (0, v);
     VecGetLocalSize := fun _ => 0;
     VecGetArray := fun _ => 0;
     VecRestoreArray := fun _ => 0;
     VecDuplicate := (0, [0; 0; 0] : Vector example_scalars);
     VecPointwiseMult := fun x d =>
       (mult_code, match d with Some v => v | None => x end);
     VecDestroy := fun _ => 0 |}.

(** A context that holds the vector [diag], not yet filled. *)
Definition example_allocated : State example_scalars :=
  {| jac := {| diag := Some ([0; 0; 0] : Vector example_scalars); diagsqrt := None |};
     calls := [] |}.

(** The context after a first [PCApply_Jacobi] in which [MatGetDiagonal]
    failed with the code 5. *)
Definition example_half_set_up : State example_scalars :=
  {| jac := {| diag := Some ([4; 0; 9] : Vector example_scalars); diagsqrt := None |};
     calls := [Call_VecDuplicate; Call_PLogObjectParent; Call_MatGetDiagonal] |}.

End Jacobi.

(** * Properties *)

(** ** The monad *)

Lemma andthen_ok (m k : Petsc) s s1 :
  m s = Some (0, s1) -> (m >>> k) s = k s1.
Proof. unfold andthen. intros ->. reflexivity. Qed.

Lemma andthen_err (m k : Petsc) s e s1 :
  m s = Some (e, s1) -> e <> 0 -> (m >>> k) s = Some (e, s1).
Proof.
  unfold andthen. intros -> He.
  destruct (Z.eqb_spec e 0); [contradiction | reflexivity].
Qed.

Lemma andthen_inv_ok (m k : Petsc) s s2 :
  (m >>> k) s = Some (0, s2) -> exists s1, m s = Some (0, s1) /\ k s1 = Some (0, s2).
Proof.
  unfold andthen. destruct (m s) as [[e s1]|]; [|discriminate].
  destruct (Z.eqb_spec e 0) as [->|He].
  - intros H. exists s1. split; [reflexivity | exact H].
  - intros H. injection H as H1 H2. congruence.
Qed.

Lemma andthen_inv (m k : Petsc) s e s2 :
  (m >>> k) s = Some (e, s2) ->
  (exists s1, m s = Some (0, s1) /\ k s1 = Some (e, s2)) \/
  (m s = Some (e, s2) /\ e <> 0).
Proof.
  unfold andthen. destruct (m s) as [[e1 s1]|]; [|discriminate].
  destruct (Z.eqb_spec e1 0) as [->|He].
  - intros H. left. exists s1. split; [reflexivity | exact H].
  - intros H. injection H as <- <-. right. split; [reflexivity | exact He].
Qed.

Lemma CHKERRQ_ok (m k : Petsc) s s1 :
  m s = Some (0, s1) -> (m ;;; k) s = k s1.
Proof. unfold CHKERRQ. intros ->. reflexivity. Qed.

Lemma CHKERRQ_err (m k : Petsc) s e s1 :
  m s = Some (e, s1) -> e <> 0 ->
  (m ;;; k) s = Some (e, record (Call_PetscErrorRepeat e) s1).
Proof.
  unfold CHKERRQ. intros -> He.
  destruct (Z.eqb_spec e 0); [contradiction | reflexivity].
Qed.

Lemma CHKERRQ_inv_ok (m k : Petsc) s s2 :
  (m ;;; k) s = Some (0, s2) -> exists s1, m s = Some (0, s1) /\ k s1 = Some (0, s2).
Proof.
  unfold CHKERRQ. destruct (m s) as [[e s1]|]; [|discriminate].
  destruct (Z.eqb_spec e 0) as [->|He].
  - intros H. exists s1. split; [reflexivity | exact H].
  - intros H. injection H as H1 H2. congruence.
Qed.

Lemma CHKERRQ_inv (m k : Petsc) s e s2 :
  (m ;;; k) s = Some (e, s2) ->
  (exists s1, m s = Some (0, s1) /\ k s1 = Some (e, s2)) \/
  (exists s1, m s = Some (e, s1) /\ e <> 0 /\ s2 = record (Call_PetscErrorRepeat e) s1).
Proof.
  unfold CHKERRQ. destruct (m s) as [[e1 s1]|]; [|discriminate].
  destruct (Z.eqb_spec e1 0) as [->|He].
  - intros H. left. exists s1. split; [reflexivity | exact H].
  - intros H. injection H as <- <-. right. exists s1. split; [reflexivity|].
    split; [exact He | reflexivity].
Qed.

Lemma call_ok c e (k : Petsc) s : e = 0 -> (call c e ;;; k) s = k (record c s).
Proof. intros ->. reflexivity. Qed.

(** One step back through a sequence that returned 0. *)
Ltac inv_ok H :=
  match type of H with
  | (andthen _ _) _ = _ => apply andthen_inv_ok in H
  | (CHKERRQ _ _) _ = _ => apply CHKERRQ_inv_ok in H
  end.

Lemma set_inuse_same c : set_inuse (inuse c) c = c.
Proof. destruct c; reflexivity. Qed.

Lemma state_eta s : {| ctx := ctx s; calls := calls s |} = s.
Proof. destruct s; reflexivity. Qed.

(** ** The example backend meets the assumptions *)

Lemma phase_ok_keeps_flags : keeps_flags Example.phase_ok.
Proof. intros c x y addv mode. split; reflexivity. Qed.

Lemma example_keeps_flags debug cuda end_op :
  end_op = None \/ end_op = Some Example.phase_ok ->
  backend_keeps_flags (Example.env debug cuda end_op).
Proof.
  intros H. split; [exact phase_ok_keeps_flags|]. simpl. intros e He.
  destruct H as [->| ->]; [discriminate|]. inversion He. exact phase_ok_keeps_flags.
Qed.

Lemma example_phases_succeed debug cuda end_op :
  end_op = None \/ end_op = Some Example.phase_ok ->
  phases_succeed (Example.env debug cuda end_op).
Proof.
  intros H. repeat split; try reflexivity. simpl. intros e He.
  destruct H as [->| ->]; [discriminate|]. inversion He. reflexivity.
Qed.

(** ** Begin *)

(** C1. On a context whose in-use flag is true, Begin returns the
    wrong-state error; the context, its in-use flag included, is left as it
    was, and the only call made is the one to the error handler. *)
Theorem begin_in_use_wrong_state E x y addv mode s :
  inuse (ctx s) = true ->
  exists s',
    VecScatterBegin E x y addv mode s = Some (PETSC_ERR_ARG_WRONGSTATE, s') /\
    ctx s' = ctx s /\
    inuse (ctx s') = true /\
    calls s' = calls s ++
      [Call_PetscError PETSC_ERR_ARG_WRONGSTATE " Scatter ctx already in use" []].
Proof.
  intros Hin. unfold VecScatterBegin. rewrite Hin.
  eexists. split; [reflexivity|]. simpl. auto.
Qed.

Lemma begin_in_use_wrong_state_witness :
  exists s',
    VecScatterBegin (Example.env true false None) (Example.vec 3) (Example.vec 3)
      INSERT_VALUES SCATTER_FORWARD (Example.start (Example.seq_ctx true false))
    = Some (PETSC_ERR_ARG_WRONGSTATE, s') /\
    ctx s' = Example.seq_ctx true false /\
    inuse (ctx s') = true /\
    calls s' = [] ++
      [Call_PetscError PETSC_ERR_ARG_WRONGSTATE " Scatter ctx already in use" []].
Proof.
  apply (begin_in_use_wrong_state (Example.env true false None) (Example.vec 3)
           (Example.vec 3) INSERT_VALUES SCATTER_FORWARD
           (Example.start (Example.seq_ctx true false))).
  reflexivity.
Defined.

(** Closed facts about concrete inputs. *)
Ltac by_computation :=
  first [ reflexivity
        | vm_compute; first [ reflexivity | discriminate | intros ?; discriminate ] ].

Ltac run_petsc :=
  unfold andthen, CHKERRQ, update, call, call_op, PetscFunctionReturn, SETERRQ, record,
    undefined;
  simpl.

Lemma check_sizes_ok_same x y mode s s1 :
  check_sizes x y mode s = Some (0, s1) -> s1 = s.
Proof.
  unfold check_sizes, SETERRQ, PetscFunctionReturn, PETSC_ERR_ARG_SIZ.
  repeat match goal with
         | |- context [if ?b then _ else _] => destruct b
         end; intros H; inversion H; reflexivity.
Qed.

Lemma check_sizes_unknown x y mode s :
  from_n (ctx s) < 0 \/ to_n (ctx s) < 0 -> check_sizes x y mode s = Some (0, s).
Proof.
  intros H. unfold check_sizes.
  destruct (Z.leb_spec 0 (from_n (ctx s))), (Z.leb_spec 0 (to_n (ctx s)));
    simpl; try reflexivity; lia.
Qed.

(** What a successful run of lines 108-116 leaves behind. *)
Lemma begin_phase_ok_inv E x y addv mode s s1 :
  keeps_flags (ops_begin (ops E)) ->
  begin_phase E x y addv mode s = Some (0, s1) ->
  let c1 := (ops_begin (ops E) (set_inuse true (ctx s)) x y addv mode).2 in
  match ops_end (ops E) with
  | Some end_op =>
      if beginandendtogether (ctx s) then
        ctx s1 = (end_op (set_inuse false c1) x y addv mode).2 /\
        calls s1 = calls s ++ [Call_PetscLogEventBegin VEC_ScatterBegin; Call_ops_begin;
                               Call_ops_end; Call_PetscLogEventEnd VEC_ScatterBegin]
      else
        ctx s1 = c1 /\
        calls s1 = calls s ++ [Call_PetscLogEventBegin VEC_ScatterBegin; Call_ops_begin;
                               Call_PetscLogEventEnd VEC_ScatterBegin]
  | None =>
      ctx s1 = c1 /\
      calls s1 = calls s ++ [Call_PetscLogEventBegin VEC_ScatterBegin; Call_ops_begin;
                             Call_PetscLogEventEnd VEC_ScatterBegin]
  end.
Proof.
  intros Hk H. unfold begin_phase in H.
  inv_ok H; destruct H as (sa & Ha & H). unfold update in Ha. inversion Ha; subst sa; clear Ha.
  inv_ok H; destruct H as (sb & Hb & H). unfold call in Hb. inversion Hb as [[Hb0 Hb1]]; subst sb; clear Hb.
  inv_ok H; destruct H as (sc & Hc & H). unfold call_op in Hc. simpl in Hc.
  inversion Hc as [[Hc0 Hc1]]; subst sc; clear Hc.
  inv_ok H; destruct H as (sd & Hd & H).
  inv_ok H; destruct H as (se & He & H). unfold call in He. inversion He as [[He0 He1]]; subst se; clear He.
  unfold PetscFunctionReturn in H. inversion H; subst s1; clear H.
  simpl in Hd. destruct (Hk (set_inuse true (ctx s)) x y addv mode) as [_ Hm]. simpl in Hm.
  rewrite Hm in Hd.
  destruct (ops_end (ops E)) as [end_op|].
  - destruct (beginandendtogether (ctx s)); cbn beta iota in Hd.
    + inv_ok Hd; destruct Hd as (sf & Hf & Hd). unfold update in Hf. inversion Hf; subst sf; clear Hf.
      inv_ok Hd; destruct Hd as (sg & Hg & Hd). unfold call_op in Hg. simpl in Hg.
      inversion Hg as [[Hg0 Hg1]]; subst sg; clear Hg.
      unfold PetscFunctionReturn in Hd. inversion Hd; subst sd; clear Hd.
      simpl. split; [reflexivity|]. rewrite <- !app_assoc. reflexivity.
    + unfold PetscFunctionReturn in Hd. inversion Hd; subst sd; clear Hd.
      simpl. split; [reflexivity|]. rewrite <- !app_assoc. reflexivity.
  - assert (sd = {| ctx := (ops_begin (ops E) (set_inuse true (ctx s)) x y addv mode).2;
                    calls := (calls s ++ [Call_PetscLogEventBegin VEC_ScatterBegin]) ++
                             [Call_ops_begin] |}) as ->.
    { destruct (beginandendtogether (ctx s)); unfold PetscFunctionReturn in Hd;
        inversion Hd; reflexivity. }
    simpl. split; [reflexivity|]. rewrite <- !app_assoc. reflexivity.
Qed.

Lemma begin_phase_succeeds E x y addv mode s :
  phases_succeed E -> exists s1, begin_phase E x y addv mode s = Some (0, s1).
Proof.
  intros (HB & HE & Hb & He). unfold begin_phase. run_petsc.
  rewrite HB, Hb. simpl.
  destruct (beginandendtogether _).
  - destruct (ops_end (ops E)) as [end_op|] eqn:Hend.
    + simpl. rewrite (He end_op eq_refl). simpl. rewrite HE. simpl. eauto.
    + simpl. rewrite HE. simpl. eauto.
  - simpl. rewrite HE. simpl. eauto.
Qed.

(** ** End *)

Lemma end_returns E x y addv mode s :
  exists e s1, VecScatterEnd E x y addv mode s = Some (e, s1).
Proof.
  unfold VecScatterEnd. run_petsc.
  destruct (ops_end (ops E)) as [end_op|]; [|eauto].
  destruct (beginandendtogether (ctx s)); simpl; [eauto|].
  repeat match goal with
         | |- context [if ?b then _ else _] => destruct b
         end; eauto.
Qed.

Lemma end_nothing_to_do E x y addv mode s :
  ops_end (ops E) = None \/ beginandendtogether (ctx s) = true ->
  VecScatterEnd E x y addv mode s
  = Some (0, {| ctx := set_inuse false (ctx s); calls := calls s |}).
Proof.
  intros H. unfold VecScatterEnd. run_petsc.
  destruct (ops_end (ops E)) as [end_op|]; [|reflexivity].
  destruct H as [H|H]; [discriminate|]. rewrite H. reflexivity.
Qed.

Lemma end_clears_in_use E x y addv mode s e s1 :
  (forall end_op, ops_end (ops E) = Some end_op -> keeps_flags end_op) ->
  VecScatterEnd E x y addv mode s = Some (e, s1) ->
  inuse (ctx s1) = false.
Proof.
  intros Hk. unfold VecScatterEnd. run_petsc.
  destruct (ops_end (ops E)) as [end_op|] eqn:Hend.
  - destruct (beginandendtogether (ctx s)); simpl.
    + intros H; inversion H; reflexivity.
    + destruct (Hk end_op eq_refl (set_inuse false (ctx s)) x y addv mode) as [Hi _].
      simpl in Hi.
      repeat match goal with
             | |- context [if ?b then _ else _] => destruct b
             end; intros H; inversion H; simpl; try reflexivity; exact Hi.
  - intros H; inversion H; reflexivity.
Qed.

Lemma end_succeeds E x y addv mode s :
  phases_succeed E -> exists s1, VecScatterEnd E x y addv mode s = Some (0, s1).
Proof.
  intros (HB & HE & _ & He). unfold VecScatterEnd. run_petsc.
  destruct (ops_end (ops E)) as [end_op|] eqn:Hend; [|eauto].
  destruct (beginandendtogether (ctx s)); simpl; [eauto|].
  rewrite HB. simpl. rewrite (He end_op eq_refl). simpl. rewrite HE. simpl. eauto.
Qed.

(** End itself never calls the error handler. *)
Lemma end_raises_nothing E x y addv mode s e s1 :
  VecScatterEnd E x y addv mode s = Some (e, s1) ->
  forall code mess args,
    In (Call_PetscError code mess args) (calls s1) ->
    In (Call_PetscError code mess args) (calls s).
Proof.
  unfold VecScatterEnd. run_petsc.
  destruct (ops_end (ops E)) as [end_op|].
  - destruct (beginandendtogether (ctx s)); simpl.
    + intros H; inversion H; auto.
    + repeat match goal with
             | |- context [if ?b then _ else _] => destruct b
             end; intros H; inversion H; subst; simpl; intros code mess args Hin;
        repeat (apply in_app_or in Hin as [Hin|Hin];
                [|simpl in Hin; destruct Hin as [Hin|[]]; discriminate]);
        exact Hin.
  - intros H; inversion H; auto.
Qed.

(** A successful End has not entered the error handler. *)
Lemma end_ok_no_repeat E x y addv mode s s1 :
  VecScatterEnd E x y addv mode s = Some (0, s1) ->
  forall code,
    In (Call_PetscErrorRepeat code) (calls s1) -> In (Call_PetscErrorRepeat code) (calls s).
Proof.
  unfold VecScatterEnd. run_petsc.
  destruct (ops_end (ops E)) as [end_op|].
  - destruct (beginandendtogether (ctx s)); simpl.
    + intros H; inversion H; auto.
    + repeat match goal with
             | |- context [if ?b =? 0 then _ else _] => destruct (Z.eqb_spec b 0)
             end; intros H; inversion H; subst; simpl; try contradiction;
        intros code Hin;
        repeat (apply in_app_or in Hin as [Hin|Hin];
                [|simpl in Hin; destruct Hin as [Hin|[]]; discriminate]);
        exact Hin.
  - intros H; inversion H; auto.
Qed.

(** A nonzero code returned by End is the code of one of the three calls
    it makes, the two logging macros and the backend's end-phase, handed on
    by the CHKERRQ that follows the call: the error handler is entered once,
    right after the failing call, and nothing is called after it. *)
Lemma end_error_is_external E x y addv mode s e s1 :
  VecScatterEnd E x y addv mode s = Some (e, s1) ->
  e <> 0 ->
  exists end_op l,
    ops_end (ops E) = Some end_op /\
    beginandendtogether (ctx s) = false /\
    calls s1 = calls s ++ l ++ [Call_PetscErrorRepeat e] /\
    (l = [Call_PetscLogEventBegin VEC_ScatterEnd] /\
     e = PetscLogEventBegin E VEC_ScatterEnd \/
     l = [Call_PetscLogEventBegin VEC_ScatterEnd; Call_ops_end] /\
     PetscLogEventBegin E VEC_ScatterEnd = 0 /\
     e = (end_op (set_inuse false (ctx s)) x y addv mode).1 \/
     l = [Call_PetscLogEventBegin VEC_ScatterEnd; Call_ops_end;
          Call_PetscLogEventEnd VEC_ScatterEnd] /\
     PetscLogEventBegin E VEC_ScatterEnd = 0 /\
     (end_op (set_inuse false (ctx s)) x y addv mode).1 = 0 /\
     e = PetscLogEventEnd E VEC_ScatterEnd).
Proof.
  unfold VecScatterEnd. run_petsc.
  destruct (ops_end (ops E)) as [end_op|].
  - destruct (beginandendtogether (ctx s)); simpl.
    + intros H; inversion H; contradiction.
    + intros H Hne. exists end_op. revert H.
      destruct (Z.eqb_spec (PetscLogEventBegin E VEC_ScatterEnd) 0) as [HB|HB].
      * destruct (Z.eqb_spec (end_op (set_inuse false (ctx s)) x y addv mode).1 0)
          as [Hop|Hop].
        -- destruct (Z.eqb_spec (PetscLogEventEnd E VEC_ScatterEnd) 0) as [HE|HE];
             intros H; inversion H; subst; [contradiction|].
           exists [Call_PetscLogEventBegin VEC_ScatterEnd; Call_ops_end;
                   Call_PetscLogEventEnd VEC_ScatterEnd].
           split; [reflexivity|]. split; [reflexivity|]. simpl.
           split; [rewrite <- !app_assoc; reflexivity|]. right. right. auto.
        -- intros H; inversion H; subst.
           exists [Call_PetscLogEventBegin VEC_ScatterEnd; Call_ops_end].
           split; [reflexivity|]. split; [reflexivity|]. simpl.
           split; [rewrite <- !app_assoc; reflexivity|]. right. left. auto.
      * intros H; inversion H; subst.
        exists [Call_PetscLogEventBegin VEC_ScatterEnd].
        split; [reflexivity|]. split; [reflexivity|]. simpl.
        split; [rewrite <- !app_assoc; reflexivity|]. left. auto.
  - intros H; inversion H; contradiction.
Qed.

Lemma begin_ok_inv E x y addv mode s s1 :
  VecScatterBegin E x y addv mode s = Some (0, s1) ->
  inuse (ctx s) = false /\ begin_phase E x y addv mode s = Some (0, s1).
Proof.
  unfold VecScatterBegin. destruct (inuse (ctx s)).
  - unfold SETERRQ, PETSC_ERR_ARG_WRONGSTATE. intros H; inversion H.
  - intros H. split; [reflexivity|].
    inv_ok H; destruct H as (sa & Ha & H).
    destruct (PETSC_USE_DEBUG E).
    + apply check_sizes_ok_same in Ha. subst sa. exact H.
    + unfold PetscFunctionReturn in Ha. inversion Ha; subst sa. exact H.
Qed.

(** C2. After a successful Begin: when the merge flag is set and the backend
    has an end-phase, Begin has called that end-phase (once, between its
    begin-phase and its closing log call) and returns with the in-use flag
    cleared, and an End that follows returns success, calls nothing and
    leaves the state as it is; when the merge flag is not set, Begin has not
    called the end-phase, the in-use flag is true on return, and the End that
    follows returns with the flag cleared. *)
Theorem begin_merge_end_protocol E x y addv mode s s1 :
  backend_keeps_flags E ->
  VecScatterBegin E x y addv mode s = Some (0, s1) ->
  (beginandendtogether (ctx s) = true -> is_Some (ops_end (ops E)) ->
   inuse (ctx s1) = false /\
   calls s1 = calls s ++ [Call_PetscLogEventBegin VEC_ScatterBegin; Call_ops_begin;
                          Call_ops_end; Call_PetscLogEventEnd VEC_ScatterBegin] /\
   forall x' y' addv' mode',
     VecScatterEnd E x' y' addv' mode' s1 = Some (0, s1)) /\
  (beginandendtogether (ctx s) = false ->
   inuse (ctx s1) = true /\
   calls s1 = calls s ++ [Call_PetscLogEventBegin VEC_ScatterBegin; Call_ops_begin;
                          Call_PetscLogEventEnd VEC_ScatterBegin] /\
   forall x' y' addv' mode',
     exists e s2, VecScatterEnd E x' y' addv' mode' s1 = Some (e, s2) /\
                  inuse (ctx s2) = false).
Proof.
  intros [Hkb Hke] H. apply begin_ok_inv in H as [Hfree H].
  pose proof (begin_phase_ok_inv E x y addv mode s s1 Hkb H) as Hinv. simpl in Hinv.
  destruct (Hkb (set_inuse true (ctx s)) x y addv mode) as [Hi1 Hm1]. simpl in Hi1, Hm1.
  split.
  - intros Hm [end_op Hend]. rewrite Hend, Hm in Hinv. destruct Hinv as [Hc Hcalls].
    destruct (Hke end_op Hend
                (set_inuse false (ops_begin (ops E) (set_inuse true (ctx s)) x y addv mode).2)
                x y addv mode) as [Hi2 Hm2].
    simpl in Hi2, Hm2. rewrite <- Hc in Hi2, Hm2.
    split; [exact Hi2|]. split; [exact Hcalls|].
    intros x' y' addv' mode'. rewrite end_nothing_to_do.
    + rewrite <- Hi2 at 1. rewrite set_inuse_same, state_eta. reflexivity.
    + right. congruence.
  - intros Hm.
    assert (ctx s1 = (ops_begin (ops E) (set_inuse true (ctx s)) x y addv mode).2 /\
            calls s1 = calls s ++ [Call_PetscLogEventBegin VEC_ScatterBegin; Call_ops_begin;
                                   Call_PetscLogEventEnd VEC_ScatterBegin]) as [Hc Hcalls].
    { rewrite Hm in Hinv. destruct (ops_end (ops E)); exact Hinv. }
    split; [congruence|]. split; [exact Hcalls|].
    intros x' y' addv' mode'.
    destruct (end_returns E x' y' addv' mode' s1) as (e & s2 & He).
    exists e, s2. split; [exact He|]. eapply end_clears_in_use; eassumption.
Qed.

Lemma begin_merge_end_protocol_witness :
  inuse (ctx Example.merged_begin_done) = false /\
  calls Example.merged_begin_done
  = [] ++ [Call_PetscLogEventBegin VEC_ScatterBegin; Call_ops_begin;
           Call_ops_end; Call_PetscLogEventEnd VEC_ScatterBegin] /\
  forall x' y' addv' mode',
    VecScatterEnd (Example.env true false (Some Example.phase_ok)) x' y' addv' mode'
      Example.merged_begin_done
    = Some (0, Example.merged_begin_done).
Proof.
  refine (proj1 (begin_merge_end_protocol (Example.env true false (Some Example.phase_ok))
                   (Example.vec 3) (Example.vec 3) INSERT_VALUES SCATTER_FORWARD
                   (Example.start (Example.seq_ctx false true)) Example.merged_begin_done
                   _ _) _ _).
  - apply example_keeps_flags. right. reflexivity.
  - reflexivity.
  - reflexivity.
  - eexists. reflexivity.
Defined.

(** C9. End clears the in-use flag whatever it was and has no state test:
    it always returns, with the flag cleared, and never raises an error of
    its own (no SETERRQ).  With no end-phase in the backend it returns
    success at once, having only cleared the flag; and when the logging
    macros and the end-phase succeed, End succeeds on any context, in use or
    not, and again when called a second time.  A nonzero code can only be
    the one a logging macro or the backend's end-phase handed back; it is
    then passed on by CHKERRQ, which enters the error handler once, after the
    failing call, and a successful End does not enter the handler at all. *)
Theorem end_clears_without_state_check E x y addv mode s :
  backend_keeps_flags E ->
  (exists e s1,
     VecScatterEnd E x y addv mode s = Some (e, s1) /\
     inuse (ctx s1) = false /\
     (forall code mess args,
        In (Call_PetscError code mess args) (calls s1) ->
        In (Call_PetscError code mess args) (calls s)) /\
     (e = 0 ->
      forall code,
        In (Call_PetscErrorRepeat code) (calls s1) ->
        In (Call_PetscErrorRepeat code) (calls s)) /\
     (e <> 0 ->
      exists end_op l,
        ops_end (ops E) = Some end_op /\
        beginandendtogether (ctx s) = false /\
        calls s1 = calls s ++ l ++ [Call_PetscErrorRepeat e] /\
        (l = [Call_PetscLogEventBegin VEC_ScatterEnd] /\
         e = PetscLogEventBegin E VEC_ScatterEnd \/
         l = [Call_PetscLogEventBegin VEC_ScatterEnd; Call_ops_end] /\
         PetscLogEventBegin E VEC_ScatterEnd = 0 /\
         e = (end_op (set_inuse false (ctx s)) x y addv mode).1 \/
         l = [Call_PetscLogEventBegin VEC_ScatterEnd; Call_ops_end;
              Call_PetscLogEventEnd VEC_ScatterEnd] /\
         PetscLogEventBegin E VEC_ScatterEnd = 0 /\
         (end_op (set_inuse false (ctx s)) x y addv mode).1 = 0 /\
         e = PetscLogEventEnd E VEC_ScatterEnd))) /\
  (ops_end (ops E) = None ->
   VecScatterEnd E x y addv mode s
   = Some (0, {| ctx := set_inuse false (ctx s); calls := calls s |})) /\
  (phases_succeed E ->
   exists s1 s2,
     VecScatterEnd E x y addv mode s = Some (0, s1) /\ inuse (ctx s1) = false /\
     VecScatterEnd E x y addv mode s1 = Some (0, s2) /\ inuse (ctx s2) = false).
Proof.
  intros [_ Hke]. split; [|split].
  - destruct (end_returns E x y addv mode s) as (e & s1 & He).
    exists e, s1. split; [exact He|]. split; [|split; [|split]].
    + eapply end_clears_in_use; eassumption.
    + eapply end_raises_nothing; eassumption.
    + intros ->. eapply end_ok_no_repeat; eassumption.
    + intros Hne. exact (end_error_is_external _ _ _ _ _ _ _ _ He Hne).
  - intros Hnone. apply end_nothing_to_do. left. exact Hnone.
  - intros Hok.
    destruct (end_succeeds E x y addv mode s Hok) as (s1 & H1).
    destruct (end_succeeds E x y addv mode s1 Hok) as (s2 & H2).
    exists s1, s2. repeat split; try assumption; eapply end_clears_in_use; eassumption.
Qed.

Lemma end_clears_without_state_check_witness :
  exists s1 s2,
    VecScatterEnd (Example.env true false (Some Example.phase_ok)) (Example.vec 3)
      (Example.vec 3) INSERT_VALUES SCATTER_FORWARD
      (Example.start (Example.seq_ctx false false)) = Some (0, s1) /\
    inuse (ctx s1) = false /\
    VecScatterEnd (Example.env true false (Some Example.phase_ok)) (Example.vec 3)
      (Example.vec 3) INSERT_VALUES SCATTER_FORWARD s1 = Some (0, s2) /\
    inuse (ctx s2) = false.
Proof.
  refine (proj2 (proj2 (end_clears_without_state_check
                          (Example.env true false (Some Example.phase_ok)) (Example.vec 3)
                          (Example.vec 3) INSERT_VALUES SCATTER_FORWARD
                          (Example.start (Example.seq_ctx false false)) _)) _).
  - apply example_keeps_flags. right. reflexivity.
  - apply example_phases_succeed. right. reflexivity.
Defined.

Lemma begin_not_in_use E x y addv mode s :
  inuse (ctx s) = false ->
  VecScatterBegin E x y addv mode s
  = ((if PETSC_USE_DEBUG E then check_sizes x y mode else PetscFunctionReturn 0) >>>
     begin_phase E x y addv mode) s.
Proof. intros H. unfold VecScatterBegin. rewrite H. reflexivity. Qed.

Lemma begin_skips_check E x y addv mode s :
  inuse (ctx s) = false ->
  PETSC_USE_DEBUG E = false \/ from_n (ctx s) < 0 \/ to_n (ctx s) < 0 ->
  VecScatterBegin E x y addv mode s = begin_phase E x y addv mode s.
Proof.
  intros Hfree H. rewrite begin_not_in_use by exact Hfree.
  destruct (PETSC_USE_DEBUG E).
  - destruct H as [H|H]; [discriminate|].
    apply andthen_ok. apply check_sizes_unknown. exact H.
  - reflexivity.
Qed.




(** ** Remap *)

Lemma remap_ok_inv E tomap frommap s s1 :
  VecScatterRemap E tomap frommap s = Some (0, s1) ->
  frommap = None /\
  exists sa,
    if_tomap E tomap s = Some (0, sa) /\
    s1 = {| ctx := set_sizes (-1) (-1) (ctx sa); calls := calls sa |}.
Proof.
  unfold VecScatterRemap. intros H.
  inv_ok H; destruct H as (sa & Ha & H).
  inv_ok H; destruct H as (sb & Hb & H).
  inv_ok H; destruct H as (sc & Hc & H).
  unfold PetscFunctionReturn in H. inversion H; subst sc; clear H.
  unfold update in Hc. inversion Hc; subst s1; clear Hc.
  destruct frommap.
  - unfold SETERRQ, PETSC_ERR_SUP in Hb. inversion Hb.
  - unfold PetscFunctionReturn in Hb. inversion Hb; subst sb; clear Hb.
    split; [reflexivity|]. exists sa. split; [exact Ha|reflexivity].
Qed.

Lemma remap_without_frommap E tomap s sa :
  if_tomap E tomap s = Some (0, sa) ->
  VecScatterRemap E tomap None s
  = Some (0, {| ctx := set_sizes (-1) (-1) (ctx sa); calls := calls sa |}).
Proof.
  intros H. unfold VecScatterRemap. rewrite (andthen_ok _ _ _ _ H). reflexivity.
Qed.

(** C4. Remap sets both declared sizes to -1, the "unknown" mark, as its
    last step: with a null fromMap, whenever the toMap step completes (and
    always when toMap is null too) Remap returns success on the state that
    step left with the two sizes overwritten by -1.  Conversely every Remap
    that returns success went that way, so after it both sizes are -1 and the
    size check of Begin passes vectors of any local size: on the remapped
    context, when it is not in use, Begin is its begin-phase, and it succeeds
    whenever the logging macros and the backend do. *)
Theorem remap_marks_sizes_unknown E tomap s :
  (forall sa,
     if_tomap E tomap s = Some (0, sa) ->
     VecScatterRemap E tomap None s
     = Some (0, {| ctx := set_sizes (-1) (-1) (ctx sa); calls := calls sa |})) /\
  VecScatterRemap E None None s
  = Some (0, {| ctx := set_sizes (-1) (-1) (ctx s); calls := calls s |}) /\
  (forall frommap s1,
     VecScatterRemap E tomap frommap s = Some (0, s1) ->
     (exists sa,
        if_tomap E tomap s = Some (0, sa) /\
        s1 = {| ctx := set_sizes (-1) (-1) (ctx sa); calls := calls sa |}) /\
     to_n (ctx s1) = -1 /\
     from_n (ctx s1) = -1 /\
     (forall x y mode, check_sizes x y mode s1 = Some (0, s1)) /\
     (inuse (ctx s1) = false ->
      forall x y addv mode,
        VecScatterBegin E x y addv mode s1 = begin_phase E x y addv mode s1 /\
        (phases_succeed E ->
         exists s2, VecScatterBegin E x y addv mode s1 = Some (0, s2)))).
Proof.
  split; [|split].
  - intros sa H. apply remap_without_frommap. exact H.
  - apply (remap_without_frommap E None s s). reflexivity.
  - intros frommap s1 H. apply remap_ok_inv in H as (_ & sa & Ha & ->). simpl.
    split; [exists sa; split; [exact Ha | reflexivity]|].
    split; [reflexivity|]. split; [reflexivity|]. split.
    + intros x y mode. apply check_sizes_unknown. simpl. lia.
    + intros Hfree x y addv mode.
      assert (VecScatterBegin E x y addv mode
                {| ctx := set_sizes (-1) (-1) (ctx sa); calls := calls sa |}
              = begin_phase E x y addv mode
                  {| ctx := set_sizes (-1) (-1) (ctx sa); calls := calls sa |}) as Heq.
      { apply begin_skips_check; [exact Hfree|]. right; left. simpl. lia. }
      split; [exact Heq|]. intros Hok. rewrite Heq. apply begin_phase_succeeds. exact Hok.
Qed.

Lemma remap_marks_sizes_unknown_witness :
  VecScatterRemap (Example.env true false None) (Some [2; 0; 1]) None
    (Example.start (Example.seq_ctx false false))
  = Some (0, Example.remapped_seq) /\
  to_n (ctx Example.remapped_seq) = -1 /\
  from_n (ctx Example.remapped_seq) = -1 /\
  exists s2,
    VecScatterBegin (Example.env true false None) (Example.vec 7) (Example.vec 9)
      INSERT_VALUES SCATTER_FORWARD Example.remapped_seq = Some (0, s2).
Proof.
  destruct (remap_marks_sizes_unknown (Example.env true false None) (Some [2; 0; 1])
              (Example.start (Example.seq_ctx false false)))
    as (Hsets & _ & Hafter).
  split.
  - apply (Hsets {| ctx := set_sizes 3 3 (ctx Example.remapped_seq);
                    calls := calls Example.remapped_seq |}).
    by_computation.
  - destruct (Hafter None Example.remapped_seq) as (_ & Hto & Hfrom & _ & Hbegin).
    + by_computation.
    + split; [exact Hto|]. split; [exact Hfrom|].
      apply (Hbegin eq_refl (Example.vec 7) (Example.vec 9) INSERT_VALUES SCATTER_FORWARD).
      apply example_phases_succeed. left. reflexivity.
Defined.

Lemma remap_loop_spec tomap cnt : forall i a a',
  remap_loop tomap cnt i a = Some a' ->
  length a' = length a /\
  (cnt = 0 \/ i + cnt <= length a)%nat /\
  (forall j, (j < i \/ i + cnt <= j)%nat -> a' !! j = a !! j) /\
  (forall j v, (i <= j < i + cnt)%nat -> a !! j = Some v -> a' !! j = array_get tomap v).
Proof.
  induction cnt as [|cnt IH]; intros i a a' H; simpl in H.
  - inversion H; subst a'. repeat split; auto; lia.
  - destruct (a !! i) as [v|] eqn:Hv; [|discriminate].
    destruct (array_get tomap v) as [w|] eqn:Hw; [|discriminate].
    apply IH in H as (Hlen & Hbound & Hout & Hin).
    rewrite length_insert in Hlen, Hbound.
    pose proof (lookup_lt_Some _ _ _ Hv) as Hi.
    split; [exact Hlen|]. split; [lia|]. split.
    + intros j Hj. rewrite Hout by lia. apply list_lookup_insert_ne. lia.
    + intros j u Hj Hu. destruct (decide (j = i)) as [->|Hne].
      * rewrite Hout by lia. rewrite list_lookup_insert_eq by exact Hi. congruence.
      * apply Hin; [lia|]. rewrite list_lookup_insert_ne by lia. exact Hu.
Qed.

Lemma remap_loop_prefix tomap cnt a a' :
  remap_loop tomap cnt 0 a = Some a' -> remapped_prefix tomap cnt a a'.
Proof.
  intros H. apply remap_loop_spec in H as (Hlen & Hbound & Hout & Hin).
  unfold remapped_prefix. split; [exact Hlen|]. split; [lia|]. split.
  - intros j Hj. apply Hout. lia.
  - intros j v Hj. apply Hin. lia.
Qed.

Lemma identity_loop_spec tomap cnt : forall i,
  (i + cnt <= length tomap)%nat ->
  exists b, identity_loop tomap cnt i = Some b /\
            (b = true <-> forall j, (i <= j < i + cnt)%nat -> tomap !! j = Some (Z.of_nat j)).
Proof.
  induction cnt as [|cnt IH]; intros i Hlen; cbn [identity_loop].
  - exists true. split; [reflexivity|]. split; [intros _ j Hj; lia | reflexivity].
  - destruct (lookup_lt_is_Some_2 tomap i) as [v Hv]; [lia|]. rewrite Hv.
    destruct (Z.eqb_spec v (Z.of_nat i)) as [->|Hne]; cbn [negb].
    + destruct (IH (S i)) as (b & Hb & Hiff); [lia|].
      exists b. split; [exact Hb|]. rewrite Hiff. split.
      * intros H j Hj. destruct (decide (j = i)) as [->|]; [exact Hv | apply H; lia].
      * intros H j Hj. apply H. lia.
    + exists false. split; [reflexivity|]. split; [discriminate|].
      intros H. specialize (H i ltac:(lia)). congruence.
Qed.

Lemma keeps_header_andthen m k :
  keeps_header m -> keeps_header k -> keeps_header (m >>> k).
Proof.
  intros Hm Hk s e s' H. apply andthen_inv in H as [(s1 & H1 & H2)|[H1 _]].
  - rewrite (Hk _ _ _ H2). eapply Hm; eassumption.
  - eapply Hm; eassumption.
Qed.

Lemma keeps_header_CHKERRQ m k :
  keeps_header m -> keeps_header k -> keeps_header (m ;;; k).
Proof.
  intros Hm Hk s e s' H. apply CHKERRQ_inv in H as [(s1 & H1 & H2)|(s1 & H1 & _ & ->)].
  - rewrite (Hk _ _ _ H2). eapply Hm; eassumption.
  - cbn [record ctx]. eapply Hm; eassumption.
Qed.

Lemma keeps_header_return e : keeps_header (PetscFunctionReturn e).
Proof. intros s e' s' H. inversion H; reflexivity. Qed.

Lemma keeps_header_SETERRQ code mess args : keeps_header (SETERRQ code mess args).
Proof. intros s e' s' H. inversion H; reflexivity. Qed.

Lemma keeps_header_set_todata d : keeps_header (update (set_todata d)).
Proof. intros s e' s' H. inversion H; reflexivity. Qed.

Lemma keeps_header_set_fromdata d : keeps_header (update (set_fromdata d)).
Proof. intros s e' s' H. inversion H; reflexivity. Qed.

Lemma keeps_header_ptop_plans c f : keeps_header (ptop_plans c f).
Proof.
  intros s e s' H. unfold ptop_plans in H.
  destruct (todata (ctx s)); try discriminate.
  destruct (fromdata (ctx s)); try discriminate.
  inversion H; reflexivity.
Qed.

Lemma keeps_header_destroy_from_plan E : keeps_header (destroy_from_plan E).
Proof.
  intros s e s' H. unfold destroy_from_plan in H.
  destruct (fromdata (ctx s)); try discriminate. inversion H; reflexivity.
Qed.

Lemma keeps_header_destroy_to_plan E : keeps_header (destroy_to_plan E).
Proof.
  intros s e s' H. unfold destroy_to_plan in H.
  destruct (todata (ctx s)); try discriminate. inversion H; reflexivity.
Qed.

Lemma keeps_header_create_index_plan E : keeps_header (create_index_plan E).
Proof.
  intros s e s' H. unfold create_index_plan in H.
  destruct (fromdata (ctx s)); try discriminate. inversion H; reflexivity.
Qed.

Lemma keeps_header_create_sgtosg_plan E : keeps_header (create_sgtosg_plan E).
Proof.
  intros s e s' H. unfold create_sgtosg_plan in H.
  destruct (todata (ctx s)); try discriminate.
  destruct (fromdata (ctx s)); try discriminate.
  inversion H; reflexivity.
Qed.

Create HintDb petsc_frame.
#[local] Hint Resolve keeps_header_andthen keeps_header_CHKERRQ keeps_header_return keeps_header_SETERRQ
  keeps_header_set_todata keeps_header_set_fromdata keeps_header_ptop_plans
  keeps_header_destroy_from_plan keeps_header_destroy_to_plan
  keeps_header_create_index_plan keeps_header_create_sgtosg_plan : petsc_frame.

Ltac frame_step H :=
  match type of H with
  | ?m ?s = Some (?e, ?s') =>
      apply (fun K : keeps_header m => K s e s' H); auto 12 with petsc_frame
  end.

(** The remapping step writes backend data only. *)
Lemma remap_to_keeps_header E tm : keeps_header (remap_to E tm).
Proof.
  intros s e s'. unfold remap_to, unable_to_remap.
  destruct (todata (ctx s)) as [sgto|ssto|to|ta|ta]; cbn beta iota.
  - destruct (fromdata (ctx s)) as [sgfrom|ssfrom|from|fa|fa].
    + destruct (remap_loop _ _ _ _); [|discriminate]. intros H. frame_step H.
    + destruct (_ && _); [|intros H; frame_step H].
      destruct (identity_loop _ _ _) as [[|]|]; [| |discriminate]; intros H; frame_step H.
    + intros H; frame_step H.
    + intros H; frame_step H.
    + intros H; frame_step H.
  - destruct (fromdata (ctx s)) as [sgfrom|ssfrom|from|fa|fa].
    + destruct (remap_loop _ _ _ _); [|discriminate].
      destruct (ss_step ssto =? 1); intros H; frame_step H.
    + destruct (_ && _); [|intros H; frame_step H].
      destruct (identity_loop _ _ _) as [[|]|]; [| |discriminate]; intros H; frame_step H.
    + intros H; frame_step H.
    + intros H; frame_step H.
    + intros H; frame_step H.
  - destruct (array_get _ _); [|discriminate].
    destruct (remap_loop _ _ _ _); [|discriminate].
    destruct (remap_loop _ _ _ _); [|discriminate].
    intros H; frame_step H.
  - intros H; frame_step H.
  - destruct (fromdata (ctx s)) as [sgfrom|ssfrom|from|fa|fa].
    + destruct (remap_loop _ _ _ _); [|discriminate]. intros H. frame_step H.
    + destruct (_ && _); [|intros H; frame_step H].
      destruct (identity_loop _ _ _) as [[|]|]; [| |discriminate]; intros H; frame_step H.
    + intros H; frame_step H.
    + intros H; frame_step H.
    + intros H; frame_step H.
Qed.

Lemma if_tomap_keeps_header E tomap s e sa :
  if_tomap E tomap s = Some (e, sa) ->
  to_n (ctx sa) = to_n (ctx s) /\ from_n (ctx sa) = from_n (ctx s).
Proof.
  destruct tomap as [tm|]; simpl.
  - intros H. apply remap_to_keeps_header in H. unfold header in H.
    split; injection H; intros; assumption.
  - unfold PetscFunctionReturn. intros H; inversion H; auto.
Qed.

Lemma remap_with_frommap E tomap fm s :
  VecScatterRemap E tomap (Some fm) s
  = match if_tomap E tomap s with
    | Some (e, sa) =>
        if e =? 0 then Some (PETSC_ERR_SUP, record from_unsupported sa) else Some (e, sa)
    | None => None
    end.
Proof.
  unfold VecScatterRemap, andthen at 1.
  destruct (if_tomap E tomap s) as [[e sa]|]; [|reflexivity].
  destruct (e =? 0); reflexivity.
Qed.

(** C6, as the code has it.  Remap with a non-null fromMap never succeeds
    and never marks the declared sizes unknown.  The toMap step runs first:
    when toMap is null or that step completes, the error is the not-supported
    one, raised on the state the step left; when the step fails, its own
    error is returned instead.  The entries of fromMap are never read. *)
Theorem remap_frommap_not_supported E tomap fm s :
  (forall e s1, VecScatterRemap E tomap (Some fm) s = Some (e, s1) ->
                e <> 0 /\ to_n (ctx s1) = to_n (ctx s) /\ from_n (ctx s1) = from_n (ctx s)) /\
  (forall sa, if_tomap E tomap s = Some (0, sa) ->
              VecScatterRemap E tomap (Some fm) s
              = Some (PETSC_ERR_SUP, record from_unsupported sa)) /\
  (forall e sa, if_tomap E tomap s = Some (e, sa) -> e <> 0 ->
                VecScatterRemap E tomap (Some fm) s = Some (e, sa)) /\
  VecScatterRemap E None (Some fm) s = Some (PETSC_ERR_SUP, record from_unsupported s) /\
  (forall fm', VecScatterRemap E tomap (Some fm') s = VecScatterRemap E tomap (Some fm) s).
Proof.
  split; [|split; [|split; [|split]]].
  - intros e s1 H. rewrite remap_with_frommap in H.
    destruct (if_tomap E tomap s) as [[e' sa]|] eqn:Hto; [|discriminate].
    apply if_tomap_keeps_header in Hto.
    destruct (Z.eqb_spec e' 0); inversion H; subst; simpl.
    + split; [discriminate | exact Hto].
    + split; [assumption | exact Hto].
  - intros sa Hto. rewrite remap_with_frommap, Hto. reflexivity.
  - intros e sa Hto Hne. rewrite remap_with_frommap, Hto.
    destruct (Z.eqb_spec e 0); [contradiction | reflexivity].
  - reflexivity.
  - intros fm'. rewrite !remap_with_frommap. reflexivity.
Qed.

Lemma remap_frommap_not_supported_witness :
  VecScatterRemap (Example.env true false None) (Some [2; 0; 1]) (Some [0; 1; 2])
    (Example.start (Example.seq_ctx false false))
  = Some (PETSC_ERR_SUP,
          record from_unsupported
            {| ctx := set_sizes 3 3 (ctx Example.remapped_seq);
               calls := calls Example.remapped_seq |}).
Proof.
  apply (proj1 (proj2 (remap_frommap_not_supported (Example.env true false None)
                         (Some [2; 0; 1]) [0; 1; 2]
                         (Example.start (Example.seq_ctx false false))))).
  by_computation.
Defined.

(** C6 as stated fails: on a to-all scatter, Remap with both maps non-null
    returns the size/argument error raised by the toMap step, not the
    not-supported error. *)
Lemma remap_frommap_other_error :
  VecScatterRemap (Example.env true false None) (Some [0; 1; 2]) (Some [0; 1; 2])
    (Example.start Example.toall_ctx)
  = Some (PETSC_ERR_ARG_SIZ,
          {| ctx := Example.toall_ctx;
             calls := [Call_PetscError PETSC_ERR_ARG_SIZ "Not for to all scatter" []] |}) /\
  PETSC_ERR_ARG_SIZ <> PETSC_ERR_SUP.
Proof. split; by_computation. Qed.

Lemma array_get_nat (a : list Z) (j : nat) : array_get a (Z.of_nat j) = a !! j.
Proof.
  unfold array_get. destruct (Z.ltb_spec (Z.of_nat j) 0); [lia|].
  rewrite Nat2Z.id. reflexivity.
Qed.

Lemma identity_positions (tm : list Z) (n : Z) :
  (forall j, (0 <= j < 0 + Z.to_nat n)%nat -> tm !! j = Some (Z.of_nat j)) <->
  (forall i, 0 <= i < n -> array_get tm i = Some i).
Proof.
  split.
  - intros H i Hi. rewrite <- (Z2Nat.id i) at 1 by lia. rewrite array_get_nat.
    rewrite H by lia. rewrite Z2Nat.id by lia. reflexivity.
  - intros H j Hj. rewrite <- array_get_nat. apply H. lia.
Qed.

(** Lines 350-358: what the remapping step does when [fromdata] is strided
    and [todata] is not a distributed format. *)
Lemma remap_to_from_stride E tm s ss :
  fromdata (ctx s) = SeqStride ss ->
  format (todata (ctx s)) <> VEC_SCATTER_MPI_TOALL ->
  format (todata (ctx s)) <> VEC_SCATTER_MPI_GENERAL ->
  remap_to E tm s
  = if (ss_step ss =? 1) && (ss_first ss =? 0) then
      match identity_loop tm (Z.to_nat (ss_n ss)) 0 with
      | None => None
      | Some true => Some (0, s)
      | Some false => unable_to_remap s
      end
    else unable_to_remap s.
Proof.
  intros Hfrom Hta Hmg. unfold remap_to. rewrite Hfrom.
  destruct (todata (ctx s)); simpl in Hta, Hmg; try contradiction; reflexivity.
Qed.

Lemma remap_to_from_stride_cases E tm s ss :
  fromdata (ctx s) = SeqStride ss ->
  format (todata (ctx s)) <> VEC_SCATTER_MPI_TOALL ->
  format (todata (ctx s)) <> VEC_SCATTER_MPI_GENERAL ->
  (Z.to_nat (ss_n ss) <= length tm)%nat ->
  (identity_remap ss tm /\ remap_to E tm s = Some (0, s)) \/
  (~ identity_remap ss tm /\ remap_to E tm s = unable_to_remap s).
Proof.
  intros Hfrom Hta Hmg Hlen. rewrite (remap_to_from_stride E tm s ss) by assumption.
  unfold identity_remap.
  destruct (Z.eqb_spec (ss_step ss) 1) as [Hstep|Hstep];
    [|right; split; [tauto | reflexivity]].
  destruct (Z.eqb_spec (ss_first ss) 0) as [Hfirst|Hfirst];
    [|right; split; [tauto | reflexivity]].
  cbn [andb].
  destruct (identity_loop_spec tm (Z.to_nat (ss_n ss)) 0) as (b & Hb & Hiff); [lia|].
  rewrite Hb. rewrite identity_positions in Hiff. destruct b.
  - left. split; [|reflexivity]. split; [exact Hstep|]. split; [exact Hfirst|].
    apply Hiff. reflexivity.
  - right. split; [|reflexivity]. intros (_ & _ & H). apply Hiff in H. discriminate.
Qed.

(** C5, as the code has it.  The strided backend the remapping step looks at
    is [fromdata] (in the sequential case toMap addresses the from-data), and
    it is reached when [todata] is neither to-all nor distributed-general.
    There, Remap with a toMap that covers the positions below the count and a
    null fromMap succeeds exactly when the stride is the identity (first 0,
    step 1) and toMap fixes every position below the count; it then leaves the
    backend data alone and makes no call, but sets both declared sizes to -1.
    In every other case it returns the size/argument error and leaves the
    context as it was. *)
Theorem remap_stride_identity_only E tm s ss :
  fromdata (ctx s) = SeqStride ss ->
  format (todata (ctx s)) <> VEC_SCATTER_MPI_TOALL ->
  format (todata (ctx s)) <> VEC_SCATTER_MPI_GENERAL ->
  (Z.to_nat (ss_n ss) <= length tm)%nat ->
  (identity_remap ss tm ->
   VecScatterRemap E (Some tm) None s
   = Some (0, {| ctx := set_sizes (-1) (-1) (ctx s); calls := calls s |})) /\
  (~ identity_remap ss tm ->
   VecScatterRemap E (Some tm) None s
   = Some (PETSC_ERR_ARG_SIZ,
           record (Call_PetscError PETSC_ERR_ARG_SIZ "Unable to remap such scatters" []) s)) /\
  ((exists s1, VecScatterRemap E (Some tm) None s = Some (0, s1)) <-> identity_remap ss tm).
Proof.
  intros Hfrom Hta Hmg Hlen.
  assert (identity_remap ss tm ->
          VecScatterRemap E (Some tm) None s
          = Some (0, {| ctx := set_sizes (-1) (-1) (ctx s); calls := calls s |})) as Hyes.
  { intros Hid.
    destruct (remap_to_from_stride_cases E tm s ss Hfrom Hta Hmg Hlen) as [[_ H]|[H _]];
      [|contradiction].
    unfold VecScatterRemap. rewrite (andthen_ok _ _ s s) by exact H. reflexivity. }
  assert (~ identity_remap ss tm ->
          VecScatterRemap E (Some tm) None s
          = Some (PETSC_ERR_ARG_SIZ,
                  record (Call_PetscError PETSC_ERR_ARG_SIZ
                            "Unable to remap such scatters" []) s)) as Hno.
  { intros Hid.
    destruct (remap_to_from_stride_cases E tm s ss Hfrom Hta Hmg Hlen) as [[H _]|[_ H]];
      [contradiction|].
    unfold VecScatterRemap. apply andthen_err; [exact H | discriminate]. }
  split; [exact Hyes|]. split; [exact Hno|]. split.
  - intros [s1 H1].
    destruct (remap_to_from_stride_cases E tm s ss Hfrom Hta Hmg Hlen) as [[H _]|[H _]];
      [exact H|].
    rewrite (Hno H) in H1. discriminate.
  - intros Hid. eexists. apply Hyes. exact Hid.
Qed.

Lemma remap_stride_identity_only_witness :
  VecScatterRemap (Example.env true false None) (Some [0; 1; 2]) None
    (Example.start (Example.stride_from_ctx 0 1))
  = Some (0, {| ctx := set_sizes (-1) (-1) (Example.stride_from_ctx 0 1); calls := [] |}).
Proof.
  refine (proj1 (remap_stride_identity_only (Example.env true false None) [0; 1; 2]
                   (Example.start (Example.stride_from_ctx 0 1))
                   {| ss_n := 3; ss_first := 0; ss_step := 1 |} _ _ _ _) _).
  - reflexivity.
  - discriminate.
  - discriminate.
  - simpl. lia.
  - split; [reflexivity|]. split; [reflexivity|].
    intros i Hi. simpl in Hi.
    assert (i = 0 \/ i = 1 \/ i = 2) as [->|[->| ->]] by lia; reflexivity.
Defined.

(** C5 as stated fails: with a strided to-side ([todata], here the stride
    5, 7, 9) paired with a general from-side, Remap with the permutation
    [2,0,1] succeeds and rewrites the from-side slots; and where Remap
    succeeds on an identity stride with the identity map, it still changes
    the context: the declared sizes 3 and 3 become -1. *)
Lemma remap_stride_to_side_accepts_permutation :
  todata Example.stride_to_ctx = Example.stride 3 5 2 /\
  VecScatterRemap (Example.env true false None) (Some [2; 0; 1]) None
    (Example.start Example.stride_to_ctx)
  = Some (0, {| ctx := Example.context (-1) (-1) false false 1 (Example.stride 3 5 2)
                         (Example.general [2; 0; 1]);
                calls := [] |}) /\
  VecScatterRemap (Example.env true false None) (Some [0; 1; 2]) None
    (Example.start (Example.stride_from_ctx 0 1))
  = Some (0, {| ctx := Example.context (-1) (-1) false false 1 (Example.general [0; 1; 2])
                         (Example.stride 3 0 1);
                calls := [] |}) /\
  Example.context (-1) (-1) false false 1 (Example.general [0; 1; 2]) (Example.stride 3 0 1)
  <> Example.stride_from_ctx 0 1.
Proof. repeat split; by_computation. Qed.

(** ** What the remapping step rewrites *)

Lemma keeps_data_andthen m k : keeps_data m -> keeps_data k -> keeps_data (m >>> k).
Proof.
  intros Hm Hk s e s' H. apply andthen_inv in H as [(s1 & H1 & H2)|[H1 _]].
  - destruct (Hk _ _ _ H2) as [-> ->]. eapply Hm; eassumption.
  - eapply Hm; eassumption.
Qed.

Lemma keeps_data_CHKERRQ m k : keeps_data m -> keeps_data k -> keeps_data (m ;;; k).
Proof.
  intros Hm Hk s e s' H. apply CHKERRQ_inv in H as [(s1 & H1 & H2)|(s1 & H1 & _ & ->)].
  - destruct (Hk _ _ _ H2) as [-> ->]. eapply Hm; eassumption.
  - cbn [record ctx]. eapply Hm; eassumption.
Qed.

Lemma keeps_data_return e : keeps_data (PetscFunctionReturn e).
Proof. intros s e' s' H. inversion H; auto. Qed.

Lemma keeps_data_ptop_plans c f : keeps_data (ptop_plans c f).
Proof.
  intros s e s' H. unfold ptop_plans in H.
  destruct (todata (ctx s)) eqn:Hto; try discriminate.
  destruct (fromdata (ctx s)) eqn:Hfrom; try discriminate.
  inversion H; subst; simpl. split; reflexivity.
Qed.

Lemma keeps_data_destroy_from_plan E : keeps_data (destroy_from_plan E).
Proof.
  intros s e s' H. unfold destroy_from_plan in H.
  destruct (fromdata (ctx s)) eqn:Hfrom; try discriminate.
  inversion H; subst; simpl. split; reflexivity.
Qed.

Lemma keeps_data_destroy_to_plan E : keeps_data (destroy_to_plan E).
Proof.
  intros s e s' H. unfold destroy_to_plan in H.
  destruct (todata (ctx s)) eqn:Hto; try discriminate.
  inversion H; subst; simpl. split; reflexivity.
Qed.

Lemma keeps_data_create_index_plan E : keeps_data (create_index_plan E).
Proof.
  intros s e s' H. unfold create_index_plan in H.
  destruct (fromdata (ctx s)) eqn:Hfrom; try discriminate.
  inversion H; subst; simpl. split; reflexivity.
Qed.

Lemma keeps_data_create_sgtosg_plan E : keeps_data (create_sgtosg_plan E).
Proof.
  intros s e s' H. unfold create_sgtosg_plan in H.
  destruct (todata (ctx s)) eqn:Hto; try discriminate.
  destruct (fromdata (ctx s)) eqn:Hfrom; try discriminate.
  inversion H; subst; simpl. split; reflexivity.
Qed.

Lemma logs_CHKERRQ cs1 cs2 m k : logs cs1 m -> logs cs2 k -> logs (cs1 ++ cs2) (m ;;; k).
Proof.
  intros Hm Hk s s' H. inv_ok H; destruct H as (s1 & H1 & H2).
  rewrite (Hk _ _ H2), (Hm _ _ H1), app_assoc. reflexivity.
Qed.

Lemma logs_andthen cs1 cs2 m k : logs cs1 m -> logs cs2 k -> logs (cs1 ++ cs2) (m >>> k).
Proof.
  intros Hm Hk s s' H. inv_ok H; destruct H as (s1 & H1 & H2).
  rewrite (Hk _ _ H2), (Hm _ _ H1), app_assoc. reflexivity.
Qed.

Lemma logs_return : logs [] (PetscFunctionReturn 0).
Proof. intros s s' H. inversion H. rewrite app_nil_r. reflexivity. Qed.

Lemma logs_ptop_plans c f : logs [c] (ptop_plans c f).
Proof.
  intros s s' H. unfold ptop_plans in H.
  destruct (todata (ctx s)); try discriminate.
  destruct (fromdata (ctx s)); try discriminate.
  inversion H; reflexivity.
Qed.

Lemma logs_destroy_from_plan E : logs [Call_VecScatterMemcpyPlanDestroy] (destroy_from_plan E).
Proof.
  intros s s' H. unfold destroy_from_plan in H.
  destruct (fromdata (ctx s)); try discriminate. inversion H; reflexivity.
Qed.

Lemma logs_destroy_to_plan E : logs [Call_VecScatterMemcpyPlanDestroy] (destroy_to_plan E).
Proof.
  intros s s' H. unfold destroy_to_plan in H.
  destruct (todata (ctx s)); try discriminate. inversion H; reflexivity.
Qed.

Lemma logs_create_index_plan E :
  logs [Call_VecScatterMemcpyPlanCreate_Index] (create_index_plan E).
Proof.
  intros s s' H. unfold create_index_plan in H.
  destruct (fromdata (ctx s)); try discriminate. inversion H; reflexivity.
Qed.

Lemma logs_create_sgtosg_plan E :
  logs [Call_VecScatterMemcpyPlanCreate_SGToSG] (create_sgtosg_plan E).
Proof.
  intros s s' H. unfold create_sgtosg_plan in H.
  destruct (todata (ctx s)); try discriminate.
  destruct (fromdata (ctx s)); try discriminate.
  inversion H; reflexivity.
Qed.

(** The plan calls of the distributed branch, lines 334-335. *)
Lemma ptop_rebuild E s e s' :
  (ptop_plans Call_VecScatterMemcpyPlanDestroy_PtoP (VecScatterMemcpyPlanDestroy_PtoP E) ;;;
   ptop_plans Call_VecScatterMemcpyPlanCreate_PtoP (VecScatterMemcpyPlanCreate_PtoP E) ;;;
   PetscFunctionReturn 0) s = Some (e, s') ->
  erase_plans (todata (ctx s')) = erase_plans (todata (ctx s)) /\
  erase_plans (fromdata (ctx s')) = erase_plans (fromdata (ctx s)) /\
  (e = 0 -> calls s' = calls s ++ [Call_VecScatterMemcpyPlanDestroy_PtoP;
                                   Call_VecScatterMemcpyPlanCreate_PtoP]).
Proof.
  intros H.
  pose proof (keeps_data_CHKERRQ _ _ (keeps_data_ptop_plans _ _)
                (keeps_data_CHKERRQ _ _ (keeps_data_ptop_plans _ _)
                   (keeps_data_return 0)) s e s' H) as [Hto Hfrom].
  split; [exact Hto|]. split; [exact Hfrom|]. intros ->.
  apply (logs_CHKERRQ [_] [_] _ _ (logs_ptop_plans _ _)
           (logs_CHKERRQ [_] [] _ _ (logs_ptop_plans _ _) logs_return) s s' H).
Qed.

(** The plan calls of the sequential branch, lines 340-349. *)
Lemma seq_rebuild E to s e s' :
  todata (ctx s) = to ->
  match to with
  | SeqStride ssto =>
      if ss_step ssto =? 1 then
        destroy_from_plan E ;;; create_index_plan E ;;; PetscFunctionReturn 0
      else PetscFunctionReturn 0
  | SeqGeneral _ =>
      destroy_to_plan E ;;; destroy_from_plan E ;;; create_sgtosg_plan E ;;;
      PetscFunctionReturn 0
  | _ => PetscFunctionReturn 0
  end s = Some (e, s') ->
  erase_plans (todata (ctx s')) = erase_plans (todata (ctx s)) /\
  erase_plans (fromdata (ctx s')) = erase_plans (fromdata (ctx s)) /\
  (e = 0 -> calls s' = calls s ++ seq_plan_calls to).
Proof.
  intros Hto H. destruct to as [sgto|ssto|to|ta|ta]; simpl.
  - pose proof (keeps_data_CHKERRQ _ _ (keeps_data_destroy_to_plan E)
                  (keeps_data_CHKERRQ _ _ (keeps_data_destroy_from_plan E)
                     (keeps_data_CHKERRQ _ _ (keeps_data_create_sgtosg_plan E)
                        (keeps_data_return 0))) s e s' H) as [H1 H2].
    split; [exact H1|]. split; [exact H2|]. intros ->.
    apply (logs_CHKERRQ [_] [_; _] _ _ (logs_destroy_to_plan E)
             (logs_CHKERRQ [_] [_] _ _ (logs_destroy_from_plan E)
                (logs_CHKERRQ [_] [] _ _ (logs_create_sgtosg_plan E) logs_return)) s s' H).
  - destruct (ss_step ssto =? 1).
    + pose proof (keeps_data_CHKERRQ _ _ (keeps_data_destroy_from_plan E)
                    (keeps_data_CHKERRQ _ _ (keeps_data_create_index_plan E)
                       (keeps_data_return 0)) s e s' H) as [H1 H2].
      split; [exact H1|]. split; [exact H2|]. intros ->.
      apply (logs_CHKERRQ [_] [_] _ _ (logs_destroy_from_plan E)
               (logs_CHKERRQ [_] [] _ _ (logs_create_index_plan E) logs_return) s s' H).
    + inversion H; subst. rewrite app_nil_r. auto.
  - inversion H; subst. rewrite app_nil_r. auto.
  - inversion H; subst. rewrite app_nil_r. auto.
  - inversion H; subst. rewrite app_nil_r. auto.
Qed.

Lemma remapped_prefix_moves tm cnt a a' :
  remapped_prefix tm cnt a a' -> moves tm cnt a -> a' <> a.
Proof.
  intros (_ & _ & _ & Hin) (j & v & Hj & Hv & Hne) ->.
  apply Hne. rewrite <- (Hin j v Hj Hv). exact Hv.
Qed.

(** Lines 324-335: the distributed branch of the remapping step. *)
Lemma remap_to_mpi_inv E tm s sa to :
  todata (ctx s) = MPIGeneral to ->
  remap_to E tm s = Some (0, sa) ->
  exists bound ind vs,
    array_get (mg_starts to) (mg_n to) = Some bound /\
    remapped_prefix tm (Z.to_nat bound) (mg_indices to) ind /\
    remapped_prefix tm (Z.to_nat (sg_n (mg_local to))) (sg_vslots (mg_local to)) vs /\
    erase_plans (todata (ctx sa)) = erase_plans (MPIGeneral (mg_with_indices ind vs to)) /\
    erase_plans (fromdata (ctx sa)) = erase_plans (fromdata (ctx s)) /\
    calls sa = calls s ++ [Call_VecScatterMemcpyPlanDestroy_PtoP;
                           Call_VecScatterMemcpyPlanCreate_PtoP].
Proof.
  intros Hto H. unfold remap_to in H. rewrite Hto in H.
  destruct (array_get (mg_starts to) (mg_n to)) as [bound|]; [|discriminate].
  destruct (remap_loop tm (Z.to_nat bound) 0 (mg_indices to)) as [ind|] eqn:Hind;
    [|discriminate].
  destruct (remap_loop tm (Z.to_nat (sg_n (mg_local to))) 0 (sg_vslots (mg_local to)))
    as [vs|] eqn:Hvs; [|discriminate].
  inv_ok H; destruct H as (s1 & Hu & H).
  unfold update in Hu. inversion Hu; subst s1; clear Hu.
  apply ptop_rebuild in H as (H1 & H2 & H3). simpl in H1, H2, H3.
  exists bound, ind, vs. split; [reflexivity|].
  split; [apply remap_loop_prefix; exact Hind|].
  split; [apply remap_loop_prefix; exact Hvs|].
  split; [exact H1|]. split; [exact H2|]. apply H3. reflexivity.
Qed.

(** Lines 336-349: the sequential branch of the remapping step. *)
Lemma remap_to_seq_inv E tm s sa sgfrom :
  fromdata (ctx s) = SeqGeneral sgfrom ->
  format (todata (ctx s)) <> VEC_SCATTER_MPI_TOALL ->
  format (todata (ctx s)) <> VEC_SCATTER_MPI_GENERAL ->
  remap_to E tm s = Some (0, sa) ->
  exists vs,
    remapped_prefix tm (Z.to_nat (sg_n sgfrom)) (sg_vslots sgfrom) vs /\
    erase_plans (fromdata (ctx sa)) = erase_plans (SeqGeneral (sg_with_vslots vs sgfrom)) /\
    erase_plans (todata (ctx sa)) = erase_plans (todata (ctx s)) /\
    calls sa = calls s ++ seq_plan_calls (todata (ctx s)).
Proof.
  intros Hfrom Hta Hmg H.
  assert (exists vs,
            remap_loop tm (Z.to_nat (sg_n sgfrom)) 0 (sg_vslots sgfrom) = Some vs /\
            (update (set_fromdata (SeqGeneral (sg_with_vslots vs sgfrom))) >>>
             match todata (ctx s) with
             | SeqStride ssto =>
                 if ss_step ssto =? 1 then
                   destroy_from_plan E ;;; create_index_plan E ;;; PetscFunctionReturn 0
                 else PetscFunctionReturn 0
             | SeqGeneral _ =>
                 destroy_to_plan E ;;; destroy_from_plan E ;;; create_sgtosg_plan E ;;;
                 PetscFunctionReturn 0
             | _ => PetscFunctionReturn 0
             end) s = Some (0, sa)) as (vs & Hvs & Hrun).
  { unfold remap_to in H. rewrite Hfrom in H.
    destruct (todata (ctx s)); simpl in Hta, Hmg; try contradiction;
      (destruct (remap_loop tm (Z.to_nat (sg_n sgfrom)) 0 (sg_vslots sgfrom)) as [vs|];
       [|discriminate]); exists vs; (split; [reflexivity | exact H]). }
  inv_ok Hrun; destruct Hrun as (s1 & Hu & Hrun).
  unfold update in Hu. inversion Hu; subst s1; clear Hu.
  eapply seq_rebuild in Hrun as (H1 & H2 & H3); [|reflexivity]. simpl in H1, H2, H3.
  exists vs. split; [apply remap_loop_prefix; exact Hvs|].
  split; [exact H2|]. split; [exact H1|]. apply H3. reflexivity.
Qed.

(** C10, as the code has it.  When the toMap step completes, Remap with
    both maps non-null returns the not-supported error on the state that
    step left, and the declared sizes keep their values (they are not set to
    -1).  For distributed-general to-data the step has sent the first
    [starts[n]] message-block indices and the first [local.n] local slots of
    the to-data through toMap and has destroyed and recreated the plans.  In
    the sequential case (to-data not distributed, from-data local-general) it
    is the slot list of the from-data that has been sent through toMap, the
    to-data keeping its indices, with the plan calls of that branch.  In both
    cases the context differs from the one before the call as soon as toMap
    changes one of the rewritten entries. *)
Theorem remap_rewrites_before_frommap_error E tm fm s sa :
  remap_to E tm s = Some (0, sa) ->
  VecScatterRemap E (Some tm) (Some fm) s
  = Some (PETSC_ERR_SUP, record from_unsupported sa) /\
  to_n (ctx sa) = to_n (ctx s) /\
  from_n (ctx sa) = from_n (ctx s) /\
  (forall to,
     todata (ctx s) = MPIGeneral to ->
     exists bound ind vs,
       array_get (mg_starts to) (mg_n to) = Some bound /\
       remapped_prefix tm (Z.to_nat bound) (mg_indices to) ind /\
       remapped_prefix tm (Z.to_nat (sg_n (mg_local to))) (sg_vslots (mg_local to)) vs /\
       erase_plans (todata (ctx sa)) = erase_plans (MPIGeneral (mg_with_indices ind vs to)) /\
       erase_plans (fromdata (ctx sa)) = erase_plans (fromdata (ctx s)) /\
       calls sa = calls s ++ [Call_VecScatterMemcpyPlanDestroy_PtoP;
                              Call_VecScatterMemcpyPlanCreate_PtoP] /\
       (moves tm (Z.to_nat bound) (mg_indices to) -> ctx sa <> ctx s)) /\
  (forall sgfrom,
     fromdata (ctx s) = SeqGeneral sgfrom ->
     format (todata (ctx s)) <> VEC_SCATTER_MPI_TOALL ->
     format (todata (ctx s)) <> VEC_SCATTER_MPI_GENERAL ->
     exists vs,
       remapped_prefix tm (Z.to_nat (sg_n sgfrom)) (sg_vslots sgfrom) vs /\
       erase_plans (fromdata (ctx sa)) = erase_plans (SeqGeneral (sg_with_vslots vs sgfrom)) /\
       erase_plans (todata (ctx sa)) = erase_plans (todata (ctx s)) /\
       calls sa = calls s ++ seq_plan_calls (todata (ctx s)) /\
       (moves tm (Z.to_nat (sg_n sgfrom)) (sg_vslots sgfrom) -> ctx sa <> ctx s)).
Proof.
  intros H.
  pose proof (remap_to_keeps_header E tm s 0 sa H) as Hh. unfold header in Hh.
  assert (to_n (ctx sa) = to_n (ctx s)) as Htn by (injection Hh; intros; assumption).
  assert (from_n (ctx sa) = from_n (ctx s)) as Hfn by (injection Hh; intros; assumption).
  clear Hh.
  split; [|split; [exact Htn|split; [exact Hfn|split]]].
  - rewrite remap_with_frommap. simpl. rewrite H. reflexivity.
  - intros to Hto.
    destruct (remap_to_mpi_inv E tm s sa to Hto H)
      as (bound & ind & vs & Hb & Hind & Hvs & H1 & H2 & H3).
    exists bound, ind, vs. repeat (split; [assumption|]).
    intros Hmv Heq. rewrite Heq, Hto in H1. simpl in H1.
    inversion H1 as [Hi']. symmetry in Hi'.
    exact (remapped_prefix_moves _ _ _ _ Hind Hmv Hi').
  - intros sgfrom Hfrom Hta Hmg.
    destruct (remap_to_seq_inv E tm s sa sgfrom Hfrom Hta Hmg H)
      as (vs & Hvs & H1 & H2 & H3).
    exists vs. repeat (split; [assumption|]).
    intros Hmv Heq. rewrite Heq, Hfrom in H1. simpl in H1.
    inversion H1 as [Hi']. symmetry in Hi'.
    exact (remapped_prefix_moves _ _ _ _ Hvs Hmv Hi').
Qed.

Lemma remap_rewrites_before_frommap_error_witness :
  VecScatterRemap (Example.env true false None) (Some [9; 8; 7; 6; 5; 4; 3; 2; 1; 0])
    (Some [0; 1; 2]) (Example.start Example.mpi_ctx)
  = Some (PETSC_ERR_SUP, record from_unsupported Example.remapped_mpi) /\
  to_n (ctx Example.remapped_mpi) = 10 /\
  from_n (ctx Example.remapped_mpi) = 10 /\
  ctx Example.remapped_mpi <> Example.mpi_ctx.
Proof.
  destruct (remap_rewrites_before_frommap_error (Example.env true false None)
              [9; 8; 7; 6; 5; 4; 3; 2; 1; 0] [0; 1; 2]
              (Example.start Example.mpi_ctx) Example.remapped_mpi)
    as (H1 & H2 & H3 & H4 & _).
  - by_computation.
  - split; [exact H1|]. split; [exact H2|]. split; [exact H3|].
    destruct (H4 Example.two_peers eq_refl) as (bound & ind & vs & Hb & _ & _ & _ & _ & _ & Hmv).
    apply Hmv. inversion Hb; subst bound.
    exists 0%nat, 4. split; [simpl; lia|]. split; [reflexivity | discriminate].
Defined.

(** C10 as stated fails on the to-side: on a general-to-general pair, Remap
    with both maps non-null raises the not-supported error after rewriting
    the slots of the from-data; the slots of the to-data are as before.  And
    with local-general to-data paired with an identity stride, a toMap that
    swaps two positions is refused with the size/argument error and nothing
    is rewritten. *)
Lemma remap_rewrites_from_data_not_to_data :
  todata Example.general_pair_ctx = Example.general [0; 1; 2] /\
  VecScatterRemap (Example.env true false None) (Some [2; 0; 1]) (Some [0; 1; 2])
    (Example.start Example.general_pair_ctx)
  = Some (PETSC_ERR_SUP,
          {| ctx := Example.context 3 3 false false 1
                      (SeqGeneral {| sg_n := 3; sg_vslots := [0; 1; 2];
                                     sg_memcpy_plan := Example.one_run 3 |})
                      (SeqGeneral {| sg_n := 3; sg_vslots := [2; 0; 1];
                                     sg_memcpy_plan := Example.one_run 3 |});
             calls := [Call_VecScatterMemcpyPlanDestroy; Call_VecScatterMemcpyPlanDestroy;
                       Call_VecScatterMemcpyPlanCreate_SGToSG; from_unsupported] |}) /\
  todata (Example.stride_from_ctx 0 1) = Example.general [0; 1; 2] /\
  VecScatterRemap (Example.env true false None) (Some [1; 0; 2]) (Some [0; 1; 2])
    (Example.start (Example.stride_from_ctx 0 1))
  = Some (PETSC_ERR_ARG_SIZ,
          {| ctx := Example.stride_from_ctx 0 1;
             calls := [Call_PetscError PETSC_ERR_ARG_SIZ
                         "Unable to remap such scatters" []] |}).
Proof. repeat split; by_computation. Qed.

(** ** Destroy *)

Lemma logs_call_op c f : logs [c] (call_op c f).
Proof. intros s s' H. inversion H; reflexivity. Qed.

Lemma logs_call_on c (f : VecScatter -> Z) : logs [c] (fun s => call c (f (ctx s)) s).
Proof. intros s s' H. inversion H; reflexivity. Qed.

Lemma release_logs E : logs (release_calls E) (release E).
Proof.
  unfold release, release_calls.
  apply logs_CHKERRQ; [apply logs_call_on|].
  apply logs_CHKERRQ.
  { destruct (ops_destroy (ops E)); [apply logs_call_op | apply logs_return]. }
  apply logs_CHKERRQ.
  { destruct (PETSC_HAVE_CUDA E); [apply logs_call_op | apply logs_return]. }
  apply (logs_CHKERRQ [_] []); [apply logs_call_on | apply logs_return].
Qed.

Lemma CHKERRQ_returns (m k : Petsc) :
  (forall s, exists e s', m s = Some (e, s')) ->
  (forall s, exists e s', k s = Some (e, s')) ->
  forall s, exists e s', (m ;;; k) s = Some (e, s').
Proof.
  intros Hm Hk s. unfold CHKERRQ. destruct (Hm s) as (e & s1 & ->).
  destruct (e =? 0); [apply Hk | eauto].
Qed.

Lemma release_returns E s : exists e s', release E s = Some (e, s').
Proof.
  revert s. unfold release.
  apply CHKERRQ_returns; [intros s; unfold call; eauto|].
  apply CHKERRQ_returns.
  { destruct (ops_destroy (ops E)); intros s; unfold call_op, PetscFunctionReturn; eauto. }
  apply CHKERRQ_returns.
  { destruct (PETSC_HAVE_CUDA E); intros s; unfold call_op, PetscFunctionReturn; eauto. }
  apply CHKERRQ_returns; intros s; unfold call, PetscFunctionReturn; eauto.
Qed.

Lemma release_ok E s : release_succeeds E -> exists s', release E s = Some (0, s').
Proof.
  intros (Hsaws & Hd & Hcuda & Hhd). unfold release. run_petsc.
  rewrite Hsaws. simpl.
  destruct (ops_destroy (ops E)) as [d|] eqn:Hops; simpl.
  - rewrite (Hd d eq_refl). simpl.
    destruct (PETSC_HAVE_CUDA E); simpl.
    + rewrite Hcuda. simpl. rewrite Hhd. simpl. eauto.
    + rewrite Hhd. simpl. eauto.
  - destruct (PETSC_HAVE_CUDA E); simpl.
    + rewrite Hcuda. simpl. rewrite Hhd. simpl. eauto.
    + rewrite Hhd. simpl. eauto.
Qed.

Lemma decrement_other r : r <> PETSC_MIN_INT -> decrement r = r - 1.
Proof.
  intros H. unfold decrement.
  destruct (Z.eqb_spec r PETSC_MIN_INT); [contradiction | reflexivity].
Qed.

Lemma decrement_above r : PETSC_MIN_INT < r -> decrement r = r - 1.
Proof. intros H. apply decrement_other. lia. Qed.




(** ** Device preparation *)

Lemma insert_unique_In v l u : In u (insert_unique v l) <-> u = v \/ In u l.
Proof.
  induction l as [|h t IH]; simpl.
  - intuition.
  - destruct (Z.ltb_spec v h); [simpl; intuition|].
    destruct (Z.eqb_spec v h) as [->|Hne]; simpl; [intuition|].
    rewrite IH. intuition.
Qed.

Lemma insert_unique_sorted v l :
  StronglySorted Z.lt l -> StronglySorted Z.lt (insert_unique v l).
Proof.
  induction l as [|h t IH]; simpl; intros Hs.
  - constructor; constructor.
  - inversion Hs as [|? ? Ht Hall]; subst.
    destruct (Z.ltb_spec v h) as [Hlt|Hge].
    + constructor; [exact Hs|]. constructor; [exact Hlt|].
      rewrite List.Forall_forall in Hall |- *. intros u Hu. specialize (Hall u Hu). lia.
    + destruct (Z.eqb_spec v h) as [->|Hne]; [exact Hs|].
      constructor; [apply IH; exact Ht|].
      rewrite List.Forall_forall in Hall |- *. intros u Hu.
      apply insert_unique_In in Hu as [->|Hu]; [lia | apply Hall; exact Hu].
Qed.

Lemma PetscSortRemoveDupsInt_In a u : In u (PetscSortRemoveDupsInt a) <-> In u a.
Proof.
  unfold PetscSortRemoveDupsInt. induction a as [|h t IH]; simpl; [tauto|].
  rewrite insert_unique_In, IH. intuition.
Qed.

Lemma PetscSortRemoveDupsInt_sorted a : StronglySorted Z.lt (PetscSortRemoveDupsInt a).
Proof.
  unfold PetscSortRemoveDupsInt. induction a as [|h t IH]; simpl.
  - constructor.
  - apply insert_unique_sorted. exact IH.
Qed.

Lemma strictly_sorted_NoDup (l : list Z) : StronglySorted Z.lt l -> List.NoDup l.
Proof.
  induction 1 as [|h t Ht IH Hall]; constructor; [|exact IH].
  intros Hin. rewrite List.Forall_forall in Hall. specialize (Hall h Hin). lia.
Qed.

Lemma block_expand_In bs t j :
  In j (block_expand bs t) <-> exists v k, In v t /\ 0 <= k < bs /\ j = v + k.
Proof.
  unfold block_expand, block_of. rewrite in_flat_map. split.
  - intros (v & Hv & Hj). apply in_map_iff in Hj as (k & <- & Hk).
    apply in_seq in Hk. exists v, (Z.of_nat k). split; [exact Hv|]. split; lia.
  - intros (v & k & Hv & Hk & ->). exists v. split; [exact Hv|].
    apply in_map_iff. exists (Z.to_nat k). split; [lia|]. apply in_seq. lia.
Qed.

Lemma copy_prefix_in_range a n :
  0 <= n <= Z.of_nat (length a) -> copy_prefix a n = Some (take (Z.to_nat n) a).
Proof.
  intros Hn. unfold copy_prefix.
  destruct (Z.ltb_spec n 0); [lia|]. destruct (Z.ltb_spec (Z.of_nat (length a)) n); [lia|].
  reflexivity.
Qed.

Lemma block_of_length bs v : length (block_of bs v) = Z.to_nat bs.
Proof. unfold block_of. rewrite length_map, length_seq. reflexivity. Qed.

(** [block_expand] is the buffer the two nested loops fill: entry [i*bs+k]
    holds [t[i]+k]. *)
Lemma block_expand_lookup bs t : forall i k v,
  t !! i = Some v -> (k < Z.to_nat bs)%nat ->
  block_expand bs t !! (i * Z.to_nat bs + k)%nat = Some (v + Z.of_nat k).
Proof.
  induction t as [|h t IH]; intros i k v Hi Hk; [discriminate|].
  unfold block_expand. simpl. fold (block_expand bs t).
  destruct i as [|i]; simpl in Hi.
  - inversion Hi; subst h. simpl. rewrite lookup_app_l by (rewrite block_of_length; lia).
    unfold block_of. rewrite list_lookup_fmap, lookup_seq_lt by lia. reflexivity.
  - rewrite lookup_app_r by (rewrite block_of_length; lia).
    rewrite block_of_length.
    replace (S i * Z.to_nat bs + k - Z.to_nat bs)%nat with (i * Z.to_nat bs + k)%nat by lia.
    apply IH; assumption.
Qed.

(** The run of lines 468-497 when the utilities report no error: the code is
    the one the device layer returned. *)
Lemma create_indices_run E to from s ns nr :
  buffers_succeed E ->
  array_get (mg_starts to) (mg_n to) = Some ns ->
  0 <= ns <= Z.of_nat (length (mg_indices to)) ->
  array_get (mg_starts from) (mg_n from) = Some nr ->
  0 <= nr <= Z.of_nat (length (mg_indices from)) ->
  let tS := PetscSortRemoveDupsInt (take (Z.to_nat ns) (mg_indices to)) in
  let tR := PetscSortRemoveDupsInt (take (Z.to_nat nr) (mg_indices from)) in
  let r := VecScatterCUDAIndicesCreate_PtoP E
             (Z.of_nat (length tS) * mg_bs to) (block_expand (mg_bs to) tS)
             (Z.of_nat (length tR) * mg_bs from) (block_expand (mg_bs from) tR) in
  create_indices E to from s
  = Some (r.1,
          {| ctx := set_spptr r.2 (ctx s);
             calls := calls s ++
               buffer_calls ns nr (mg_bs to * Z.of_nat (length tS))
                 (mg_bs from * Z.of_nat (length tR)) ++
               [Call_VecScatterCUDAIndicesCreate_PtoP
                  (Z.of_nat (length tS) * mg_bs to) (block_expand (mg_bs to) tS)
                  (Z.of_nat (length tR) * mg_bs from) (block_expand (mg_bs from) tR)] ++
               after_mirror r.1 |}).
Proof.
  intros (HM & HC & HS & HF) Hns Hnsr Hnr Hnrr tS tR r.
  unfold create_indices. rewrite Hns, Hnr. cbn [defined].
  rewrite !call_ok by apply HM.
  rewrite (copy_prefix_in_range _ _ Hnsr). cbn [defined].
  rewrite call_ok by apply HC.
  rewrite (copy_prefix_in_range _ _ Hnrr). cbn [defined].
  rewrite call_ok by apply HC.
  rewrite !call_ok by apply HS. cbv zeta.
  rewrite !call_ok by apply HM.
  rewrite !call_ok by apply HF.
  fold tS tR.
  unfold CHKERRQ at 1. unfold create_mirror. fold r. cbn [record ctx calls].
  unfold after_mirror. destruct (Z.eqb_spec r.1 0) as [He|He].
  - rewrite !call_ok by apply HF. unfold PetscFunctionReturn, record, buffer_calls.
    cbn [ctx calls]. rewrite <- !app_assoc, He. reflexivity.
  - unfold record, buffer_calls. cbn [ctx calls]. rewrite <- !app_assoc. reflexivity.
Qed.

(** A first call on a distributed-general pair is the run of lines 468-497. *)
Lemma initialize_for_gpu_first_call E x mode s to from :
  (if is_reverse mode then fromdata (ctx s) else todata (ctx s)) = MPIGeneral to ->
  (if is_reverse mode then todata (ctx s) else fromdata (ctx s)) = MPIGeneral from ->
  valid_GPU_array x <> PETSC_OFFLOAD_UNALLOCATED ->
  0 < mg_n to \/ 0 < mg_n from ->
  spptr (ctx s) = None ->
  VecScatterInitializeForGPU E x mode s = create_indices E to from s.
Proof.
  intros Hto Hfrom Hx Hn Hsp.
  unfold VecScatterInitializeForGPU, VecScatterIsSequential_Private.
  assert (format (todata (ctx s)) = VEC_SCATTER_MPI_GENERAL /\
          format (fromdata (ctx s)) = VEC_SCATTER_MPI_GENERAL) as [Hft Hff].
  { destruct (is_reverse mode); rewrite Hto, Hfrom; split; reflexivity. }
  rewrite Hft, Hff. cbn [snd orb]. rewrite Hto, Hfrom, Hsp.
  assert (negb (offload_unallocated (valid_GPU_array x)) = true) as ->.
  { destruct (valid_GPU_array x); [contradiction| | |]; reflexivity. }
  assert ((0 <? mg_n to) || (0 <? mg_n from) = true) as ->.
  { destruct (Z.ltb_spec 0 (mg_n to)), (Z.ltb_spec 0 (mg_n from)); simpl; auto; lia. }
  reflexivity.
Qed.

Lemma send_buffers_app cs1 cs2 :
  send_buffers (cs1 ++ cs2) = send_buffers cs1 ++ send_buffers cs2.
Proof. unfold send_buffers. apply flat_map_app. Qed.

Lemma send_buffers_after_mirror e : send_buffers (after_mirror e) = [].
Proof. unfold after_mirror. destruct (e =? 0); reflexivity. Qed.

(** Once the mirror is there, later calls do nothing. *)
Lemma initialize_for_gpu_cached E x mode s to from p :
  (if is_reverse mode then fromdata (ctx s) else todata (ctx s)) = MPIGeneral to ->
  (if is_reverse mode then todata (ctx s) else fromdata (ctx s)) = MPIGeneral from ->
  spptr (ctx s) = Some p ->
  VecScatterInitializeForGPU E x mode s = Some (0, s).
Proof.
  intros Hto Hfrom Hsp.
  unfold VecScatterInitializeForGPU, VecScatterIsSequential_Private.
  assert (format (todata (ctx s)) = VEC_SCATTER_MPI_GENERAL /\
          format (fromdata (ctx s)) = VEC_SCATTER_MPI_GENERAL) as [Hft Hff].
  { destruct (is_reverse mode); rewrite Hto, Hfrom; split; reflexivity. }
  rewrite Hft, Hff. cbn [snd orb]. rewrite Hto, Hfrom, Hsp.
  destruct (_ && _); reflexivity.
Qed.

(** C8, as the code has it.  On a context whose two sides (taken in the
    given direction) are distributed-general, with a source vector that has
    device data, at least one peer and no mirror yet, and when the
    allocations, copies, sorts and frees of the work arrays report no error,
    InitializeForDevice reaches the device layer and hands it one send
    buffer: the first [starts[n]] to-side message-block indices, sorted with
    duplicates removed, each expanded into [bs] consecutive component
    indices.  Its entries are exactly the numbers [v + k] with [v] one of
    those message-block indices and [0 <= k < bs]; the to-side local slots
    play no part.  The code returned is the one the device layer returned. *)
Theorem initialize_for_gpu_send_indices E x mode s to from ns nr :
  (if is_reverse mode then fromdata (ctx s) else todata (ctx s)) = MPIGeneral to ->
  (if is_reverse mode then todata (ctx s) else fromdata (ctx s)) = MPIGeneral from ->
  valid_GPU_array x <> PETSC_OFFLOAD_UNALLOCATED ->
  0 < mg_n to \/ 0 < mg_n from ->
  spptr (ctx s) = None ->
  array_get (mg_starts to) (mg_n to) = Some ns ->
  0 <= ns <= Z.of_nat (length (mg_indices to)) ->
  array_get (mg_starts from) (mg_n from) = Some nr ->
  0 <= nr <= Z.of_nat (length (mg_indices from)) ->
  buffers_succeed E ->
  exists e s',
    VecScatterInitializeForGPU E x mode s = Some (e, s') /\
    e = (VecScatterCUDAIndicesCreate_PtoP E
           (Z.of_nat (length (PetscSortRemoveDupsInt (take (Z.to_nat ns) (mg_indices to))))
            * mg_bs to)
           (block_expand (mg_bs to)
              (PetscSortRemoveDupsInt (take (Z.to_nat ns) (mg_indices to))))
           (Z.of_nat (length (PetscSortRemoveDupsInt (take (Z.to_nat nr) (mg_indices from))))
            * mg_bs from)
           (block_expand (mg_bs from)
              (PetscSortRemoveDupsInt (take (Z.to_nat nr) (mg_indices from))))).1 /\
    send_buffers (calls s')
    = send_buffers (calls s) ++
      [block_expand (mg_bs to)
         (PetscSortRemoveDupsInt (take (Z.to_nat ns) (mg_indices to)))] /\
    StronglySorted Z.lt (PetscSortRemoveDupsInt (take (Z.to_nat ns) (mg_indices to))) /\
    List.NoDup (PetscSortRemoveDupsInt (take (Z.to_nat ns) (mg_indices to))) /\
    forall j,
      In j (block_expand (mg_bs to)
              (PetscSortRemoveDupsInt (take (Z.to_nat ns) (mg_indices to)))) <->
      exists v k, In v (take (Z.to_nat ns) (mg_indices to)) /\ 0 <= k < mg_bs to /\ j = v + k.
Proof.
  intros Hto Hfrom Hx Hn Hsp Hns Hnsr Hnr Hnrr Hok.
  pose proof (initialize_for_gpu_first_call E x mode s to from Hto Hfrom Hx Hn Hsp) as Heq.
  pose proof (create_indices_run E to from s ns nr Hok Hns Hnsr Hnr Hnrr) as Hrun.
  cbv zeta in Hrun.
  eexists _, _. split; [rewrite Heq; exact Hrun|]. split; [reflexivity|]. cbn [calls].
  split.
  { rewrite !send_buffers_app, send_buffers_after_mirror. reflexivity. }
  split; [apply PetscSortRemoveDupsInt_sorted|].
  split; [apply strictly_sorted_NoDup, PetscSortRemoveDupsInt_sorted|].
  intros j. rewrite block_expand_In. split.
  - intros (v & k & Hv & Hk). exists v, k. rewrite PetscSortRemoveDupsInt_In in Hv. tauto.
  - intros (v & k & Hv & Hk). exists v, k. rewrite PetscSortRemoveDupsInt_In. tauto.
Qed.

Lemma example_buffers_succeed debug cuda end_op :
  buffers_succeed (Example.env debug cuda end_op).
Proof. repeat split. Qed.

Lemma initialize_for_gpu_send_indices_witness :
  exists e s',
    VecScatterInitializeForGPU (Example.env true true None) (Example.gpu_vec 10)
      SCATTER_FORWARD (Example.start Example.mpi_ctx) = Some (e, s') /\
    e = (VecScatterCUDAIndicesCreate_PtoP (Example.env true true None)
           (Z.of_nat (length (PetscSortRemoveDupsInt (take (Z.to_nat 5) [4; 2; 4; 7; 2]))) * 1)
           (block_expand 1 (PetscSortRemoveDupsInt (take (Z.to_nat 5) [4; 2; 4; 7; 2])))
           (Z.of_nat (length (PetscSortRemoveDupsInt (take (Z.to_nat 2) [1; 0]))) * 1)
           (block_expand 1 (PetscSortRemoveDupsInt (take (Z.to_nat 2) [1; 0])))).1 /\
    send_buffers (calls s')
    = send_buffers [] ++
      [block_expand 1 (PetscSortRemoveDupsInt (take (Z.to_nat 5) [4; 2; 4; 7; 2]))] /\
    StronglySorted Z.lt (PetscSortRemoveDupsInt (take (Z.to_nat 5) [4; 2; 4; 7; 2])) /\
    List.NoDup (PetscSortRemoveDupsInt (take (Z.to_nat 5) [4; 2; 4; 7; 2])) /\
    forall j,
      In j (block_expand 1 (PetscSortRemoveDupsInt (take (Z.to_nat 5) [4; 2; 4; 7; 2]))) <->
      exists v k, In v (take (Z.to_nat 5) [4; 2; 4; 7; 2]) /\ 0 <= k < 1 /\ j = v + k.
Proof.
  apply (initialize_for_gpu_send_indices (Example.env true true None) (Example.gpu_vec 10)
           SCATTER_FORWARD (Example.start Example.mpi_ctx)
           Example.two_peers Example.recv_side 5 2).
  - reflexivity.
  - reflexivity.
  - discriminate.
  - left. reflexivity.
  - reflexivity.
  - reflexivity.
  - simpl. lia.
  - reflexivity.
  - simpl. lia.
  - repeat split.
Defined.

(** C8 as stated fails: with two peers, starts = [0,2,5], message-block
    indices 4, 2, 4, 7, 2 and the local slot 9, the send buffer is [2,4,7]:
    the local slot is not in it. *)
Lemma send_buffer_leaves_out_local_slots :
  mg_starts Example.two_peers = [0; 2; 5] /\
  sg_vslots (mg_local Example.two_peers) = [9] /\
  VecScatterInitializeForGPU (Example.env true true None) (Example.gpu_vec 10)
    SCATTER_FORWARD (Example.start Example.mpi_ctx)
  = Some (0, {| ctx := set_spptr (Some {| ci_ns := 3; ci_sendIndices := [2; 4; 7];
                                          ci_nr := 2; ci_recvIndices := [0; 1] |})
                         Example.mpi_ctx;
                calls := [Call_PetscMalloc1 tindicesSends 5; Call_PetscMalloc1 tindicesRecvs 2;
                          Call_PetscMemcpy tindicesSends 5; Call_PetscMemcpy tindicesRecvs 2;
                          Call_PetscSortRemoveDupsInt tindicesSends;
                          Call_PetscSortRemoveDupsInt tindicesRecvs;
                          Call_PetscMalloc1 sindicesSends 3; Call_PetscMalloc1 sindicesRecvs 2;
                          Call_PetscFree tindicesSends; Call_PetscFree tindicesRecvs;
                          Call_VecScatterCUDAIndicesCreate_PtoP 3 [2; 4; 7] 2 [0; 1];
                          Call_PetscFree sindicesSends; Call_PetscFree sindicesRecvs] |}) /\
  send_buffers
    [Call_PetscMalloc1 tindicesSends 5; Call_PetscMalloc1 tindicesRecvs 2;
     Call_PetscMemcpy tindicesSends 5; Call_PetscMemcpy tindicesRecvs 2;
     Call_PetscSortRemoveDupsInt tindicesSends; Call_PetscSortRemoveDupsInt tindicesRecvs;
     Call_PetscMalloc1 sindicesSends 3; Call_PetscMalloc1 sindicesRecvs 2;
     Call_PetscFree tindicesSends; Call_PetscFree tindicesRecvs;
     Call_VecScatterCUDAIndicesCreate_PtoP 3 [2; 4; 7] 2 [0; 1];
     Call_PetscFree sindicesSends; Call_PetscFree sindicesRecvs]
  = [[2; 4; 7]] /\
  ~ In 9 [2; 4; 7].
Proof.
  repeat split; try by_computation.
  simpl. intros [H|[H|[H|[]]]]; discriminate.
Qed.

(** * Further properties of the interface *)

(** ** The Begin/End protocol *)

Lemma begin_passes_check E x y addv mode s :
  inuse (ctx s) = false ->
  (PETSC_USE_DEBUG E = true -> check_sizes x y mode s = Some (0, s)) ->
  VecScatterBegin E x y addv mode s = begin_phase E x y addv mode s.
Proof.
  intros Hfree Hchk. rewrite begin_not_in_use by exact Hfree.
  destruct (PETSC_USE_DEBUG E).
  - apply andthen_ok. apply Hchk. reflexivity.
  - reflexivity.
Qed.

Lemma begin_rejected_in_use E x y addv mode s :
  inuse (ctx s) = true ->
  VecScatterBegin E x y addv mode s
  = Some (PETSC_ERR_ARG_WRONGSTATE,
          record (Call_PetscError PETSC_ERR_ARG_WRONGSTATE " Scatter ctx already in use" []) s).
Proof. intros H. unfold VecScatterBegin. rewrite H. reflexivity. Qed.

(** X1. A Begin whose backend begin-phase fails returns that error, through
    the error handler (entered by CHKERRQ with the code of the begin-phase),
    after the context was marked in use, and leaves it so (the closing log
    call and the end-phase are skipped): a second Begin is then refused with
    the wrong-state error, until an End clears the flag. *)
Theorem begin_backend_failure_leaves_in_use E x y addv mode s e :
  inuse (ctx s) = false ->
  (PETSC_USE_DEBUG E = true -> check_sizes x y mode s = Some (0, s)) ->
  PetscLogEventBegin E VEC_ScatterBegin = 0 ->
  keeps_flags (ops_begin (ops E)) ->
  (ops_begin (ops E) (set_inuse true (ctx s)) x y addv mode).1 = e ->
  e <> 0 ->
  exists s1,
    VecScatterBegin E x y addv mode s = Some (e, s1) /\
    inuse (ctx s1) = true /\
    calls s1 = calls s ++ [Call_PetscLogEventBegin VEC_ScatterBegin; Call_ops_begin;
                           Call_PetscErrorRepeat e] /\
    forall x' y' addv' mode',
      VecScatterBegin E x' y' addv' mode' s1
      = Some (PETSC_ERR_ARG_WRONGSTATE,
              record (Call_PetscError PETSC_ERR_ARG_WRONGSTATE
                        " Scatter ctx already in use" []) s1).
Proof.
  intros Hfree Hchk Hlog Hk He Hne.
  rewrite begin_passes_check by assumption.
  destruct (Hk (set_inuse true (ctx s)) x y addv mode) as [Hi _]. simpl in Hi.
  eexists. split.
  - unfold begin_phase.
    rewrite (andthen_ok _ _ s {| ctx := set_inuse true (ctx s); calls := calls s |})
      by reflexivity.
    rewrite call_ok by exact Hlog.
    apply CHKERRQ_err; [|exact Hne]. unfold call_op. cbn [ctx calls record].
    rewrite He. reflexivity.
  - cbn [ctx calls record]. split; [exact Hi|]. split.
    + rewrite <- !app_assoc. reflexivity.
    + intros x' y' addv' mode'. apply begin_rejected_in_use. exact Hi.
Qed.

Lemma begin_backend_failure_leaves_in_use_witness :
  exists s1,
    VecScatterBegin Scenario.failing_env (Example.vec 3) (Example.vec 3) INSERT_VALUES
      SCATTER_FORWARD (Example.start (Example.seq_ctx false false)) = Some (77, s1) /\
    inuse (ctx s1) = true /\
    calls s1 = [] ++ [Call_PetscLogEventBegin VEC_ScatterBegin; Call_ops_begin;
                      Call_PetscErrorRepeat 77] /\
    forall x' y' addv' mode',
      VecScatterBegin Scenario.failing_env x' y' addv' mode' s1
      = Some (PETSC_ERR_ARG_WRONGSTATE,
              record (Call_PetscError PETSC_ERR_ARG_WRONGSTATE
                        " Scatter ctx already in use" []) s1).
Proof.
  apply (begin_backend_failure_leaves_in_use Scenario.failing_env (Example.vec 3)
           (Example.vec 3) INSERT_VALUES SCATTER_FORWARD
           (Example.start (Example.seq_ctx false false)) 77).
  - reflexivity.
  - intros _. reflexivity.
  - reflexivity.
  - intros c x y addv mode. split; reflexivity.
  - reflexivity.
  - discriminate.
Defined.

Lemma end_runs_end_phase E x y addv mode s end_op :
  ops_end (ops E) = Some end_op ->
  beginandendtogether (ctx s) = false ->
  phases_succeed E ->
  VecScatterEnd E x y addv mode s
  = Some (0, {| ctx := (end_op (set_inuse false (ctx s)) x y addv mode).2;
                calls := calls s ++ [Call_PetscLogEventBegin VEC_ScatterEnd; Call_ops_end;
                                     Call_PetscLogEventEnd VEC_ScatterEnd] |}).
Proof.
  intros Hend Hm (HB & HE & _ & He). unfold VecScatterEnd. run_petsc.
  rewrite Hend, Hm. simpl. rewrite HB. simpl. rewrite (He end_op Hend). simpl.
  rewrite HE. simpl. rewrite <- !app_assoc. reflexivity.
Qed.

Lemma end_phase_runs_app cs1 cs2 :
  end_phase_runs (cs1 ++ cs2) = (end_phase_runs cs1 + end_phase_runs cs2)%nat.
Proof. unfold end_phase_runs. rewrite List.filter_app, length_app. reflexivity. Qed.

(** X2. One Begin/End cycle on a context that is not in use, with vectors
    that pass the size check and a backend that reports no error, returns
    success with the context not in use again, and has entered the backend's
    end-phase exactly once when the backend has one (inside Begin when the
    merge flag is set, inside End otherwise) and never when it has none. *)
Theorem scatter_cycle_runs_end_phase_once E x y addv mode s :
  backend_keeps_flags E ->
  phases_succeed E ->
  inuse (ctx s) = false ->
  (PETSC_USE_DEBUG E = true -> check_sizes x y mode s = Some (0, s)) ->
  exists s2,
    scatter E x y addv mode s = Some (0, s2) /\
    inuse (ctx s2) = false /\
    end_phase_runs (calls s2)
    = (end_phase_runs (calls s) +
       match ops_end (ops E) with Some _ => 1 | None => 0 end)%nat.
Proof.
  intros [Hkb Hke] Hok Hfree Hchk.
  destruct (begin_phase_succeeds E x y addv mode s Hok) as (s1 & Hb).
  pose proof (begin_phase_ok_inv E x y addv mode s s1 Hkb Hb) as Hinv. simpl in Hinv.
  destruct (Hkb (set_inuse true (ctx s)) x y addv mode) as [Hi1 Hm1]. simpl in Hi1, Hm1.
  unfold scatter. rewrite (CHKERRQ_ok _ _ s s1)
    by (rewrite begin_passes_check by assumption; exact Hb).
  destruct (ops_end (ops E)) as [end_op|] eqn:Hend.
  - destruct (beginandendtogether (ctx s)) eqn:Hm.
    + destruct Hinv as [Hc Hcalls].
      destruct (Hke end_op eq_refl
                  (set_inuse false
                     (ops_begin (ops E) (set_inuse true (ctx s)) x y addv mode).2)
                  x y addv mode) as [Hi2 Hm2].
      simpl in Hi2, Hm2. rewrite <- Hc in Hi2, Hm2.
      exists {| ctx := set_inuse false (ctx s1); calls := calls s1 |}.
      split; [|split].
      * rewrite (CHKERRQ_ok _ _ s1 {| ctx := set_inuse false (ctx s1); calls := calls s1 |});
          [reflexivity|].
        apply end_nothing_to_do. right. congruence.
      * reflexivity.
      * cbn [calls]. rewrite Hcalls, end_phase_runs_app. reflexivity.
    + destruct Hinv as [Hc Hcalls].
      assert (beginandendtogether (ctx s1) = false) as Hm' by congruence.
      pose proof (end_runs_end_phase E x y addv mode s1 end_op Hend Hm' Hok) as He.
      eexists. split; [|split].
      * rewrite (CHKERRQ_ok _ _ _ _ He). reflexivity.
      * cbn [ctx]. apply (Hke end_op eq_refl).
      * cbn [calls]. rewrite Hcalls, !end_phase_runs_app. unfold end_phase_runs. simpl. lia.
  - assert (ctx s1 = (ops_begin (ops E) (set_inuse true (ctx s)) x y addv mode).2 /\
            calls s1 = calls s ++ [Call_PetscLogEventBegin VEC_ScatterBegin; Call_ops_begin;
                                   Call_PetscLogEventEnd VEC_ScatterBegin]) as [Hc Hcalls].
    { exact Hinv. }
    exists {| ctx := set_inuse false (ctx s1); calls := calls s1 |}.
    split; [|split].
    + rewrite (CHKERRQ_ok _ _ s1 {| ctx := set_inuse false (ctx s1); calls := calls s1 |});
        [reflexivity|].
      apply end_nothing_to_do. left. exact Hend.
    + reflexivity.
    + cbn [calls]. rewrite Hcalls, end_phase_runs_app. reflexivity.
Qed.

Lemma scatter_cycle_runs_end_phase_once_witness :
  exists s2,
    scatter (Example.env true false (Some Example.phase_ok)) (Example.vec 3) (Example.vec 3)
      INSERT_VALUES SCATTER_FORWARD (Example.start (Example.seq_ctx false false))
    = Some (0, s2) /\
    inuse (ctx s2) = false /\
    end_phase_runs (calls s2) = (end_phase_runs [] + 1)%nat.
Proof.
  apply (scatter_cycle_runs_end_phase_once (Example.env true false (Some Example.phase_ok))
           (Example.vec 3) (Example.vec 3) INSERT_VALUES SCATTER_FORWARD
           (Example.start (Example.seq_ctx false false))).
  - apply example_keeps_flags. right. reflexivity.
  - apply example_phases_succeed. right. reflexivity.
  - reflexivity.
  - intros _. reflexivity.
Defined.

(** X3. With a backend that has no end-phase the merge flag changes nothing:
    a successful Begin returns with the context still in use, having made the
    two log calls and the begin-phase call, and it is End that clears the
    flag, without calling anything. *)
Theorem begin_without_end_phase_stays_in_use E x y addv mode s s1 :
  ops_end (ops E) = None ->
  keeps_flags (ops_begin (ops E)) ->
  VecScatterBegin E x y addv mode s = Some (0, s1) ->
  inuse (ctx s1) = true /\
  calls s1 = calls s ++ [Call_PetscLogEventBegin VEC_ScatterBegin; Call_ops_begin;
                         Call_PetscLogEventEnd VEC_ScatterBegin] /\
  forall x' y' addv' mode',
    VecScatterEnd E x' y' addv' mode' s1
    = Some (0, {| ctx := set_inuse false (ctx s1); calls := calls s1 |}).
Proof.
  intros Hend Hk H. apply begin_ok_inv in H as [_ H].
  pose proof (begin_phase_ok_inv E x y addv mode s s1 Hk H) as Hinv. simpl in Hinv.
  rewrite Hend in Hinv. destruct Hinv as [Hc Hcalls].
  destruct (Hk (set_inuse true (ctx s)) x y addv mode) as [Hi _]. simpl in Hi.
  split; [congruence|]. split; [exact Hcalls|].
  intros x' y' addv' mode'. apply end_nothing_to_do. left. exact Hend.
Qed.

Lemma begin_without_end_phase_stays_in_use_witness :
  inuse (Example.seq_ctx true true) = true /\
  VecScatterEnd (Example.env true false None) (Example.vec 3) (Example.vec 3)
    INSERT_VALUES SCATTER_FORWARD
    {| ctx := Example.seq_ctx true true;
       calls := [Call_PetscLogEventBegin VEC_ScatterBegin; Call_ops_begin;
                 Call_PetscLogEventEnd VEC_ScatterBegin] |}
  = Some (0, {| ctx := Example.seq_ctx false true;
                calls := [Call_PetscLogEventBegin VEC_ScatterBegin; Call_ops_begin;
                          Call_PetscLogEventEnd VEC_ScatterBegin] |}).
Proof.
  destruct (begin_without_end_phase_stays_in_use (Example.env true false None)
              (Example.vec 3) (Example.vec 3) INSERT_VALUES SCATTER_FORWARD
              (Example.start (Example.seq_ctx false true))
              {| ctx := Example.seq_ctx true true;
                 calls := [Call_PetscLogEventBegin VEC_ScatterBegin; Call_ops_begin;
                           Call_PetscLogEventEnd VEC_ScatterBegin] |})
    as (H1 & _ & H3).
  - reflexivity.
  - exact phase_ok_keeps_flags.
  - reflexivity.
  - split; [exact H1|]. apply H3.
Defined.

(** ** Reference counting *)

Lemma destroy_runs_release E c :
  inuse c && (refct c =? 1) = false -> refct c <= 1 -> refct c <> PETSC_MIN_INT ->
  exists e s',
    release E {| ctx := set_refct (refct c - 1) c; calls := [] |} = Some (e, s') /\
    VecScatterDestroy E (Some c)
    = if e =? 0 then
        {| d_code := 0; d_handle_null := true; d_object := None; d_calls := calls s' |}
      else
        {| d_code := e; d_handle_null := false; d_object := Some (ctx s');
           d_calls := calls s' |}.
Proof.
  intros Hlast Hr Hm.
  destruct (release_returns E {| ctx := set_refct (refct c - 1) c; calls := [] |})
    as (e & s' & Hrel).
  exists e, s'. split; [exact Hrel|].
  unfold VecScatterDestroy. rewrite Hlast. rewrite decrement_other by exact Hm.
  change (refct (set_refct (refct c - 1) c)) with (refct c - 1).
  destruct (Z.ltb_spec 0 (refct c - 1)); [lia|]. rewrite Hrel. reflexivity.
Qed.

Lemma destroy_shared E c :
  inuse c && (refct c =? 1) = false -> 0 < decrement (refct c) ->
  VecScatterDestroy E (Some c)
  = {| d_code := 0; d_handle_null := true;
       d_object := Some (set_refct (decrement (refct c)) c); d_calls := [] |}.
Proof.
  intros Hlast Hpos. unfold VecScatterDestroy. rewrite Hlast.
  change (refct (set_refct (decrement (refct c)) c)) with (decrement (refct c)).
  destruct (Z.ltb_spec 0 (decrement (refct c))); [reflexivity | lia].
Qed.

(** X4. What a caller can rely on after Destroy on a non-null handle: the
    handle is nulled exactly when Destroy returns success; the object is
    freed exactly when Destroy returns success and the count it found was at
    most 1 and not the least PetscInt, and then the header was destroyed;
    whenever Destroy fails the object is still allocated and the handle still
    points to it.  At the least PetscInt the decrement wraps around to the
    greatest: Destroy takes the exit of a context that is still shared,
    nulls the handle and frees nothing. *)
Theorem destroy_outcome E c :
  (d_handle_null (VecScatterDestroy E (Some c)) = true <->
   d_code (VecScatterDestroy E (Some c)) = 0) /\
  (d_object (VecScatterDestroy E (Some c)) = None <->
   d_code (VecScatterDestroy E (Some c)) = 0 /\ refct c <= 1 /\ refct c <> PETSC_MIN_INT) /\
  (d_object (VecScatterDestroy E (Some c)) = None ->
   In Call_PetscHeaderDestroy (d_calls (VecScatterDestroy E (Some c)))) /\
  (refct c = PETSC_MIN_INT ->
   VecScatterDestroy E (Some c)
   = {| d_code := 0; d_handle_null := true;
        d_object := Some (set_refct PETSC_MAX_INT c); d_calls := [] |}).
Proof.
  destruct (inuse c && (refct c =? 1)) eqn:Hlast.
  - assert (refct c = 1) as Hr.
    { apply andb_true_iff in Hlast as [_ H]. apply Z.eqb_eq in H. exact H. }
    unfold VecScatterDestroy. rewrite Hlast. simpl.
    split; [split; intros; discriminate|].
    split; [split; [intros; discriminate | intros [H _]; discriminate]|].
    split; [intros; discriminate|].
    intros Hm. rewrite Hm in Hr. discriminate.
  - destruct (Z.ltb_spec 0 (decrement (refct c))) as [Hpos|Hle].
    + rewrite (destroy_shared E c Hlast Hpos). simpl.
      split; [split; reflexivity|].
      split; [split; [intros; discriminate|]|].
      { intros (_ & Hr & Hm). rewrite decrement_other in Hpos by exact Hm. lia. }
      split; [intros; discriminate|].
      intros Hm. rewrite Hm. reflexivity.
    + assert (refct c <= 1 /\ refct c <> PETSC_MIN_INT) as [Hr Hm].
      { unfold decrement in Hle.
        destruct (Z.eqb_spec (refct c) PETSC_MIN_INT); unfold PETSC_MAX_INT in Hle; lia. }
      destruct (destroy_runs_release E c Hlast Hr Hm) as (e & s' & Hrel & ->).
      destruct (Z.eqb_spec e 0) as [->|Hne]; simpl.
      * split; [split; reflexivity|].
        split; [split; [intros; split; [reflexivity | split; assumption] | reflexivity]|].
        split.
        -- intros _. rewrite (release_logs E _ _ Hrel). simpl. unfold release_calls.
           rewrite !in_app_iff. right. right. right. left. reflexivity.
        -- intros Hm'. contradiction.
      * split; [split; [intros; discriminate | intros; contradiction]|].
        split; [split; [intros; discriminate | intros [H _]; contradiction]|].
        split; [intros; discriminate|].
        intros Hm'. contradiction.
Qed.

Lemma destroy_outcome_witness :
  VecScatterDestroy (Example.env true true None)
    (Some (Example.context 3 3 false false PETSC_MIN_INT (Example.stride 3 0 1)
             (Example.general [0; 1; 2])))
  = {| d_code := 0; d_handle_null := true;
       d_object := Some (Example.context 3 3 false false PETSC_MAX_INT
                           (Example.stride 3 0 1) (Example.general [0; 1; 2]));
       d_calls := [] |}.
Proof.
  apply (proj2 (proj2 (proj2
           (destroy_outcome (Example.env true true None)
              (Example.context 3 3 false false PETSC_MIN_INT (Example.stride 3 0 1)
                 (Example.general [0; 1; 2])))))).
  reflexivity.
Defined.

Lemma set_refct_twice a b c : set_refct a (set_refct b c) = set_refct a c.
Proof. reflexivity. Qed.

Lemma set_refct_same c : set_refct (refct c) c = c.
Proof. destruct c; reflexivity. Qed.

(** X5. A context held by k+1 owners (count k+1) that release it in turn,
    with release helpers that report no error: each of the first k calls
    lowers the count by one, nulls that owner's handle and calls nothing;
    the last call runs the release sequence and frees the object when the
    context is not in use, and is refused with the wrong-state error, the
    object staying allocated with count 1, when it is in use. *)
Theorem destroy_by_all_owners E : forall k c,
  refct c = Z.of_nat (S k) ->
  release_succeeds E ->
  destroy_owners E (S k) (Some c)
  = map (released_share c) (seq 1 k) ++
    [if inuse c then
       {| d_code := PETSC_ERR_ARG_WRONGSTATE; d_handle_null := false;
          d_object := Some (set_refct 1 c);
          d_calls := [Call_PetscError PETSC_ERR_ARG_WRONGSTATE
                        "Scatter context is in use" []] |}
     else
       {| d_code := 0; d_handle_null := true; d_object := None;
          d_calls := release_calls E |}].
Proof.
  induction k as [|k IH]; intros c Hr Hok.
  - cbn [destroy_owners seq map app]. f_equal.
    change (Z.of_nat 1) with 1 in Hr.
    destruct (inuse c) eqn:Hi.
    + assert (set_refct 1 c = c) as -> by (rewrite <- Hr; apply set_refct_same).
      unfold VecScatterDestroy. rewrite Hi, Hr. reflexivity.
    + destruct (destroy_runs_release E c) as (e & s' & Hrel & ->);
        [rewrite Hi; reflexivity | lia | unfold PETSC_MIN_INT; lia |].
      destruct (release_ok E {| ctx := set_refct (refct c - 1) c; calls := [] |} Hok)
        as (s'' & Hrel').
      rewrite Hrel in Hrel'. inversion Hrel'; subst. simpl.
      rewrite (release_logs E _ _ Hrel). reflexivity.
  - assert (VecScatterDestroy E (Some c) = released_share c 1) as Hfirst.
    { unfold VecScatterDestroy, released_share.
      destruct (Z.eqb_spec (refct c) 1); [lia|]. rewrite andb_false_r.
      rewrite decrement_above by (unfold PETSC_MIN_INT; lia).
      change (refct (set_refct (refct c - 1) c)) with (refct c - 1).
      destruct (Z.ltb_spec 0 (refct c - 1)); [reflexivity | lia]. }
    change (destroy_owners E (S (S k)) (Some c))
      with (VecScatterDestroy E (Some c)
              :: destroy_owners E (S k) (d_object (VecScatterDestroy E (Some c)))).
    rewrite Hfirst. cbn [d_object released_share].
    rewrite (IH (set_refct (refct c - Z.of_nat 1) c)); [|cbn [refct set_refct]; lia|exact Hok].
    cbn [seq map app inuse set_refct]. f_equal.
    rewrite <- (seq_shift k 1), map_map. f_equal.
    apply map_ext. intros i. unfold released_share. cbn [refct set_refct].
    rewrite set_refct_twice. do 3 f_equal. lia.
Qed.

Lemma destroy_by_all_owners_witness :
  destroy_owners (Example.env true true None) 3 (Some (Scenario.shared_ctx false))
  = [released_share (Scenario.shared_ctx false) 1;
     released_share (Scenario.shared_ctx false) 2;
     {| d_code := 0; d_handle_null := true; d_object := None;
        d_calls := release_calls (Example.env true true None) |}].
Proof.
  apply (destroy_by_all_owners (Example.env true true None) 2 (Scenario.shared_ctx false)).
  - reflexivity.
  - repeat split; intros; try reflexivity. inversion H; reflexivity.
Defined.

(** ** Remap: what it keeps, what it refuses, how it composes *)

Lemma if_tomap_keeps_all_header E tomap : keeps_header (if_tomap E tomap).
Proof.
  destruct tomap as [tm|]; [apply remap_to_keeps_header | apply keeps_header_return].
Qed.

(** X6. Whatever its outcome, Remap leaves the in-use flag, the merge flag,
    the reference count and the device mirror of the context as they were:
    it neither checks that the context is idle nor discards a mirror built
    from the old indices.  The declared sizes become -1 when it succeeds and
    keep their values when it fails. *)
Theorem remap_keeps_flags_and_mirror E tomap frommap s e s1 :
  VecScatterRemap E tomap frommap s = Some (e, s1) ->
  inuse (ctx s1) = inuse (ctx s) /\
  beginandendtogether (ctx s1) = beginandendtogether (ctx s) /\
  refct (ctx s1) = refct (ctx s) /\
  spptr (ctx s1) = spptr (ctx s) /\
  (e = 0 -> to_n (ctx s1) = -1 /\ from_n (ctx s1) = -1) /\
  (e <> 0 -> to_n (ctx s1) = to_n (ctx s) /\ from_n (ctx s1) = from_n (ctx s)).
Proof.
  unfold VecScatterRemap. intros H.
  apply andthen_inv in H as [(sa & Ha & H)|[Ha Hne]].
  - pose proof (if_tomap_keeps_all_header E tomap s 0 sa Ha) as Hh. unfold header in Hh.
    assert (inuse (ctx sa) = inuse (ctx s) /\
            beginandendtogether (ctx sa) = beginandendtogether (ctx s) /\
            refct (ctx sa) = refct (ctx s) /\ spptr (ctx sa) = spptr (ctx s) /\
            to_n (ctx sa) = to_n (ctx s) /\ from_n (ctx sa) = from_n (ctx s))
      as (Hi & Hm & Hr & Hs & Ht & Hf)
      by (repeat split; injection Hh; intros; assumption).
    destruct frommap as [fm|].
    + apply andthen_inv in H as [(sb & Hb & _)|[Hb _]];
        unfold SETERRQ, PETSC_ERR_SUP in Hb; inversion Hb; subst; simpl.
      repeat split; try assumption; intros; try discriminate.
    + apply andthen_inv in H as [(sb & Hb & H)|[Hb Hne]];
        unfold PetscFunctionReturn in Hb; inversion Hb; subst; [|contradiction].
      apply andthen_inv in H as [(sc & Hc & H)|[Hc Hne]];
        unfold update in Hc; inversion Hc; subst; [|contradiction].
      unfold PetscFunctionReturn in H. inversion H; subst. simpl.
      repeat split; try assumption; intros; try reflexivity; contradiction.
  - pose proof (if_tomap_keeps_all_header E tomap s e s1 Ha) as Hh. unfold header in Hh.
    repeat split; try (injection Hh; intros; assumption); intros; contradiction.
Qed.

Lemma remap_keeps_flags_and_mirror_witness :
  inuse (ctx Example.remapped_seq) = inuse (Example.seq_ctx false false) /\
  beginandendtogether (ctx Example.remapped_seq)
  = beginandendtogether (Example.seq_ctx false false) /\
  refct (ctx Example.remapped_seq) = refct (Example.seq_ctx false false) /\
  spptr (ctx Example.remapped_seq) = spptr (Example.seq_ctx false false) /\
  (0 = 0 -> to_n (ctx Example.remapped_seq) = -1 /\ from_n (ctx Example.remapped_seq) = -1) /\
  (0 <> 0 -> to_n (ctx Example.remapped_seq) = to_n (Example.seq_ctx false false) /\
             from_n (ctx Example.remapped_seq) = from_n (Example.seq_ctx false false)).
Proof.
  apply (remap_keeps_flags_and_mirror (Example.env true false None) (Some [2; 0; 1]) None
           (Example.start (Example.seq_ctx false false)) 0 Example.remapped_seq).
  by_computation.
Defined.

(** X7. The formats Remap has no rule for: with a non-null toMap, to-all
    to-data, or to-data that is not distributed-general paired with
    from-data that is neither local-general nor local-stride (a to-one
    scatter, say), gives the size/argument error at once: no index is read,
    no helper is called, the context is as before, and fromMap is not
    looked at. *)
Theorem remap_refuses_other_formats E tm frommap s :
  format (todata (ctx s)) = VEC_SCATTER_MPI_TOALL \/
  (format (todata (ctx s)) <> VEC_SCATTER_MPI_GENERAL /\
   format (fromdata (ctx s)) <> VEC_SCATTER_SEQ_GENERAL /\
   format (fromdata (ctx s)) <> VEC_SCATTER_SEQ_STRIDE) ->
  exists mess,
    VecScatterRemap E (Some tm) frommap s
    = Some (PETSC_ERR_ARG_SIZ, record (Call_PetscError PETSC_ERR_ARG_SIZ mess []) s).
Proof.
  intros H.
  assert (exists mess,
            remap_to E tm s
            = Some (PETSC_ERR_ARG_SIZ, record (Call_PetscError PETSC_ERR_ARG_SIZ mess []) s))
    as (mess & Hto).
  { unfold remap_to, unable_to_remap, SETERRQ.
    destruct (todata (ctx s)) as [sgto|ssto|to|ta|ta]; simpl in H;
      destruct H as [H|(H1 & H2 & H3)]; try discriminate; try contradiction;
      try (eexists; reflexivity);
      destruct (fromdata (ctx s)); simpl in H2, H3; try contradiction;
      eexists; reflexivity. }
  exists mess. unfold VecScatterRemap. apply andthen_err; [exact Hto | discriminate].
Qed.

Lemma remap_refuses_other_formats_witness :
  exists mess,
    VecScatterRemap (Example.env true false None) (Some [0; 1; 2]) None
      (Example.start Example.toall_ctx)
    = Some (PETSC_ERR_ARG_SIZ,
            record (Call_PetscError PETSC_ERR_ARG_SIZ mess [])
              (Example.start Example.toall_ctx)).
Proof.
  apply (remap_refuses_other_formats (Example.env true false None) [0; 1; 2] None
           (Example.start Example.toall_ctx)).
  left. reflexivity.
Defined.

Lemma remap_loop_fixed tm cnt : forall i a,
  (i + cnt <= length a)%nat ->
  (forall j v, (i <= j < i + cnt)%nat -> a !! j = Some v -> array_get tm v = Some v) ->
  remap_loop tm cnt i a = Some a.
Proof.
  induction cnt as [|cnt IH]; intros i a Hlen Hfix; cbn [remap_loop]; [reflexivity|].
  destruct (lookup_lt_is_Some_2 a i) as [v Hv]; [lia|]. rewrite Hv.
  rewrite (Hfix i v) by (lia || exact Hv).
  rewrite list_insert_id by exact Hv. apply IH; [lia|].
  intros j u Hj. apply Hfix. lia.
Qed.

Lemma remap_loop_fixes tm cnt a : fixes tm cnt a -> remap_loop tm cnt 0 a = Some a.
Proof.
  intros [Hlen Hfix]. apply remap_loop_fixed; [lia|].
  intros j v Hj. apply Hfix. lia.
Qed.

Lemma mg_with_indices_same to :
  mg_with_indices (mg_indices to) (sg_vslots (mg_local to)) to = to.
Proof. destruct to as [n st ix [ln lv lp] bs p]. reflexivity. Qed.

Lemma sg_with_vslots_same g : sg_with_vslots (sg_vslots g) g = g.
Proof. destruct g. reflexivity. Qed.

Lemma set_todata_same c : set_todata (todata c) c = c.
Proof. destruct c; reflexivity. Qed.

Lemma set_fromdata_same c : set_fromdata (fromdata c) c = c.
Proof. destruct c; reflexivity. Qed.

Lemma ptop_rebuild_ok E s to from :
  todata (ctx s) = MPIGeneral to -> fromdata (ctx s) = MPIGeneral from ->
  plans_succeed E ->
  exists s',
    (ptop_plans Call_VecScatterMemcpyPlanDestroy_PtoP (VecScatterMemcpyPlanDestroy_PtoP E) ;;;
     ptop_plans Call_VecScatterMemcpyPlanCreate_PtoP (VecScatterMemcpyPlanCreate_PtoP E) ;;;
     PetscFunctionReturn 0) s = Some (0, s').
Proof.
  intros Hto Hfrom (_ & Hd & Hc & _).
  unfold CHKERRQ, ptop_plans, PetscFunctionReturn. rewrite Hto, Hfrom.
  rewrite Hd. cbn [ctx todata fromdata set_todata set_fromdata]. rewrite Hc. eauto.
Qed.

Lemma seq_rebuild_ok E s sgfrom :
  fromdata (ctx s) = SeqGeneral sgfrom ->
  plans_succeed E ->
  exists s',
    match todata (ctx s) with
    | SeqStride ssto =>
        if ss_step ssto =? 1 then
          destroy_from_plan E ;;; create_index_plan E ;;; PetscFunctionReturn 0
        else PetscFunctionReturn 0
    | SeqGeneral _ =>
        destroy_to_plan E ;;; destroy_from_plan E ;;; create_sgtosg_plan E ;;;
        PetscFunctionReturn 0
    | _ => PetscFunctionReturn 0
    end s = Some (0, s').
Proof.
  intros Hfrom (Hd & _ & _ & Hi & Hsg).
  destruct (todata (ctx s)) as [sgto|ssto|to|ta|ta] eqn:Hto;
    try (unfold PetscFunctionReturn; eauto).
  - unfold CHKERRQ, destroy_to_plan, destroy_from_plan, create_sgtosg_plan,
      PetscFunctionReturn.
    rewrite Hto, Hd. cbn [ctx todata fromdata set_todata set_fromdata]. rewrite Hfrom, Hd.
    cbn [ctx todata fromdata set_todata set_fromdata]. rewrite Hsg. eauto.
  - destruct (ss_step ssto =? 1); [|unfold PetscFunctionReturn; eauto].
    unfold CHKERRQ, destroy_from_plan, create_index_plan, PetscFunctionReturn.
    rewrite Hfrom, Hd. cbn [ctx todata fromdata set_todata set_fromdata]. rewrite Hi. eauto.
Qed.

(** X8. Remap with a toMap that is the identity on the entries it rewrites
    is defined and succeeds when the plan helpers do, and leaves the index
    data of both sides as they were (only the plans are rebuilt and the
    declared sizes set to -1): on a distributed-general pair when toMap fixes
    the first [starts[n]] message-block indices and the first [local.n]
    local slots of the to-data; on sequential data when it fixes the first
    [n] slots of the local-general from-data. *)
Theorem remap_identity_keeps_indices E tm s :
  plans_succeed E ->
  (forall to from bound,
     todata (ctx s) = MPIGeneral to -> fromdata (ctx s) = MPIGeneral from ->
     array_get (mg_starts to) (mg_n to) = Some bound ->
     fixes tm (Z.to_nat bound) (mg_indices to) ->
     fixes tm (Z.to_nat (sg_n (mg_local to))) (sg_vslots (mg_local to)) ->
     exists s1,
       VecScatterRemap E (Some tm) None s = Some (0, s1) /\
       erase_plans (todata (ctx s1)) = erase_plans (todata (ctx s)) /\
       erase_plans (fromdata (ctx s1)) = erase_plans (fromdata (ctx s)) /\
       to_n (ctx s1) = -1 /\ from_n (ctx s1) = -1) /\
  (forall sgfrom,
     fromdata (ctx s) = SeqGeneral sgfrom ->
     format (todata (ctx s)) <> VEC_SCATTER_MPI_TOALL ->
     format (todata (ctx s)) <> VEC_SCATTER_MPI_GENERAL ->
     fixes tm (Z.to_nat (sg_n sgfrom)) (sg_vslots sgfrom) ->
     exists s1,
       VecScatterRemap E (Some tm) None s = Some (0, s1) /\
       erase_plans (todata (ctx s1)) = erase_plans (todata (ctx s)) /\
       erase_plans (fromdata (ctx s1)) = erase_plans (fromdata (ctx s)) /\
       to_n (ctx s1) = -1 /\ from_n (ctx s1) = -1).
Proof.
  intros Hok. split.
  - intros to from bound Hto Hfrom Hb Hfi Hfv.
    assert (exists sa, remap_to E tm s = Some (0, sa) /\
                       erase_plans (todata (ctx sa)) = erase_plans (todata (ctx s)) /\
                       erase_plans (fromdata (ctx sa)) = erase_plans (fromdata (ctx s)))
      as (sa & Hrun & H1 & H2).
    { unfold remap_to. rewrite Hto, Hb.
      rewrite (remap_loop_fixes _ _ _ Hfi), (remap_loop_fixes _ _ _ Hfv).
      rewrite mg_with_indices_same, <- Hto.
      rewrite (andthen_ok _ _ s s)
        by (unfold update; rewrite set_todata_same, state_eta; reflexivity).
      destruct (ptop_rebuild_ok E s to from Hto Hfrom Hok) as (sa & Hsa).
      exists sa. split; [exact Hsa|].
      apply ptop_rebuild in Hsa as (H1 & H2 & _). auto. }
    eexists. split.
    + unfold VecScatterRemap. cbn [if_tomap]. rewrite (andthen_ok _ _ _ _ Hrun). reflexivity.
    + cbn [ctx todata fromdata to_n from_n set_sizes]. auto.
  - intros sgfrom Hfrom Hta Hmg Hfv.
    assert (exists sa, remap_to E tm s = Some (0, sa) /\
                       erase_plans (todata (ctx sa)) = erase_plans (todata (ctx s)) /\
                       erase_plans (fromdata (ctx sa)) = erase_plans (fromdata (ctx s)))
      as (sa & Hrun & H1 & H2).
    { destruct (seq_rebuild_ok E s sgfrom Hfrom Hok) as (sa & Hsa).
      exists sa. split.
      - unfold remap_to. rewrite Hfrom.
        destruct (todata (ctx s)) as [sgto|ssto|to|ta|ta] eqn:Hto; simpl in Hta, Hmg;
          try contradiction;
          rewrite (remap_loop_fixes _ _ _ Hfv), sg_with_vslots_same, <- Hfrom;
          (rewrite (andthen_ok _ _ s s)
            by (unfold update; rewrite set_fromdata_same, state_eta; reflexivity));
          exact Hsa.
      - eapply seq_rebuild in Hsa as (H1 & H2 & _); [|reflexivity]. auto. }
    eexists. split.
    + unfold VecScatterRemap. cbn [if_tomap]. rewrite (andthen_ok _ _ _ _ Hrun). reflexivity.
    + cbn [ctx todata fromdata to_n from_n set_sizes]. auto.
Qed.

Lemma example_plans_succeed debug cuda end_op :
  plans_succeed (Example.env debug cuda end_op).
Proof. repeat split. Qed.

Lemma remap_identity_keeps_indices_witness :
  exists s1,
    VecScatterRemap (Example.env true false None) (Some [0; 1; 2; 3; 4; 5; 6; 7; 8; 9]) None
      (Example.start Example.mpi_ctx) = Some (0, s1) /\
    erase_plans (todata (ctx s1)) = erase_plans (todata Example.mpi_ctx) /\
    erase_plans (fromdata (ctx s1)) = erase_plans (fromdata Example.mpi_ctx) /\
    to_n (ctx s1) = -1 /\ from_n (ctx s1) = -1.
Proof.
  refine (proj1 (remap_identity_keeps_indices (Example.env true false None)
                   [0; 1; 2; 3; 4; 5; 6; 7; 8; 9] (Example.start Example.mpi_ctx) _)
            Example.two_peers Example.recv_side 5 _ _ _ _ _).
  - apply example_plans_succeed.
  - reflexivity.
  - reflexivity.
  - reflexivity.
  - split; [simpl; lia|]. intros j v Hj Hv.
    do 5 (destruct j as [|j]; [inversion Hv; reflexivity|]). simpl in Hj. lia.
  - split; [simpl; lia|]. intros j v Hj Hv.
    destruct j as [|j]; [inversion Hv; reflexivity|]. simpl in Hj. lia.
Defined.

Lemma array_get_Some a i v :
  array_get a i = Some v -> 0 <= i /\ a !! Z.to_nat i = Some v.
Proof.
  unfold array_get. destruct (Z.ltb_spec i 0); [discriminate|]. auto.
Qed.

Lemma remapped_prefix_compose tm1 tm2 cnt a a1 a2 :
  remapped_prefix tm1 cnt a a1 ->
  remapped_prefix tm2 cnt a1 a2 ->
  remapped_prefix (compose_maps tm1 tm2) cnt a a2.
Proof.
  intros (Hl1 & Hc1 & Ho1 & Hi1) (Hl2 & Hc2 & Ho2 & Hi2).
  split; [congruence|]. split; [exact Hc1|]. split.
  - intros j Hj. rewrite Ho2, Ho1 by exact Hj. reflexivity.
  - intros j v Hj Hv.
    destruct (lookup_lt_is_Some_2 a1 j) as [w Hw]; [lia|].
    destruct (lookup_lt_is_Some_2 a2 j) as [u Hu]; [lia|].
    pose proof (Hi1 j v Hj Hv) as H1. rewrite Hw in H1. symmetry in H1.
    pose proof (Hi2 j w Hj Hw) as H2. rewrite Hu in H2. symmetry in H2.
    rewrite Hu. apply array_get_Some in H1 as [Hv0 H1].
    unfold array_get, compose_maps. destruct (Z.ltb_spec v 0); [lia|].
    rewrite list_lookup_fmap, H1. simpl. rewrite H2. reflexivity.
Qed.

Lemma erase_plans_mpi d g :
  erase_plans d = erase_plans (MPIGeneral g) ->
  exists g',
    d = MPIGeneral g' /\
    mg_n g' = mg_n g /\ mg_starts g' = mg_starts g /\ mg_indices g' = mg_indices g /\
    sg_n (mg_local g') = sg_n (mg_local g) /\
    sg_vslots (mg_local g') = sg_vslots (mg_local g).
Proof.
  destruct d as [sg|ss|g'|ta|ta]; simpl; try discriminate.
  intros H. exists g'. split; [reflexivity|].
  unfold mg_with_plans in H. inversion H. auto.
Qed.

(** X9. Two successful remaps of a distributed-general context, through
    [tm1] and then through [tm2], leave in the to-data the original
    message-block indices and local slots sent through the composed map
    (each old value [v] becomes [tm2[tm1[v]]]); entries beyond the counts
    are untouched. *)
Theorem remap_twice_composes E tm1 tm2 s s1 s2 to :
  todata (ctx s) = MPIGeneral to ->
  VecScatterRemap E (Some tm1) None s = Some (0, s1) ->
  VecScatterRemap E (Some tm2) None s1 = Some (0, s2) ->
  exists to2 bound,
    todata (ctx s2) = MPIGeneral to2 /\
    array_get (mg_starts to) (mg_n to) = Some bound /\
    remapped_prefix (compose_maps tm1 tm2) (Z.to_nat bound) (mg_indices to) (mg_indices to2) /\
    remapped_prefix (compose_maps tm1 tm2) (Z.to_nat (sg_n (mg_local to)))
      (sg_vslots (mg_local to)) (sg_vslots (mg_local to2)).
Proof.
  intros Hto H1 H2.
  apply remap_ok_inv in H1 as (_ & sa & Ha & ->).
  apply remap_ok_inv in H2 as (_ & sb & Hb & ->).
  cbn [if_tomap] in Ha, Hb.
  destruct (remap_to_mpi_inv E tm1 s sa to Hto Ha)
    as (bound & ind & vs & Hbound & Hind & Hvs & Hd1 & _ & _).
  apply erase_plans_mpi in Hd1 as (to1 & Hto1 & Hn & Hst & Hix & Hln & Hlv).
  cbn [mg_with_indices mg_n mg_starts mg_indices mg_local sg_n sg_vslots] in Hn, Hst, Hix, Hln, Hlv.
  assert (todata (ctx {| ctx := set_sizes (-1) (-1) (ctx sa); calls := calls sa |})
          = MPIGeneral to1) as Hto1' by exact Hto1.
  destruct (remap_to_mpi_inv E tm2 _ sb to1 Hto1' Hb)
    as (bound' & ind' & vs' & Hbound' & Hind' & Hvs' & Hd2 & _ & _).
  apply erase_plans_mpi in Hd2 as (to2 & Hto2 & _ & _ & Hix2 & _ & Hlv2).
  cbn [mg_with_indices mg_indices mg_local sg_vslots] in Hix2, Hlv2.
  rewrite Hn, Hst, Hbound in Hbound'. inversion Hbound'; subst bound'.
  rewrite Hix in Hind'. rewrite Hln, Hlv in Hvs'.
  exists to2, bound. split; [exact Hto2|]. split; [exact Hbound|].
  rewrite Hix2, Hlv2. split; eapply remapped_prefix_compose; eassumption.
Qed.

Lemma remap_twice_composes_witness :
  exists to2 bound,
    todata (ctx Scenario.twice_remapped) = MPIGeneral to2 /\
    array_get (mg_starts Example.two_peers) (mg_n Example.two_peers) = Some bound /\
    remapped_prefix
      (compose_maps [9; 8; 7; 6; 5; 4; 3; 2; 1; 0] [9; 8; 7; 6; 5; 4; 3; 2; 1; 0])
      (Z.to_nat bound) (mg_indices Example.two_peers) (mg_indices to2) /\
    remapped_prefix
      (compose_maps [9; 8; 7; 6; 5; 4; 3; 2; 1; 0] [9; 8; 7; 6; 5; 4; 3; 2; 1; 0])
      (Z.to_nat (sg_n (mg_local Example.two_peers)))
      (sg_vslots (mg_local Example.two_peers)) (sg_vslots (mg_local to2)).
Proof.
  apply (remap_twice_composes (Example.env true false None)
           [9; 8; 7; 6; 5; 4; 3; 2; 1; 0] [9; 8; 7; 6; 5; 4; 3; 2; 1; 0]
           (Example.start Example.mpi_ctx) Scenario.once_remapped Scenario.twice_remapped
           Example.two_peers).
  - reflexivity.
  - by_computation.
  - by_computation.
Defined.

(** ** Device preparation: when it acts and what it touches *)

Lemma block_expand_length bs t :
  length (block_expand bs t) = (length t * Z.to_nat bs)%nat.
Proof.
  unfold block_expand. induction t as [|h t IH]; simpl; [reflexivity|].
  rewrite length_app, block_of_length, IH. reflexivity.
Qed.

Lemma only_mirror_refl s : only_mirror s s.
Proof.
  repeat (split; [reflexivity|]). exists []. split; [rewrite app_nil_r|]; reflexivity.
Qed.

Lemma only_mirror_trans s1 s2 s3 : only_mirror s1 s2 -> only_mirror s2 s3 -> only_mirror s1 s3.
Proof.
  intros (A1 & A2 & A3 & A4 & A5 & A6 & A7 & l1 & Hl1 & Hs1)
         (B1 & B2 & B3 & B4 & B5 & B6 & B7 & l2 & Hl2 & Hs2).
  repeat (split; [congruence|]).
  exists (l1 ++ l2). split.
  - rewrite Hl2, Hl1, app_assoc. reflexivity.
  - rewrite existsb_app. intros H. apply orb_false_iff in H as [H1 H2].
    rewrite (Hs2 H2). exact (Hs1 H1).
Qed.

Lemma only_mirror_record c s : only_mirror s (record c s).
Proof.
  repeat (split; [reflexivity|]). exists [c]. split; reflexivity.
Qed.

Lemma touches_only_mirror_return e : touches_only_mirror (PetscFunctionReturn e).
Proof. intros s e' s' H. inversion H; subst. apply only_mirror_refl. Qed.

Lemma touches_only_mirror_call c e : touches_only_mirror (call c e).
Proof. intros s e' s' H. inversion H; subst. apply only_mirror_record. Qed.

Lemma touches_only_mirror_create_mirror E ns sends nr recvs :
  touches_only_mirror (create_mirror E ns sends nr recvs).
Proof.
  intros s e s' H. unfold create_mirror in H. inversion H; subst. cbn [ctx calls].
  repeat (split; [reflexivity|]). eexists. split; [reflexivity|]. discriminate.
Qed.

Lemma touches_only_mirror_CHKERRQ m k :
  touches_only_mirror m -> touches_only_mirror k -> touches_only_mirror (m ;;; k).
Proof.
  intros Hm Hk s e s' H. apply CHKERRQ_inv in H as [(s1 & H1 & H2)|(s1 & H1 & _ & ->)].
  - eapply only_mirror_trans; [eapply Hm | eapply Hk]; eassumption.
  - eapply only_mirror_trans; [eapply Hm; eassumption | apply only_mirror_record].
Qed.

Lemma touches_only_mirror_defined {A} (o : option A) (k : A -> Petsc) :
  (forall a, touches_only_mirror (k a)) -> touches_only_mirror (defined o k).
Proof.
  intros Hk. destruct o as [a|]; [apply Hk|]. intros s e s' H. discriminate.
Qed.

(** Lines 468-497 write nothing of the context but the mirror, whatever the
    codes of the calls they make. *)
Lemma create_indices_frame E to from : touches_only_mirror (create_indices E to from).
Proof.
  unfold create_indices.
  repeat first
    [ apply touches_only_mirror_defined; intros ?
    | apply touches_only_mirror_CHKERRQ
    | apply touches_only_mirror_call
    | apply touches_only_mirror_create_mirror
    | apply touches_only_mirror_return ].
Qed.

(** The two ways a call of [VecScatterInitializeForGPU] can end. *)
Lemma initialize_for_gpu_cases E x mode s e s1 :
  VecScatterInitializeForGPU E x mode s = Some (e, s1) ->
  (e = 0 /\ s1 = s) \/
  (exists to from,
     todata (ctx s) = MPIGeneral to /\ fromdata (ctx s) = MPIGeneral from /\
     spptr (ctx s) = None /\ only_mirror s s1).
Proof.
  unfold VecScatterInitializeForGPU, VecScatterIsSequential_Private, PetscFunctionReturn.
  cbn [snd].
  destruct (todata (ctx s)) as [sgto|ssto|to|ta|ta] eqn:Hto;
    destruct (fromdata (ctx s)) as [sgfrom|ssfrom|from|fa|fa] eqn:Hfrom;
    cbn [format orb]; try (intros H; inversion H; left; auto; fail);
    try (destruct (is_reverse mode); discriminate).
  assert (forall t f,
            (if negb (offload_unallocated (valid_GPU_array x)) &&
                ((0 <? mg_n t) || (0 <? mg_n f))
             then match spptr (ctx s) with
                  | Some _ => Some (0, s)
                  | None => create_indices E t f s
                  end
             else Some (0, s)) = Some (e, s1) ->
            (e = 0 /\ s1 = s) \/ (spptr (ctx s) = None /\ only_mirror s s1))
    as Hcase.
  { intros t f H. destruct (_ && _); [|inversion H; left; auto].
    destruct (spptr (ctx s)) eqn:Hsp; [inversion H; left; auto|].
    right. split; [reflexivity|]. exact (create_indices_frame E t f s e s1 H). }
  destruct (is_reverse mode); intros H; apply Hcase in H as [H|[Hsp H]];
    auto; right; eauto 8.
Qed.

(** X10. InitializeForDevice does nothing, and returns success, when either
    side of the context is a sequential format; and, on a distributed-general
    pair, when the source vector has no device data or neither side has a
    peer. *)
Theorem initialize_for_gpu_skips E x mode s :
  ((VecScatterIsSequential_Private (fromdata (ctx s))).2 = true \/
   (VecScatterIsSequential_Private (todata (ctx s))).2 = true ->
   VecScatterInitializeForGPU E x mode s = Some (0, s)) /\
  (forall to from,
     todata (ctx s) = MPIGeneral to -> fromdata (ctx s) = MPIGeneral from ->
     valid_GPU_array x = PETSC_OFFLOAD_UNALLOCATED \/ (mg_n to <= 0 /\ mg_n from <= 0) ->
     VecScatterInitializeForGPU E x mode s = Some (0, s)).
Proof.
  split.
  - intros H. unfold VecScatterInitializeForGPU.
    destruct H as [-> | ->]; [|rewrite orb_true_r]; reflexivity.
  - intros to from Hto Hfrom H.
    unfold VecScatterInitializeForGPU, VecScatterIsSequential_Private. rewrite Hto, Hfrom.
    cbn [format snd orb].
    assert (forall t f : VecScatter_MPI_General,
              t = to /\ f = from \/ t = from /\ f = to ->
              negb (offload_unallocated (valid_GPU_array x)) &&
              ((0 <? mg_n t) || (0 <? mg_n f)) = false) as Hcond.
    { intros t f Htf. destruct H as [-> | [Ht Hf]]; [reflexivity|].
      apply andb_false_iff. right.
      destruct Htf as [[-> ->]|[-> ->]];
        destruct (Z.ltb_spec 0 (mg_n to)), (Z.ltb_spec 0 (mg_n from)); simpl; auto; lia. }
    destruct (is_reverse mode); rewrite Hcond by auto; reflexivity.
Qed.

Lemma initialize_for_gpu_skips_witness :
  VecScatterInitializeForGPU (Example.env true true None) (Example.vec 10) SCATTER_FORWARD
    (Example.start Example.mpi_ctx) = Some (0, Example.start Example.mpi_ctx).
Proof.
  apply (proj2 (initialize_for_gpu_skips (Example.env true true None) (Example.vec 10)
                  SCATTER_FORWARD (Example.start Example.mpi_ctx))
           Example.two_peers Example.recv_side).
  - reflexivity.
  - reflexivity.
  - left. reflexivity.
Defined.

(** X11. On the first call that prepares a distributed-general pair, with
    block sizes that are not negative, and when the allocations, copies,
    sorts and frees of the work arrays report no error: the device layer is
    handed a receive buffer built from the from-side the way the send buffer
    is built from the to-side (sorted, duplicates removed, each index
    expanded into [bs] consecutive ones), and the two counts it is given are
    the lengths of the two buffers, which are also the sizes the buffers were
    allocated with.  The call returns the code of the device layer, with the
    mirror that layer stored; the two buffers are freed when that code is 0,
    and otherwise the error handler is entered and they are not. *)
Theorem initialize_for_gpu_buffers E x mode s to from ns nr :
  (if is_reverse mode then fromdata (ctx s) else todata (ctx s)) = MPIGeneral to ->
  (if is_reverse mode then todata (ctx s) else fromdata (ctx s)) = MPIGeneral from ->
  valid_GPU_array x <> PETSC_OFFLOAD_UNALLOCATED ->
  0 < mg_n to \/ 0 < mg_n from ->
  spptr (ctx s) = None ->
  array_get (mg_starts to) (mg_n to) = Some ns ->
  0 <= ns <= Z.of_nat (length (mg_indices to)) ->
  array_get (mg_starts from) (mg_n from) = Some nr ->
  0 <= nr <= Z.of_nat (length (mg_indices from)) ->
  0 <= mg_bs to -> 0 <= mg_bs from ->
  buffers_succeed E ->
  exists e p sends recvs,
    VecScatterCUDAIndicesCreate_PtoP E
      (Z.of_nat (length sends)) sends (Z.of_nat (length recvs)) recvs = (e, p) /\
    VecScatterInitializeForGPU E x mode s
    = Some (e, {| ctx := set_spptr p (ctx s);
                  calls := calls s ++
                    buffer_calls ns nr (Z.of_nat (length sends)) (Z.of_nat (length recvs)) ++
                    [Call_VecScatterCUDAIndicesCreate_PtoP
                       (Z.of_nat (length sends)) sends (Z.of_nat (length recvs)) recvs] ++
                    after_mirror e |}) /\
    sends = block_expand (mg_bs to)
              (PetscSortRemoveDupsInt (take (Z.to_nat ns) (mg_indices to))) /\
    recvs = block_expand (mg_bs from)
              (PetscSortRemoveDupsInt (take (Z.to_nat nr) (mg_indices from))) /\
    forall j,
      In j recvs <->
      exists v k, In v (take (Z.to_nat nr) (mg_indices from)) /\ 0 <= k < mg_bs from /\
                  j = v + k.
Proof.
  intros Hto Hfrom Hx Hn Hsp Hns Hnsr Hnr Hnrr Hbt Hbf Hok.
  pose proof (initialize_for_gpu_first_call E x mode s to from Hto Hfrom Hx Hn Hsp) as Heq.
  pose proof (create_indices_run E to from s ns nr Hok Hns Hnsr Hnr Hnrr) as Hrun.
  cbv zeta in Hrun. rewrite <- Heq in Hrun. clear Heq.
  set (tS := PetscSortRemoveDupsInt (take (Z.to_nat ns) (mg_indices to))) in *.
  set (tR := PetscSortRemoveDupsInt (take (Z.to_nat nr) (mg_indices from))) in *.
  assert (Z.of_nat (length (block_expand (mg_bs to) tS)) = Z.of_nat (length tS) * mg_bs to)
    as Hls by (rewrite block_expand_length, Nat2Z.inj_mul, Z2Nat.id by assumption; reflexivity).
  assert (Z.of_nat (length (block_expand (mg_bs from) tR)) = Z.of_nat (length tR) * mg_bs from)
    as Hlr by (rewrite block_expand_length, Nat2Z.inj_mul, Z2Nat.id by assumption; reflexivity).
  destruct (VecScatterCUDAIndicesCreate_PtoP E
              (Z.of_nat (length tS) * mg_bs to) (block_expand (mg_bs to) tS)
              (Z.of_nat (length tR) * mg_bs from) (block_expand (mg_bs from) tR))
    as [e p] eqn:Hdev.
  exists e, p, (block_expand (mg_bs to) tS), (block_expand (mg_bs from) tR).
  rewrite Hls, Hlr.
  split; [exact Hdev|]. split.
  - rewrite Hrun. cbn [fst snd].
    rewrite (Z.mul_comm (mg_bs to)), (Z.mul_comm (mg_bs from)). reflexivity.
  - split; [reflexivity|]. split; [reflexivity|].
    intros j. rewrite block_expand_In. unfold tR. split.
    + intros (v & k & Hv & Hk). exists v, k. rewrite PetscSortRemoveDupsInt_In in Hv. tauto.
    + intros (v & k & Hv & Hk). exists v, k. rewrite PetscSortRemoveDupsInt_In. tauto.
Qed.

Lemma initialize_for_gpu_buffers_witness :
  exists e p sends recvs,
    VecScatterCUDAIndicesCreate_PtoP Scenario.device_fails_env
      (Z.of_nat (length sends)) sends (Z.of_nat (length recvs)) recvs = (e, p) /\
    VecScatterInitializeForGPU Scenario.device_fails_env (Example.gpu_vec 10)
      SCATTER_REVERSE (Example.start Example.mpi_ctx)
    = Some (e, {| ctx := set_spptr p Example.mpi_ctx;
                  calls := [] ++
                    buffer_calls 2 5 (Z.of_nat (length sends)) (Z.of_nat (length recvs)) ++
                    [Call_VecScatterCUDAIndicesCreate_PtoP
                       (Z.of_nat (length sends)) sends (Z.of_nat (length recvs)) recvs] ++
                    after_mirror e |}) /\
    sends = block_expand 1 (PetscSortRemoveDupsInt (take (Z.to_nat 2) [1; 0])) /\
    recvs = block_expand 1 (PetscSortRemoveDupsInt (take (Z.to_nat 5) [4; 2; 4; 7; 2])) /\
    forall j,
      In j recvs <->
      exists v k, In v (take (Z.to_nat 5) [4; 2; 4; 7; 2]) /\ 0 <= k < 1 /\ j = v + k.
Proof.
  apply (initialize_for_gpu_buffers Scenario.device_fails_env (Example.gpu_vec 10)
           SCATTER_REVERSE (Example.start Example.mpi_ctx)
           Example.recv_side Example.two_peers 2 5).
  - reflexivity.
  - reflexivity.
  - discriminate.
  - left. reflexivity.
  - reflexivity.
  - reflexivity.
  - simpl. lia.
  - reflexivity.
  - simpl. lia.
  - simpl. lia.
  - simpl. lia.
  - repeat split.
Defined.

(** X12. Whatever its outcome and whatever its callees return,
    InitializeForDevice never touches the index data, the declared sizes,
    the flags or the reference count of the context, and it only adds to the
    calls made; the mirror is as before unless the device layer is among the
    calls it added.  So a call that fails before reaching the device layer,
    as when an allocation fails, leaves the context as it was. *)
Theorem initialize_for_gpu_touches_only_mirror E x mode s e s1 :
  VecScatterInitializeForGPU E x mode s = Some (e, s1) ->
  todata (ctx s1) = todata (ctx s) /\
  fromdata (ctx s1) = fromdata (ctx s) /\
  to_n (ctx s1) = to_n (ctx s) /\
  from_n (ctx s1) = from_n (ctx s) /\
  inuse (ctx s1) = inuse (ctx s) /\
  beginandendtogether (ctx s1) = beginandendtogether (ctx s) /\
  refct (ctx s1) = refct (ctx s) /\
  exists l,
    calls s1 = calls s ++ l /\
    (existsb is_mirror_call l = false -> ctx s1 = ctx s).
Proof.
  intros H.
  assert (only_mirror s s1) as (H1 & H2 & H3 & H4 & H5 & H6 & H7 & l & Hl & Hsp).
  { apply initialize_for_gpu_cases in H as [[_ ->]|(to & from & _ & _ & _ & H)];
      [apply only_mirror_refl | exact H]. }
  repeat (split; [assumption|]). exists l. split; [exact Hl|].
  intros Hno. specialize (Hsp Hno).
  destruct (ctx s1), (ctx s). simpl in *. congruence.
Qed.

Lemma initialize_for_gpu_touches_only_mirror_witness :
  VecScatterInitializeForGPU Scenario.no_memory_env (Example.gpu_vec 10) SCATTER_FORWARD
    (Example.start Example.mpi_ctx)
  = Some (55, {| ctx := Example.mpi_ctx;
                 calls := [Call_PetscMalloc1 tindicesSends 5;
                           Call_PetscMalloc1 tindicesRecvs 2;
                           Call_PetscErrorRepeat 55] |}) /\
  exists l,
    [Call_PetscMalloc1 tindicesSends 5; Call_PetscMalloc1 tindicesRecvs 2;
     Call_PetscErrorRepeat 55] = [] ++ l /\
    (existsb is_mirror_call l = false -> Example.mpi_ctx = Example.mpi_ctx).
Proof.
  split; [reflexivity|].
  apply (initialize_for_gpu_touches_only_mirror Scenario.no_memory_env (Example.gpu_vec 10)
           SCATTER_FORWARD (Example.start Example.mpi_ctx) 55
           {| ctx := Example.mpi_ctx;
              calls := [Call_PetscMalloc1 tindicesSends 5;
                        Call_PetscMalloc1 tindicesRecvs 2;
                        Call_PetscErrorRepeat 55] |}).
  reflexivity.
Defined.

Lemma initialize_for_gpu_with_mirror E x mode s p :
  spptr (ctx s) = Some p ->
  (exists to from, todata (ctx s) = MPIGeneral to /\ fromdata (ctx s) = MPIGeneral from) \/
  (VecScatterIsSequential_Private (fromdata (ctx s))).2 = true \/
  (VecScatterIsSequential_Private (todata (ctx s))).2 = true ->
  VecScatterInitializeForGPU E x mode s = Some (0, s).
Proof.
  intros Hsp [(to & from & Hto & Hfrom)|Hseq].
  - destruct (is_reverse mode) eqn:Hrev.
    + apply (initialize_for_gpu_cached E x mode s from to p); rewrite ?Hrev; assumption.
    + apply (initialize_for_gpu_cached E x mode s to from p); rewrite ?Hrev; assumption.
  - unfold VecScatterInitializeForGPU.
    destruct Hseq as [-> | ->]; [|rewrite orb_true_r]; reflexivity.
Qed.

(** X13. A mirror built before a remap is not rebuilt after it: on a
    distributed-general pair that has a mirror, once Remap has succeeded
    (and rewritten the indices the mirror was built from), the context still
    carries the same mirror and InitializeForDevice, in either direction,
    returns success without calling the device layer. *)
Theorem mirror_survives_remap E tomap s s1 to from p :
  todata (ctx s) = MPIGeneral to ->
  fromdata (ctx s) = MPIGeneral from ->
  spptr (ctx s) = Some p ->
  VecScatterRemap E tomap None s = Some (0, s1) ->
  spptr (ctx s1) = Some p /\
  forall x mode, VecScatterInitializeForGPU E x mode s1 = Some (0, s1).
Proof.
  intros Hto Hfrom Hsp H.
  apply remap_ok_inv in H as (_ & sa & Ha & ->).
  pose proof (if_tomap_keeps_all_header E tomap s 0 sa Ha) as Hh. unfold header in Hh.
  assert (spptr (ctx sa) = Some p) as Hsp' by (rewrite <- Hsp; injection Hh; intros; assumption).
  assert (exists to' from',
            todata (ctx sa) = MPIGeneral to' /\ fromdata (ctx sa) = MPIGeneral from')
    as (to' & from' & Hto' & Hfrom').
  { destruct tomap as [tm|]; cbn [if_tomap] in Ha.
    - destruct (remap_to_mpi_inv E tm s sa to Hto Ha)
        as (bound & ind & vs & _ & _ & _ & Hd1 & Hd2 & _).
      apply erase_plans_mpi in Hd1 as (to' & Hto' & _).
      rewrite Hfrom in Hd2. apply erase_plans_mpi in Hd2 as (from' & Hfrom' & _).
      eauto.
    - unfold PetscFunctionReturn in Ha. inversion Ha; subst sa. eauto. }
  split; [exact Hsp'|]. intros x mode.
  apply (initialize_for_gpu_with_mirror E x mode _ p); [exact Hsp'|].
  left. exists to', from'. split; assumption.
Qed.

Lemma mirror_survives_remap_witness :
  spptr (ctx Scenario.prepared_then_remapped) = Some Scenario.mirror /\
  forall x mode,
    VecScatterInitializeForGPU (Example.env true true None) x mode
      Scenario.prepared_then_remapped
    = Some (0, Scenario.prepared_then_remapped).
Proof.
  apply (mirror_survives_remap (Example.env true true None)
           (Some [9; 8; 7; 6; 5; 4; 3; 2; 1; 0]) Scenario.prepared
           Scenario.prepared_then_remapped Example.two_peers Example.recv_side
           Scenario.mirror).
  - reflexivity.
  - reflexivity.
  - reflexivity.
  - by_computation.
Defined.

(** X14. Preparation happens once: after a call of InitializeForDevice that
    left a mirror on the context, every later call, for any vector and
    direction, returns success and changes nothing. *)
Theorem initialize_for_gpu_once E x mode s e s1 :
  VecScatterInitializeForGPU E x mode s = Some (e, s1) ->
  spptr (ctx s1) <> None ->
  forall x' mode', VecScatterInitializeForGPU E x' mode' s1 = Some (0, s1).
Proof.
  intros H Hsp x' mode'.
  destruct (spptr (ctx s1)) as [p|] eqn:Hp; [|contradiction].
  apply (initialize_for_gpu_with_mirror E x' mode' s1 p Hp).
  pose proof H as Hc.
  apply initialize_for_gpu_cases in Hc
    as [[_ ->]|(to & from & Hto & Hfrom & _ & Hto' & Hfrom' & _)].
  - unfold VecScatterInitializeForGPU, VecScatterIsSequential_Private in H |- *.
    cbn [snd] in H |- *.
    destruct (todata (ctx s)) as [sgto|ssto|to|ta|ta];
      destruct (fromdata (ctx s)) as [sgfrom|ssfrom|from|fa|fa];
      cbn [format orb] in H |- *; auto;
      try (left; eauto; fail);
      destruct (is_reverse mode); discriminate.
  - left. exists to, from. rewrite Hto', Hfrom'. split; assumption.
Qed.

Lemma initialize_for_gpu_once_witness :
  VecScatterInitializeForGPU (Example.env true true None) (Example.gpu_vec 10)
    SCATTER_REVERSE Scenario.prepared
  = Some (0, Scenario.prepared).
Proof.
  apply (initialize_for_gpu_once (Example.env true true None) (Example.gpu_vec 10)
           SCATTER_FORWARD (Example.start Example.mpi_ctx) 0 Scenario.prepared).
  - by_computation.
  - discriminate.
Defined.

(** ** Copy *)

(** X15. Copy of a context whose backend has no copy rule fails with the
    not-supported error before anything is created.  When Copy returns
    success it has created one header, run the backend's copy rule on it and
    renamed it to the type of the source, in this order, and, the copy rule
    leaving the declared sizes alone, the new context declares the sizes of
    the source.  When it fails after the header was created, the new context
    is not destroyed: the caller's handle points to it. *)
Theorem copy_outcome K sctx :
  (ops_copy K = None ->
   VecScatterCopy K sctx
   = {| c_code := PETSC_ERR_SUP; c_ctx := None;
        c_calls := [CopyCall_PetscError PETSC_ERR_SUP "Cannot copy this type"] |}) /\
  (c_code (VecScatterCopy K sctx) = 0 ->
   exists new,
     c_ctx (VecScatterCopy K sctx) = Some new /\
     c_calls (VecScatterCopy K sctx)
     = [CopyCall_PetscHeaderCreate; CopyCall_ops_copy; CopyCall_VecScatterGetType;
        CopyCall_PetscObjectChangeTypeName (VecScatterGetType K sctx).2] /\
     (copy_keeps_sizes K -> to_n new = to_n sctx /\ from_n new = from_n sctx)) /\
  (c_code (VecScatterCopy K sctx) <> 0 ->
   In CopyCall_ops_copy (c_calls (VecScatterCopy K sctx)) ->
   c_ctx (VecScatterCopy K sctx) <> None).
Proof.
  unfold VecScatterCopy.
  destruct (ops_copy K) as [copy|] eqn:Hcopy.
  - split; [discriminate|].
    destruct (Z.eqb_spec (PetscHeaderCreate K).1 0) as [Hc|Hc]; cbn [negb].
    + destruct (Z.eqb_spec
                  (copy sctx (set_sizes (to_n sctx) (from_n sctx) (PetscHeaderCreate K).2)).1 0)
        as [Hp|Hp]; cbn [negb].
      * destruct (Z.eqb_spec (VecScatterGetType K sctx).1 0) as [Ht|Ht]; cbn [negb].
        -- split.
           ++ intros _. eexists. split; [reflexivity|]. split; [reflexivity|].
              intros Hk.
              exact (Hk copy Hcopy sctx
                       (set_sizes (to_n sctx) (from_n sctx) (PetscHeaderCreate K).2)).
           ++ intros _ _. discriminate.
        -- split; [intros H; cbn in H; contradiction|]. intros _ _. discriminate.
      * split; [intros H; cbn in H; contradiction|]. intros _ _. discriminate.
    + split; [intros H; cbn in H; contradiction|].
      intros _ [H|[]]. discriminate.
  - split; [reflexivity|]. split; [discriminate|].
    intros _ [H|[]]. discriminate.
Qed.

Lemma copy_outcome_witness :
  exists new,
    c_ctx (VecScatterCopy example_copy_env (Example.seq_ctx false false)) = Some new /\
    to_n new = 3 /\ from_n new = 3.
Proof.
  destruct (proj1 (proj2 (copy_outcome example_copy_env (Example.seq_ctx false false))))
    as (new & Hnew & _ & Hsizes).
  - reflexivity.
  - exists new. split; [exact Hnew|]. apply Hsizes.
    intros copy Hc a b. inversion Hc; subst copy. split; reflexivity.
Defined.

(** ** The error-handler test *)

Lemma CreateError_fuel handler : forall fuel n,
  (forall c, handler c = c) ->
  0 <= n -> (Z.to_nat n < fuel)%nat ->
  CreateError handler fuel n
  = Some (1, Handler 1 (Some "Error Created") :: repeat (Handler 1 None) (Z.to_nat n)).
Proof.
  induction fuel as [|fuel IH]; intros n Hh Hn Hf; [lia|].
  cbn [CreateError]. destruct (Z.eqb_spec n 0) as [->|Hne].
  - rewrite Hh. reflexivity.
  - rewrite (IH (n - 1)) by (assumption || lia). cbn [Z.eqb]. rewrite Hh.
    replace (Z.to_nat n) with (S (Z.to_nat (n - 1))) by lia.
    cbn [repeat app]. rewrite repeat_cons. reflexivity.
Qed.

Lemma CreateError_negative handler : forall fuel n,
  n < 0 -> CreateError handler fuel n = None.
Proof.
  induction fuel as [|fuel IH]; intros n Hn; [reflexivity|].
  cbn [CreateError]. destruct (Z.eqb_spec n 0); [lia|].
  rewrite IH by lia. reflexivity.
Qed.

(** X16. With a handler that hands back the code it is given, CreateError(n)
    returns the error code 1 for every n >= 0, never 0: the error is raised
    once, at depth n, and passed up through the n enclosing calls, so the
    handler is entered n+1 times.  For n < 0 the recursion never reaches its
    base case. *)
Theorem CreateError_always_fails handler n :
  (forall c, handler c = c) ->
  (0 <= n ->
   forall fuel, (Z.to_nat n < fuel)%nat ->
     CreateError handler fuel n
     = Some (1, Handler 1 (Some "Error Created") :: repeat (Handler 1 None) (Z.to_nat n))) /\
  (n < 0 -> forall fuel, CreateError handler fuel n = None).
Proof.
  intros Hh. split.
  - intros Hn fuel Hf. apply CreateError_fuel; assumption.
  - intros Hn fuel. apply CreateError_negative. exact Hn.
Qed.

Lemma CreateError_always_fails_witness :
  CreateError (fun c => c) 6 5
  = Some (1, Handler 1 (Some "Error Created") :: repeat (Handler 1 None) (Z.to_nat 5)).
Proof.
  apply (proj1 (CreateError_always_fails (fun c => c) 5 (fun c => eq_refl))).
  - lia.
  - simpl. lia.
Defined.

(** * Properties of the Jacobi preconditioner *)

Lemma jacobi_diag_loop_spec (K : Jacobi.ScalarOps) (x : Jacobi.Vector K) (z : bool) :
  Jacobi.diag_loop K x z
  = (map (Jacobi.unzero K) x, z || existsb (Jacobi.is_zero K) x).
Proof.
  revert z. induction x as [|e t IH]; intros z; simpl.
  - rewrite orb_false_r. reflexivity.
  - unfold Jacobi.unzero at 1. destruct (Jacobi.is_zero K e); rewrite IH; simpl.
    + rewrite orb_true_r. reflexivity.
    + reflexivity.
Qed.

Lemma jacobi_diagsqrt_loop_spec (K : Jacobi.ScalarOps) (x : Jacobi.Vector K) (z : bool) :
  Jacobi.diagsqrt_loop K x z
  = (map (Jacobi.unzero_sqrt K) x, z || existsb (Jacobi.is_zero K) x).
Proof.
  revert z. induction x as [|e t IH]; intros z; simpl.
  - rewrite orb_false_r. reflexivity.
  - unfold Jacobi.unzero_sqrt at 1. destruct (Jacobi.is_zero K e); simpl; rewrite IH; simpl.
    + rewrite orb_true_r. reflexivity.
    + reflexivity.
Qed.

Lemma jacobi_unzero_nonzero (K : Jacobi.ScalarOps) (x : Jacobi.Vector K) :
  Jacobi.is_zero K (Jacobi.one K) = false ->
  Forall (fun e => Jacobi.is_zero K e = false) (map (Jacobi.unzero K) x).
Proof.
  intros H1. induction x as [|e t IH]; simpl; constructor; [|exact IH].
  unfold Jacobi.unzero. destruct (Jacobi.is_zero K e) eqn:He; [exact H1 | exact He].
Qed.

Lemma jacobi_diag_block_ok {K} (E : Jacobi.Env K) (d : Jacobi.Vector K) (z : bool) :
  Jacobi.b_code (Jacobi.diag_block E d z) = 0 ->
  Jacobi.diag_block E d z
  = {| Jacobi.b_code := 0;
       Jacobi.b_vec :=
         map (Jacobi.unzero K) (Jacobi.VecReciprocal E (Jacobi.MatGetDiagonal E d).2).2;
       Jacobi.b_calls :=
         [Jacobi.Call_MatGetDiagonal; Jacobi.Call_VecReciprocal;
          Jacobi.Call_VecGetLocalSize; Jacobi.Call_VecGetArray;
          Jacobi.Call_VecRestoreArray];
       Jacobi.b_zero :=
         z || existsb (Jacobi.is_zero K)
                (Jacobi.VecReciprocal E (Jacobi.MatGetDiagonal E d).2).2 |}.
Proof.
  unfold Jacobi.diag_block. cbv zeta.
  destruct (Z.eqb_spec (Jacobi.MatGetDiagonal E d).1 0) as [_|n]; simpl;
    [|intros H; contradiction].
  destruct (Z.eqb_spec (Jacobi.VecReciprocal E (Jacobi.MatGetDiagonal E d).2).1 0)
    as [_|n]; simpl; [|intros H; contradiction].
  destruct (Z.eqb_spec
              (Jacobi.VecGetLocalSize E
                 (Jacobi.VecReciprocal E (Jacobi.MatGetDiagonal E d).2).2) 0)
    as [_|n]; simpl; [|intros H; contradiction].
  destruct (Z.eqb_spec
              (Jacobi.VecGetArray E
                 (Jacobi.VecReciprocal E (Jacobi.MatGetDiagonal E d).2).2) 0)
    as [_|n]; simpl; [|intros H; contradiction].
  rewrite jacobi_diag_loop_spec. simpl. intros ->. reflexivity.
Qed.

Lemma jacobi_diagsqrt_block_ok {K} (E : Jacobi.Env K) (d : Jacobi.Vector K) (z : bool) :
  Jacobi.b_code (Jacobi.diagsqrt_block E d z) = 0 ->
  Jacobi.diagsqrt_block E d z
  = {| Jacobi.b_code := 0;
       Jacobi.b_vec := map (Jacobi.unzero_sqrt K) (Jacobi.MatGetDiagonal E d).2;
       Jacobi.b_calls :=
         [Jacobi.Call_MatGetDiagonal; Jacobi.Call_VecGetLocalSize;
          Jacobi.Call_VecGetArray; Jacobi.Call_VecRestoreArray];
       Jacobi.b_zero :=
         z || existsb (Jacobi.is_zero K) (Jacobi.MatGetDiagonal E d).2 |}.
Proof.
  unfold Jacobi.diagsqrt_block. cbv zeta.
  destruct (Z.eqb_spec (Jacobi.MatGetDiagonal E d).1 0) as [_|n]; simpl;
    [|intros H; contradiction].
  destruct (Z.eqb_spec (Jacobi.VecGetLocalSize E (Jacobi.MatGetDiagonal E d).2) 0)
    as [_|n]; simpl; [|intros H; contradiction].
  destruct (Z.eqb_spec (Jacobi.VecGetArray E (Jacobi.MatGetDiagonal E d).2) 0)
    as [_|n]; simpl; [|intros H; contradiction].
  rewrite jacobi_diagsqrt_loop_spec. simpl. intros ->. reflexivity.
Qed.

Lemma jacobi_diag_block_calls {K} (E : Jacobi.Env K) (d : Jacobi.Vector K) (z : bool) :
  ~ In Jacobi.Call_PLogInfo (Jacobi.b_calls (Jacobi.diag_block E d z)).
Proof.
  unfold Jacobi.diag_block. cbv zeta.
  repeat match goal with
         | |- context [if ?b then _ else _] => destruct b
         end; simpl; intros H;
    repeat (destruct H as [H|H]; [discriminate H|]); exact H.
Qed.

Lemma jacobi_diagsqrt_block_calls {K} (E : Jacobi.Env K) (d : Jacobi.Vector K) (z : bool) :
  ~ In Jacobi.Call_PLogInfo (Jacobi.b_calls (Jacobi.diagsqrt_block E d z)).
Proof.
  unfold Jacobi.diagsqrt_block. cbv zeta.
  repeat match goal with
         | |- context [if ?b then _ else _] => destruct b
         end; simpl; intros H;
    repeat (destruct H as [H|H]; [discriminate H|]); exact H.
Qed.

Lemma jacobi_setup_ok_inv {K} (E : Jacobi.Env K) (s s' : Jacobi.State K) :
  Jacobi.PCSetUp_Jacobi E s = (0, s') ->
  s' = {| Jacobi.jac := Jacobi.refreshed E (Jacobi.jac s);
          Jacobi.calls :=
            Jacobi.calls s ++ Jacobi.setup_calls (Jacobi.jac s) ++
            (if Jacobi.zero_found E (Jacobi.jac s) then [Jacobi.Call_PLogInfo] else []) |}.
Proof.
  unfold Jacobi.PCSetUp_Jacobi, Jacobi.refreshed, Jacobi.zero_found, Jacobi.setup_calls.
  cbv zeta.
  destruct (Jacobi.diag (Jacobi.jac s)) as [d|];
    destruct (Jacobi.diagsqrt (Jacobi.jac s)) as [q|]; simpl.
  - destruct (Z.eqb_spec (Jacobi.b_code (Jacobi.diag_block E d false)) 0) as [e1|n1];
      simpl; [|intros H; injection H; intros; congruence].
    rewrite (jacobi_diag_block_ok E d false e1). simpl.
    match goal with
    | |- context [Jacobi.diagsqrt_block E q ?z] =>
        destruct (Z.eqb_spec (Jacobi.b_code (Jacobi.diagsqrt_block E q z)) 0)
          as [e2|n2]; simpl; [|intros H; injection H; intros; congruence];
        rewrite (jacobi_diagsqrt_block_ok E q z e2)
    end.
    simpl. intros H. injection H as <-. reflexivity.
  - destruct (Z.eqb_spec (Jacobi.b_code (Jacobi.diag_block E d false)) 0) as [e1|n1];
      simpl; [|intros H; injection H; intros; congruence].
    rewrite (jacobi_diag_block_ok E d false e1). simpl.
    rewrite orb_false_r. intros H. injection H as <-. reflexivity.
  - destruct (Z.eqb_spec (Jacobi.b_code (Jacobi.diagsqrt_block E q false)) 0)
      as [e2|n2]; simpl; [|intros H; injection H; intros; congruence].
    rewrite (jacobi_diagsqrt_block_ok E q false e2). simpl.
    intros H. injection H as <-. reflexivity.
  - intros H. injection H as <-. reflexivity.
Qed.

Lemma jacobi_setup_failed_calls {K} (E : Jacobi.Env K) (s s' : Jacobi.State K) code :
  Jacobi.PCSetUp_Jacobi E s = (code, s') ->
  code <> 0 ->
  exists l, Jacobi.calls s' = Jacobi.calls s ++ l /\ ~ In Jacobi.Call_PLogInfo l.
Proof.
  unfold Jacobi.PCSetUp_Jacobi. cbv zeta. intros H Hc. revert H.
  destruct (Jacobi.diag (Jacobi.jac s)) as [d|];
    destruct (Jacobi.diagsqrt (Jacobi.jac s)) as [q|]; simpl;
    repeat match goal with
           | |- context [if negb (?c =? 0) then _ else _] =>
               destruct (Z.eqb_spec c 0); simpl
           end;
    intros H; injection H as Hcode <-; simpl;
    try (exfalso; apply Hc; symmetry; exact Hcode);
    eexists; (split; [reflexivity|]);
    rewrite ?in_app_iff;
    pose proof (jacobi_diag_block_calls E) as H1;
    pose proof (jacobi_diagsqrt_block_calls E) as H2;
    intros Hin; repeat (destruct Hin as [Hin|Hin]);
    try (eapply H1; exact Hin); try (eapply H2; exact Hin); try exact Hin.
Qed.

Lemma jacobi_setup_calls_no_report {K} (j : Jacobi.PC_Jacobi K) :
  ~ In Jacobi.Call_PLogInfo (Jacobi.setup_calls j).
Proof.
  unfold Jacobi.setup_calls.
  destruct (Jacobi.diag j), (Jacobi.diagsqrt j); simpl; intros H;
    repeat (destruct H as [H|H]; [discriminate H|]); exact H.
Qed.

Lemma jacobi_nonsymmetric_ok_inv {K} (E : Jacobi.Env K) (s r : Jacobi.State K) :
  Jacobi.PCSetUp_Jacobi_NonSymmetric E s = (0, r) ->
  (Jacobi.VecDuplicate E).1 = 0 /\
  Jacobi.jac r
  = Jacobi.refreshed E
      {| Jacobi.diag := Some (Jacobi.VecDuplicate E).2;
         Jacobi.diagsqrt := Jacobi.diagsqrt (Jacobi.jac s) |}.
Proof.
  unfold Jacobi.PCSetUp_Jacobi_NonSymmetric. cbv zeta.
  destruct (Z.eqb_spec (Jacobi.VecDuplicate E).1 0) as [e|n]; simpl.
  - intros H. apply jacobi_setup_ok_inv in H. subst r. split; [exact e | reflexivity].
  - intros H. injection H as H _. congruence.
Qed.

Lemma jacobi_symmetric_ok_inv {K} (E : Jacobi.Env K) (s r : Jacobi.State K) :
  Jacobi.PCSetUp_Jacobi_Symmetric E s = (0, r) ->
  (Jacobi.VecDuplicate E).1 = 0 /\
  Jacobi.jac r
  = Jacobi.refreshed E
      {| Jacobi.diag := Jacobi.diag (Jacobi.jac s);
         Jacobi.diagsqrt := Some (Jacobi.VecDuplicate E).2 |}.
Proof.
  unfold Jacobi.PCSetUp_Jacobi_Symmetric. cbv zeta.
  destruct (Z.eqb_spec (Jacobi.VecDuplicate E).1 0) as [e|n]; simpl.
  - intros H. apply jacobi_setup_ok_inv in H. subst r. split; [exact e | reflexivity].
  - intros H. injection H as H _. congruence.
Qed.

Lemma jacobi_apply_with_diag {K} (E : Jacobi.Env K) (x : Jacobi.Vector K)
      (s : Jacobi.State K) :
  Jacobi.diag (Jacobi.jac s) <> None ->
  Jacobi.PCApply_Jacobi E x s
  = ((Jacobi.VecPointwiseMult E x (Jacobi.diag (Jacobi.jac s))).1,
     {| Jacobi.jac := Jacobi.jac s;
        Jacobi.calls := Jacobi.calls s ++ [Jacobi.Call_VecPointwiseMult] |},
     Some (Jacobi.VecPointwiseMult E x (Jacobi.diag (Jacobi.jac s))).2).
Proof.
  unfold Jacobi.PCApply_Jacobi. cbv zeta.
  destruct (Jacobi.diag (Jacobi.jac s)) as [d|] eqn:Hd; [|congruence].
  intros _. simpl. rewrite Hd. reflexivity.
Qed.

(** X17. A set-up that returns 0 leaves in [diag] the reciprocal of the
    matrix diagonal with every entry that compares equal to zero replaced by
    1.0, and in [diagsqrt] the matrix diagonal with every non-zero entry e
    replaced by 1.0/sqrt(|e|) and every zero entry by 1.0; a vector that is
    not allocated stays so.  When 1.0 does not compare equal to zero, no
    entry of [diag] does afterwards. *)
Theorem jacobi_setup_replaces_zeros {K} (E : Jacobi.Env K) (s s' : Jacobi.State K) :
  Jacobi.PCSetUp_Jacobi E s = (0, s') ->
  Jacobi.jac s' = Jacobi.refreshed E (Jacobi.jac s) /\
  (Jacobi.is_zero K (Jacobi.one K) = false ->
   forall d', Jacobi.diag (Jacobi.jac s') = Some d' ->
     Forall (fun e => Jacobi.is_zero K e = false) d').
Proof.
  intros H. apply jacobi_setup_ok_inv in H. subst s'. simpl.
  split; [reflexivity|]. intros H1 d'.
  destruct (Jacobi.diag (Jacobi.jac s)) as [d|]; simpl; [|discriminate].
  intros Hd. injection Hd as <-. apply jacobi_unzero_nonzero. exact H1.
Qed.

Lemma jacobi_setup_replaces_zeros_witness :
  Jacobi.diag
    (Jacobi.jac (Jacobi.PCSetUp_Jacobi (Jacobi.example_env 0 0) Jacobi.example_allocated).2)
  = Some ([4; 1; 9] : Jacobi.Vector Jacobi.example_scalars) /\
  Forall (fun e => Jacobi.is_zero Jacobi.example_scalars e = false)
         ([4; 1; 9] : Jacobi.Vector Jacobi.example_scalars).
Proof.
  destruct (jacobi_setup_replaces_zeros (Jacobi.example_env 0 0) Jacobi.example_allocated
              (Jacobi.PCSetUp_Jacobi (Jacobi.example_env 0 0) Jacobi.example_allocated).2)
    as [Hj Hnz].
  - reflexivity.
  - split.
    + rewrite Hj. reflexivity.
    + apply Hnz; [reflexivity|]. rewrite Hj. reflexivity.
Defined.

(** X18. PCSetUp_Jacobi only appends to the calls made, and it reports
    "Zero detected in diagonal" exactly when it returns 0 and some entry it
    looked at (of the reciprocal diagonal for [diag], of the diagonal for
    [diagsqrt]) compared equal to zero; a set-up that fails reports nothing,
    whatever it had found. *)
Theorem jacobi_setup_reports_zeros {K} (E : Jacobi.Env K) (s s' : Jacobi.State K) code :
  Jacobi.PCSetUp_Jacobi E s = (code, s') ->
  exists l,
    Jacobi.calls s' = Jacobi.calls s ++ l /\
    (In Jacobi.Call_PLogInfo l <->
     code = 0 /\ Jacobi.zero_found E (Jacobi.jac s) = true).
Proof.
  intros H. destruct (Z.eq_dec code 0) as [->|Hc].
  - apply jacobi_setup_ok_inv in H. subst s'. simpl.
    eexists. split; [reflexivity|].
    rewrite in_app_iff. split.
    + intros [Hin|Hin].
      * exfalso. exact (jacobi_setup_calls_no_report _ Hin).
      * destruct (Jacobi.zero_found E (Jacobi.jac s)); [split; reflexivity|].
        destruct Hin.
    + intros [_ ->]. right. left. reflexivity.
  - destruct (jacobi_setup_failed_calls E s s' code H Hc) as (l & Hl & Hn).
    exists l. split; [exact Hl|]. split.
    + intros Hin. exfalso. exact (Hn Hin).
    + intros [H0 _]. contradiction.
Qed.

Lemma jacobi_setup_reports_zeros_witness :
  exists l,
    Jacobi.calls (Jacobi.PCSetUp_Jacobi (Jacobi.example_env 0 0) Jacobi.example_allocated).2
    = Jacobi.calls Jacobi.example_allocated ++ l /\
    (In Jacobi.Call_PLogInfo l <->
     0 = 0 /\
     Jacobi.zero_found (Jacobi.example_env 0 0) (Jacobi.jac Jacobi.example_allocated)
     = true).
Proof.
  apply (jacobi_setup_reports_zeros (Jacobi.example_env 0 0) Jacobi.example_allocated
           (Jacobi.PCSetUp_Jacobi (Jacobi.example_env 0 0) Jacobi.example_allocated).2 0).
  reflexivity.
Defined.

(** X19. A PCApply_Jacobi that finds no [diag] and gets as far as writing
    the output has allocated and filled [diag], and has not allocated
    [diagsqrt]; the code it returns is the one VecPointwiseMult returned;
    and the next PCApply_Jacobi makes one call only, the multiply, and leaves
    the two vectors as they are. *)
Theorem jacobi_apply_sets_up_once {K} (E : Jacobi.Env K) (x x' : Jacobi.Vector K)
        (s s1 : Jacobi.State K) code y :
  Jacobi.diag (Jacobi.jac s) = None ->
  Jacobi.PCApply_Jacobi E x s = (code, s1, Some y) ->
  Jacobi.diag (Jacobi.jac s1)
  = Some (map (Jacobi.unzero K)
            (Jacobi.VecReciprocal E (Jacobi.MatGetDiagonal E (Jacobi.VecDuplicate E).2).2).2) /\
  (Jacobi.diagsqrt (Jacobi.jac s) = None -> Jacobi.diagsqrt (Jacobi.jac s1) = None) /\
  code = (Jacobi.VecPointwiseMult E x (Jacobi.diag (Jacobi.jac s1))).1 /\
  Jacobi.PCApply_Jacobi E x' s1
  = ((Jacobi.VecPointwiseMult E x' (Jacobi.diag (Jacobi.jac s1))).1,
     {| Jacobi.jac := Jacobi.jac s1;
        Jacobi.calls := Jacobi.calls s1 ++ [Jacobi.Call_VecPointwiseMult] |},
     Some (Jacobi.VecPointwiseMult E x' (Jacobi.diag (Jacobi.jac s1))).2).
Proof.
  intros Hd H. unfold Jacobi.PCApply_Jacobi in H. cbv zeta in H. rewrite Hd in H.
  destruct (Jacobi.PCSetUp_Jacobi_NonSymmetric E s) as [c r] eqn:Hs. simpl in H.
  destruct (Z.eqb_spec c 0) as [->|n]; simpl in H; [|discriminate H].
  destruct (jacobi_nonsymmetric_ok_inv E s r Hs) as [_ Hr].
  injection H as Hcode Hs1 _. subst s1. simpl.
  assert (Hdiag : Jacobi.diag (Jacobi.jac r)
                  = Some (map (Jacobi.unzero K)
                            (Jacobi.VecReciprocal E
                               (Jacobi.MatGetDiagonal E (Jacobi.VecDuplicate E).2).2).2))
    by (rewrite Hr; reflexivity).
  split; [exact Hdiag|]. split.
  - intros Hq. rewrite Hr. simpl. rewrite Hq. reflexivity.
  - split; [symmetry; exact Hcode|].
    rewrite jacobi_apply_with_diag by (simpl; rewrite Hdiag; discriminate).
    reflexivity.
Qed.

Lemma jacobi_apply_sets_up_once_witness :
  Jacobi.diag
    (Jacobi.jac
       (Jacobi.PCApply_Jacobi (Jacobi.example_env 0 7) [1; 2; 3]
          (Jacobi.created Jacobi.example_scalars)).1.2)
  = Some ([4; 1; 9] : Jacobi.Vector Jacobi.example_scalars) /\
  Jacobi.diagsqrt
    (Jacobi.jac
       (Jacobi.PCApply_Jacobi (Jacobi.example_env 0 7) [1; 2; 3]
          (Jacobi.created Jacobi.example_scalars)).1.2)
  = None.
Proof.
  destruct (jacobi_apply_sets_up_once (Jacobi.example_env 0 7) [1; 2; 3] [1; 2; 3]
              (Jacobi.created Jacobi.example_scalars)
              (Jacobi.PCApply_Jacobi (Jacobi.example_env 0 7) [1; 2; 3]
                 (Jacobi.created Jacobi.example_scalars)).1.2
              7 [4; 1; 9])
    as (Hd & Hq & _ & _).
  - reflexivity.
  - reflexivity.
  - split; [exact Hd | apply Hq; reflexivity].
Defined.

(** X20. Whenever PCApplySymmetricLeftOrRight_Jacobi writes the output it
    returns 0, whatever code VecPointwiseMult returned: that code is not
    looked at.  The multiplier is [diagsqrt], which is allocated by then, and
    [diag] is not allocated on the way. *)
Theorem jacobi_symmetric_apply_ignores_multiply_code {K} (E : Jacobi.Env K)
        (x : Jacobi.Vector K) (s s1 : Jacobi.State K) code y :
  Jacobi.PCApplySymmetricLeftOrRight_Jacobi E x s = (code, s1, Some y) ->
  code = 0 /\
  y = (Jacobi.VecPointwiseMult E x (Jacobi.diagsqrt (Jacobi.jac s1))).2 /\
  Jacobi.diagsqrt (Jacobi.jac s1) <> None /\
  (Jacobi.diag (Jacobi.jac s) = None -> Jacobi.diag (Jacobi.jac s1) = None).
Proof.
  unfold Jacobi.PCApplySymmetricLeftOrRight_Jacobi. cbv zeta.
  destruct (Jacobi.diagsqrt (Jacobi.jac s)) as [q|] eqn:Hq.
  - simpl. intros H. injection H as <- <- <-. simpl. rewrite Hq.
    split; [reflexivity|]. split; [reflexivity|]. split; [discriminate|].
    intros Hd. exact Hd.
  - destruct (Jacobi.PCSetUp_Jacobi_Symmetric E s) as [c r] eqn:Hs. simpl.
    destruct (Z.eqb_spec c 0) as [->|n]; simpl; [|discriminate].
    destruct (jacobi_symmetric_ok_inv E s r Hs) as [_ Hr].
    intros H. injection H as <- <- <-. simpl.
    split; [reflexivity|]. split; [reflexivity|]. split.
    + rewrite Hr. simpl. discriminate.
    + intros Hd. rewrite Hr. simpl. rewrite Hd. reflexivity.
Qed.

Lemma jacobi_symmetric_apply_ignores_multiply_code_witness :
  (Jacobi.VecPointwiseMult (Jacobi.example_env 0 7) [1; 2; 3]
     (Some ([4; 1; 9] : Jacobi.Vector Jacobi.example_scalars))).1 = 7 /\
  (Jacobi.PCApplySymmetricLeftOrRight_Jacobi (Jacobi.example_env 0 7) [1; 2; 3]
     (Jacobi.created Jacobi.example_scalars)).1.1 = 0.
Proof.
  split; [reflexivity|].
  apply (jacobi_symmetric_apply_ignores_multiply_code (Jacobi.example_env 0 7) [1; 2; 3]
           (Jacobi.created Jacobi.example_scalars)
           (Jacobi.PCApplySymmetricLeftOrRight_Jacobi (Jacobi.example_env 0 7) [1; 2; 3]
              (Jacobi.created Jacobi.example_scalars)).1.2
           _ [4; 1; 9]).
  reflexivity.
Defined.

(** X21. When the first PCApply_Jacobi allocates [diag] and MatGetDiagonal
    then fails, the error is returned and the output is not written, but
    [diag] stays allocated with what MatGetDiagonal left in it; the next
    PCApply_Jacobi therefore does not set up again, whatever the matrix
    routines would now do: it makes the multiply only, with that vector. *)
Theorem jacobi_failed_setup_not_retried {K} (E : Jacobi.Env K) (x x' : Jacobi.Vector K)
        (s : Jacobi.State K) :
  Jacobi.diag (Jacobi.jac s) = None ->
  (Jacobi.VecDuplicate E).1 = 0 ->
  (Jacobi.MatGetDiagonal E (Jacobi.VecDuplicate E).2).1 <> 0 ->
  exists s1,
    Jacobi.PCApply_Jacobi E x s
    = ((Jacobi.MatGetDiagonal E (Jacobi.VecDuplicate E).2).1, s1, None) /\
    Jacobi.diag (Jacobi.jac s1) = Some (Jacobi.MatGetDiagonal E (Jacobi.VecDuplicate E).2).2 /\
    forall E' : Jacobi.Env K,
      Jacobi.PCApply_Jacobi E' x' s1
      = ((Jacobi.VecPointwiseMult E' x' (Jacobi.diag (Jacobi.jac s1))).1,
         {| Jacobi.jac := Jacobi.jac s1;
            Jacobi.calls := Jacobi.calls s1 ++ [Jacobi.Call_VecPointwiseMult] |},
         Some (Jacobi.VecPointwiseMult E' x' (Jacobi.diag (Jacobi.jac s1))).2).
Proof.
  intros Hd Hdup Hmat.
  unfold Jacobi.PCApply_Jacobi at 1. cbv zeta. rewrite Hd.
  unfold Jacobi.PCSetUp_Jacobi_NonSymmetric. cbv zeta.
  rewrite Hdup. simpl.
  unfold Jacobi.PCSetUp_Jacobi. cbv zeta. simpl.
  unfold Jacobi.diag_block. cbv zeta.
  assert (Hb : ((Jacobi.MatGetDiagonal E (Jacobi.VecDuplicate E).2).1 =? 0) = false)
    by (apply Z.eqb_neq; exact Hmat).
  repeat (rewrite Hb; simpl).
  eexists. split; [reflexivity|]. simpl. split; [reflexivity|].
  intros E'. rewrite jacobi_apply_with_diag by (simpl; discriminate). reflexivity.
Qed.

Lemma jacobi_failed_setup_not_retried_witness :
  Jacobi.PCApply_Jacobi (Jacobi.example_env 5 0) [1; 2; 3]
    (Jacobi.created Jacobi.example_scalars)
  = (5, Jacobi.example_half_set_up, None) /\
  Jacobi.PCApply_Jacobi (Jacobi.example_env 0 0) [1; 2; 3] Jacobi.example_half_set_up
  = (0,
     {| Jacobi.jac := Jacobi.jac Jacobi.example_half_set_up;
        Jacobi.calls :=
          Jacobi.calls Jacobi.example_half_set_up ++ [Jacobi.Call_VecPointwiseMult] |},
     Some ([4; 0; 9] : Jacobi.Vector Jacobi.example_scalars)).
Proof.
  destruct (jacobi_failed_setup_not_retried (Jacobi.example_env 5 0) [1; 2; 3] [1; 2; 3]
              (Jacobi.created Jacobi.example_scalars))
    as (s1 & H1 & _ & H2).
  - reflexivity.
  - reflexivity.
  - discriminate.
  - assert (Hs : s1 = Jacobi.example_half_set_up).
    { assert (Hc : Jacobi.PCApply_Jacobi (Jacobi.example_env 5 0) [1; 2; 3]
                     (Jacobi.created Jacobi.example_scalars)
                   = (5, Jacobi.example_half_set_up, None)) by reflexivity.
      rewrite Hc in H1. injection H1 as <-. reflexivity. }
    subst s1. split; [reflexivity|]. rewrite H2. reflexivity.
Defined.

(** X22. PCDestroy_Jacobi destroys exactly the vectors the context holds
    and then frees the context when every VecDestroy succeeds; when it
    returns an error the context is not freed, and a failure on [diag]
    leaves [diagsqrt] not destroyed. *)
Theorem jacobi_destroy_outcome {K} (E : Jacobi.Env K) (s : Jacobi.State K) :
  ((Jacobi.PCDestroy_Jacobi E s).1 = 0 ->
   (Jacobi.PCDestroy_Jacobi E s).2
   = Jacobi.calls s ++ repeat Jacobi.Call_VecDestroy (Jacobi.vectors (Jacobi.jac s)) ++
     [Jacobi.Call_PetscFree]) /\
  ((Jacobi.PCDestroy_Jacobi E s).1 <> 0 ->
   exists k,
     (1 <= k <= Jacobi.vectors (Jacobi.jac s))%nat /\
     (Jacobi.PCDestroy_Jacobi E s).2 = Jacobi.calls s ++ repeat Jacobi.Call_VecDestroy k) /\
  (forall d, Jacobi.diag (Jacobi.jac s) = Some d -> Jacobi.VecDestroy E d <> 0 ->
     (Jacobi.PCDestroy_Jacobi E s).2 = Jacobi.calls s ++ [Jacobi.Call_VecDestroy]).
Proof.
  unfold Jacobi.PCDestroy_Jacobi, Jacobi.vectors. cbv zeta.
  destruct (Jacobi.diag (Jacobi.jac s)) as [d|];
    destruct (Jacobi.diagsqrt (Jacobi.jac s)) as [q|]; simpl.
  - destruct (Z.eqb_spec (Jacobi.VecDestroy E d) 0) as [e1|n1]; simpl.
    + destruct (Z.eqb_spec (Jacobi.VecDestroy E q) 0) as [e2|n2]; simpl.
      * split; [reflexivity|]. split; [intros H; contradiction|].
        intros d' Hd' Hn. injection Hd' as <-. contradiction.
      * split; [intros H; contradiction|]. split.
        -- intros _. exists 2%nat. split; [lia | reflexivity].
        -- intros d' Hd' Hn. injection Hd' as <-. contradiction.
    + split; [intros H; contradiction|]. split.
      * intros _. exists 1%nat. split; [lia | reflexivity].
      * intros d' _ _. reflexivity.
  - destruct (Z.eqb_spec (Jacobi.VecDestroy E d) 0) as [e1|n1]; simpl.
    + split; [reflexivity|]. split; [intros H; contradiction|].
      intros d' Hd' Hn. injection Hd' as <-. contradiction.
    + split; [intros H; contradiction|]. split.
      * intros _. exists 1%nat. split; [lia | reflexivity].
      * intros d' _ _. reflexivity.
  - destruct (Z.eqb_spec (Jacobi.VecDestroy E q) 0) as [e2|n2]; simpl.
    + split; [reflexivity|]. split; [intros H; contradiction|]. discriminate.
    + split; [intros H; contradiction|]. split.
      * intros _. exists 1%nat. split; [lia | reflexivity].
      * discriminate.
  - split; [reflexivity|]. split; [intros H; contradiction|]. discriminate.
Qed.

Lemma jacobi_destroy_outcome_witness :
  (Jacobi.PCDestroy_Jacobi (Jacobi.example_env 0 0) Jacobi.example_allocated).2
  = [Jacobi.Call_VecDestroy; Jacobi.Call_PetscFree].
Proof.
  apply (proj1 (jacobi_destroy_outcome (Jacobi.example_env 0 0) Jacobi.example_allocated)).
  reflexivity.
Defined.
